(** * PSIMF dashboard (app/app.py): a shallow embedding and its properties

    The program is a Shiny dashboard: it fetches CSV files into pandas data
    frames, filters, pivots and aggregates them, and hands the derived frames
    to the plotting layer.  The embedding has three layers:

    - [pd]: the data-frame operations the program calls (column selection,
      boolean-mask row selection, [unique], [pivot_table], [groupby.agg],
      [plot]), over exact rationals in place of IEEE doubles;
    - [rt]: the run-time state the program threads implicitly (the object
      store, the [lru_cache] of [load_lcc_dataset], the log of fetches and the
      log of entered functions) and its state-and-exception monad;
    - [app]: the module-level code and the [server] function of app.py.

    Modelling choices.  Numbers are exact rationals; a cell of a frame is
    missing (NaN), a number or text, and a column carries the dtype
    read_csv inferred for it.  The network is an oracle indexed by the
    number of reads made so far, so that a read may fail once and succeed
    later.  The reactive framework is left out: a [reactive.Calc] is
    evaluated at each read (the framework would reuse its last value, which
    is the same one), an input is read when it has a value, and rendering
    an output is running its function.  [read_csv_url] is modelled without
    its keyword arguments, which no caller passes.  The figure registry of
    matplotlib is not part of the state. *)

From Stdlib Require Import QArith Qcanon.
From stdpp Require Import base option list strings gmap sorting numbers.

Local Open Scope string_scope.
Local Open Scope list_scope.
Local Set Warnings "-register-all,-clear-no-such-hyp".

(** ** Exceptions and fallible results *)

Inductive exn :=
| KeyError (key : string)      (* dict or column lookup of an absent key *)
| TypeError (msg : string)     (* aggregation or plot of non-numeric data *)
| URLError (code : nat)        (* the transport failed *)
| ParserError (code : nat)     (* pd.read_csv rejected the text *)
| SystemError.                 (* a reference the object store does not hold *)

Inductive Result (A : Type) :=
| Ok (a : A)
| Raise (e : exn).
Arguments Ok {A} a.
Arguments Raise {A} e.

#[global] Instance exn_eq_dec : EqDecision exn.
Proof. solve_decision. Defined.

#[global] Instance Result_eq_dec {A : Type} `{EqDecision A} :
  EqDecision (Result A).
Proof. solve_decision. Defined.

#[global] Instance Result_ret : MRet Result := @Ok.
#[global] Instance Result_bind : MBind Result := λ A B f r,
  match r with
  | Ok a => f a
  | Raise e => Raise e
  end.

(** A Python dict literal: an association list in source order. *)
Fixpoint dict_get {V : Type} (d : list (string * V)) (k : string) : Result V :=
  match d with
  | [] => Raise (KeyError k)
  | (k', v) :: d' => if decide (k' = k) then Ok v else dict_get d' k
  end.

Definition dict_keys {V : Type} (d : list (string * V)) : list string := d.*1.

(** ** The data-frame layer *)

Module pd.

(** A cell read from a CSV file: missing, a number, or text. *)
Inductive cell :=
| NaN
| Num (q : Qc)
| Str (s : string).

#[global] Instance cell_eq_dec : EqDecision cell.
Proof. solve_decision. Defined.

(** The dtype read_csv infers for a column: int64/float64, or object. *)
Inductive dtype := Numeric | Object.

#[global] Instance dtype_eq_dec : EqDecision dtype.
Proof. solve_decision. Defined.

Record Series := { sdtype : dtype; svalues : list cell }.

(** Row-major frame; a row shorter than the header reads as missing. *)
Record DataFrame := {
  columns : list (string * dtype);
  rows : list (list cell)
}.

#[global] Instance DataFrame_eq_dec : EqDecision DataFrame.
Proof. solve_decision. Defined.

Definition cell_at (i : nat) (r : list cell) : cell := default NaN (r !! i).

Definition col_find (df : DataFrame) (name : string) : option (nat * dtype) :=
  (λ p, (p.1, p.2.2)) <$> list_find (λ c, c.1 = name) (columns df).

(** [df[name]] *)
Definition getitem (df : DataFrame) (name : string) : Result Series :=
  match col_find df name with
  | Some (i, t) => Ok {| sdtype := t; svalues := cell_at i <$> rows df |}
  | None => Raise (KeyError name)
  end.

(** [series == s] for a Python str [s]: elementwise, missing is never equal. *)
Definition eq_str (s : Series) (v : string) : list bool :=
  (λ c, bool_decide (c = Str v)) <$> svalues s.

(** [df[mask]]: a new frame with the rows whose mask entry is True. *)
Definition getitem_mask (df : DataFrame) (mask : list bool) : DataFrame :=
  {| columns := columns df;
     rows := fst <$> filter (λ p, p.2 = true) (zip (rows df) mask) |}.

(** [Series.unique()]: distinct values in order of first appearance
    (missing counts as a value). *)
Fixpoint unique {A : Type} `{EqDecision A} (l : list A) : list A :=
  match l with
  | [] => []
  | x :: l' => x :: filter (λ y, y ≠ x) (unique l')
  end.

Definition tolist (l : list cell) : list cell := l.

(** Order of group keys: numbers by value, text by code point.  A column has
    one dtype, so numbers and text never meet in one key level; the clause
    ordering numbers before text only makes the relation total. *)
Definition cell_leb (a b : cell) : bool :=
  match a, b with
  | NaN, _ => true
  | _, NaN => false
  | Num x, Num y => bool_decide (x ≤ y)%Qc
  | Num _, Str _ => true
  | Str _, Num _ => false
  | Str x, Str y => String.leb x y
  end.

Definition sort_keys (l : list cell) : list cell :=
  merge_sort (λ a b, Is_true (cell_leb a b)) l.

(** Reductions skip missing values. *)
Definition observed (vs : list cell) : list Qc :=
  omap (λ c, match c with Num q => Some q | _ => None end) vs.

Definition Qsum (l : list Qc) : Qc := foldr Qcplus 0%Qc l.

Definition Qcmin (x y : Qc) : Qc := if decide (x ≤ y)%Qc then x else y.
Definition Qcmax (x y : Qc) : Qc := if decide (x ≤ y)%Qc then y else x.

Inductive aggfunc := AggMin | AggMax | AggMean | AggSum.

Definition agg (f : aggfunc) (vs : list cell) : cell :=
  match f, observed vs with
  | AggSum, os => Num (Qsum os)
  | _, [] => NaN
  | AggMean, os => Num (Qsum os / Qc_of_Z (Z.of_nat (length os)))
  | AggMin, o :: os => Num (foldr Qcmin o os)
  | AggMax, o :: os => Num (foldr Qcmax o os)
  end.

(** *** pivot_table *)

Record PivotTable := {
  index_name : string;
  columns_name : string;
  index : list cell;
  pcolumns : list cell;
  data : list (list cell)
}.

Abbreviation key := (cell * cell)%type.

(** The long-form records [((index key, column key), value)] of a frame. *)
Definition records (ks cs vs : list cell) : list (key * cell) :=
  zip (zip ks cs) vs.

(** groupby(dropna=True): a record with a missing key is in no group. *)
Definition dropna_keys (rs : list (key * cell)) : list (key * cell) :=
  filter (λ r, r.1.1 ≠ NaN ∧ r.1.2 ≠ NaN) rs.

Definition group (rs : list (key * cell)) (k : key) : list cell :=
  snd <$> filter (λ r, r.1 = k) rs.

Definition groupby_agg (f : aggfunc) (rs : list (key * cell)) : list (key * cell) :=
  (λ k, (k, agg f (group rs k))) <$> unique (fst <$> rs).

(** agged.dropna(how="all"): groups whose aggregate is missing are dropped. *)
Definition dropna_all (ag : list (key * cell)) : list (key * cell) :=
  filter (λ g, g.2 ≠ NaN) ag.

Definition fill_cell (fill_value : option Qc) : cell :=
  match fill_value with
  | Some q => Num q
  | None => NaN
  end.

(** unstack(fill_value) followed by fillna(fill_value). *)
Definition unstack_cell (ag : list (key * cell)) (fill_value : option Qc)
    (i c : cell) : cell :=
  match filter (λ g, g.1 = (i, c)) ag with
  | g :: _ => g.2
  | [] => fill_cell fill_value
  end.

(** [df.pivot_table(index=, columns=, values=, aggfunc=, fill_value=)] with
    the defaults dropna=True and sort=True.  The value label is checked
    first, then the group keys in the order index, columns.  Rows with a
    missing key are in no group; a group is aggregated over its values that
    are not missing; groups whose aggregate is missing are dropped before
    the table is reshaped, and the cells left without a group take the fill
    value.  A value column of dtype object has no mean (TypeError); its sum
    would be text, which the plot that follows refuses with a TypeError as
    well: the model raises TypeError for it in both cases. *)
Definition pivot_table (df : DataFrame) (index_ columns_ values_ : string)
    (f : aggfunc) (fill_value : option Qc) : Result PivotTable :=
  vs ← getitem df values_;
  ks ← getitem df index_;
  cs ← getitem df columns_;
  match sdtype vs with
  | Object => Raise (TypeError "agg function failed")
  | Numeric =>
      let rs := dropna_keys (records (svalues ks) (svalues cs) (svalues vs)) in
      let ag := dropna_all (groupby_agg f rs) in
      let idx := sort_keys (unique (fst <$> (fst <$> ag))) in
      let cols := sort_keys (unique (snd <$> (fst <$> ag))) in
      Ok {| index_name := index_;
            columns_name := columns_;
            index := idx;
            pcolumns := cols;
            data := (λ i, (λ c, unstack_cell ag fill_value i c) <$> cols) <$> idx |}
  end.

(** The cell of a pivot at given labels, and the height of a stacked bar. *)
Definition loc (p : PivotTable) (i c : cell) : option cell :=
  r ← list_find (λ x, x = i) (index p);
  k ← list_find (λ x, x = c) (pcolumns p);
  row ← data p !! r.1;
  row !! k.1.

Definition row_total (p : PivotTable) (i : cell) : option Qc :=
  r ← list_find (λ x, x = i) (index p);
  row ← data p !! r.1;
  Some (Qsum (observed row)).

(** *** groupby(by)[var].agg([...]).reset_index() *)

Definition group1 (rs : list (cell * cell)) (k : cell) : list cell :=
  snd <$> filter (λ r, r.1 = k) rs.

(** Selecting [by_] and then [var] raises KeyError for a label that is no
    column (pandas words the second one "Column not found").  Rows with a
    missing key are in no group; each reduction skips missing values and is
    missing for a group without values; the mean of an object column is a
    TypeError.  The groups come in ascending order of their key and
    [reset_index] makes the key an ordinary column. *)
Definition groupby_agg_reset (df : DataFrame) (by_ var : string)
    (fs : list (string * aggfunc)) : Result DataFrame :=
  ks ← getitem df by_;
  vs ← getitem df var;
  match sdtype vs with
  | Object => Raise (TypeError "agg function failed")
  | Numeric =>
      let rs := filter (λ r, r.1 ≠ NaN) (zip (svalues ks) (svalues vs)) in
      let keys := sort_keys (unique (fst <$> rs)) in
      Ok {| columns := (by_, sdtype ks) :: ((λ f, (f.1, Numeric)) <$> fs);
            rows := (λ k, k :: ((λ f, agg f.2 (group1 rs k)) <$> fs)) <$> keys |}
  end.

(** *** DataFrame.plot and the matplotlib Axes it draws on *)

Record Legend := {
  legend_title : option string;
  bbox_to_anchor : option (Qc * Qc);
  legend_loc : option string
}.

Inductive Artist :=
| BarPlot (stacked : bool) (color : list string) (table : PivotTable)
| LinePlot (marker : string) (table : PivotTable)
| Line2D (x y : list cell) (label color : string)
| FillBetween (x y1 y2 : list cell) (color : string) (alpha : Qc) (label : string).

Record Axes := {
  artists : list Artist;
  ylabel : string;
  xlabel : string;
  title : string;
  legend : option Legend
}.

Definition subplots : Axes :=
  {| artists := []; ylabel := ""; xlabel := ""; title := ""; legend := None |}.

Definition add_artist (a : Artist) (ax : Axes) : Axes :=
  {| artists := artists ax ++ [a]; ylabel := ylabel ax; xlabel := xlabel ax;
     title := title ax; legend := legend ax |}.
Definition set_ylabel (l : string) (ax : Axes) : Axes :=
  {| artists := artists ax; ylabel := l; xlabel := xlabel ax;
     title := title ax; legend := legend ax |}.
Definition set_xlabel (l : string) (ax : Axes) : Axes :=
  {| artists := artists ax; ylabel := ylabel ax; xlabel := l;
     title := title ax; legend := legend ax |}.
Definition set_title (l : string) (ax : Axes) : Axes :=
  {| artists := artists ax; ylabel := ylabel ax; xlabel := xlabel ax;
     title := l; legend := legend ax |}.
Definition set_legend (l : Legend) (ax : Axes) : Axes :=
  {| artists := artists ax; ylabel := ylabel ax; xlabel := xlabel ax;
     title := title ax; legend := Some l |}.

(** [pivot.plot(kind=...)]: a frame without columns has nothing to draw and
    raises; otherwise a fresh Axes labelled with the index name and carrying
    a legend titled with the columns name. *)
Definition plot (p : PivotTable) (a : Artist) : Result Axes :=
  match pcolumns p with
  | [] => Raise (TypeError "no numeric data to plot")
  | _ :: _ =>
      Ok (set_legend {| legend_title := Some (columns_name p);
                        bbox_to_anchor := None; legend_loc := None |}
            (set_xlabel (index_name p) (add_artist a subplots)))
  end.

(** *** Vocabulary for statements about frames *)

(** The cell of row [r] under the column labelled [col]. *)
Definition field (d : DataFrame) (col : string) (r : list cell) : cell :=
  match col_find d col with
  | Some (i, _) => cell_at i r
  | None => NaN
  end.

Definition has_column (d : DataFrame) (col : string) : Prop :=
  is_Some (col_find d col).

Definition numeric_column (d : DataFrame) (col : string) : Prop :=
  ∃ i, col_find d col = Some (i, Numeric).

Definition is_num (c : cell) : Prop :=
  match c with
  | Num _ => True
  | _ => False
  end.

#[global] Instance is_num_dec c : Decision (is_num c).
Proof. destruct c; simpl; apply _. Defined.

(** The long-form records [pivot_table] groups, in terms of the rows. *)
Definition recs (d : DataFrame) (index_ columns_ values_ : string)
    : list (key * cell) :=
  dropna_keys ((λ r, ((field d index_ r, field d columns_ r),
                      field d values_ r)) <$> rows d).

(** [df[df[col] == v]] as a function of the frame. *)
Definition selected (d : DataFrame) (col v : string) : Result DataFrame :=
  s ← getitem d col;
  mret (getitem_mask d (eq_str s v)).

(** A row of the region [name] that [pivot_table] puts in a group: it has
    a year and a class.  It is observed when it has a value as well. *)
Definition lcc_grouped (d : DataFrame) (name : string) (r : list cell) : Prop :=
  field d "Feature_Name" r = Str name
  ∧ field d "Year" r ≠ NaN ∧ field d "Landcover_Class" r ≠ NaN.

Definition lcc_observed (d : DataFrame) (value name : string)
    (r : list cell) : Prop :=
  lcc_grouped d name r ∧ is_num (field d value r).

#[global] Instance lcc_grouped_dec d name r : Decision (lcc_grouped d name r).
Proof. unfold lcc_grouped. apply _. Defined.

#[global] Instance lcc_observed_dec d value name r :
  Decision (lcc_observed d value name r).
Proof. unfold lcc_observed. apply _. Defined.

(** The values a stacked bar of year [y] adds up, and the (year, class)
    labels of the observed rows, with repetitions. *)
Definition lcc_year_values (d : DataFrame) (value name : string) (y : cell)
    : list Qc :=
  observed (field d value <$>
            filter (λ r, lcc_grouped d name r ∧ field d "Year" r = y) (rows d)).

Definition lcc_observed_keys (d : DataFrame) (value name : string) : list key :=
  (λ r, (field d "Year" r, field d "Landcover_Class" r))
  <$> filter (lcc_observed d value name) (rows d).

End pd.

(** ** The run-time layer *)

Module rt.
Import pd.

(** Objects are referred to by their position in the store. *)
Definition addr : Type := nat.

(** What lies outside the program: the transport the interpreter runs under
    and what the [n]-th read (counted over the whole run) of a URL yields on
    each transport, a parsed frame or the exception raised. *)
Record World := {
  IN_BROWSER : bool;
  open_url_read_csv : nat → string → Result DataFrame;
  local_read_csv : nat → string → Result DataFrame
}.

Record State := {
  heap : list DataFrame;          (* data-frame objects, by address *)
  cache : list (string * addr);   (* lru_cache entries, most recent first *)
  fetches : list string;          (* URLs read so far, oldest first *)
  calls : list string             (* functions entered so far, oldest first *)
}.

Definition init : State :=
  {| heap := []; cache := []; fetches := []; calls := [] |}.

Definition M (A : Type) : Type := State → Result A * State.

#[global] Instance M_ret : MRet M := λ A a s, (Ok a, s).
#[global] Instance M_bind : MBind M := λ A B f m s,
  match m s with
  | (Ok a, s') => f a s'
  | (Raise e, s') => (Raise e, s')
  end.

(** A pure fallible step, run in the current state. *)
Definition lift {A : Type} (r : Result A) : M A := λ s, (r, s).

Definition enter (f : string) : M unit := λ s,
  (Ok (), {| heap := heap s; cache := cache s; fetches := fetches s;
             calls := calls s ++ [f] |}).

Definition alloc (d : DataFrame) : M addr := λ s,
  (Ok (length (heap s)),
   {| heap := heap s ++ [d]; cache := cache s; fetches := fetches s;
      calls := calls s |}).

(** Reading through a reference.  Python references are never dangling;
    SystemError marks the addresses the store does not hold. *)
Definition deref (a : addr) : M DataFrame := λ s,
  (match heap s !! a with
   | Some d => Ok d
   | None => Raise SystemError
   end, s).

Definition log_fetch (url : string) : M nat := λ s,
  (Ok (length (fetches s)),
   {| heap := heap s; cache := cache s; fetches := fetches s ++ [url];
      calls := calls s |}).

Definition set_cache (c : list (string * addr)) : M unit := λ s,
  (Ok (), {| heap := heap s; cache := c; fetches := fetches s;
             calls := calls s |}).

Definition get_cache : M (list (string * addr)) := λ s, (Ok (cache s), s).

(** *** functools.lru_cache *)

Fixpoint cache_get (k : string) (c : list (string * addr)) : option addr :=
  match c with
  | [] => None
  | (k', a) :: c' => if decide (k' = k) then Some a else cache_get k c'
  end.

Definition cache_del (k : string) (c : list (string * addr)) : list (string * addr) :=
  filter (λ e, e.1 ≠ k) c.

(** The wrapper [lru_cache(maxsize)] puts around a one-argument function:
    a hit returns the stored result and makes the entry the most recent; a
    miss calls the function and, when it returns, stores the result as the
    most recent entry, evicting the least recent one when full.  A call that
    raises stores nothing. *)
Definition lru_cache (maxsize : nat) (f : string → M addr) (k : string) : M addr :=
  c ← get_cache;
  match cache_get k c with
  | Some a => set_cache ((k, a) :: cache_del k c);; mret a
  | None =>
      a ← f k;
      c' ← get_cache;
      match cache_get k c' with
      | Some _ => mret a
      | None => set_cache (take maxsize ((k, a) :: c'));; mret a
      end
  end.

End rt.

(** ** The application: module-level code of app.py *)

Module app.
Import pd rt.

Section program.

Context (W : World).

(** What the [n]-th read yields for [url] on the transport in use:
    [pd.read_csv] on the handle [open_url] gives in the browser, and on the
    URL itself otherwise. *)
Definition fetched (n : nat) (url : string) : Result DataFrame :=
  if IN_BROWSER W then open_url_read_csv W n url else local_read_csv W n url.

(** [read_csv_url(url)]: one read; the parsed frame is a new object.
    Nothing is caught. *)
Definition read_csv_url (url : string) : M addr :=
  enter "read_csv_url";;
  n ← log_fetch url;
  d ← lift (fetched n url);
  alloc d.

Definition river_files : list (string * string) :=
  [ ("Pullayup", "https://uw-psi.github.io/shinyapp/data/Pullayup.csv");
    ("Snohomish", "https://uw-psi.github.io/shinyapp/data/Snohomish.csv");
    ("Green", "https://uw-psi.github.io/shinyapp/data/Green.csv");
    ("Samish", "https://uw-psi.github.io/shinyapp/data/Sammish.csv");
    ("Stillaguamish", "https://uw-psi.github.io/shinyapp/data/Stillaguamish.csv");
    ("Hoko", "https://uw-psi.github.io/shinyapp/data/Hoko.csv");
    ("Elwha", "https://uw-psi.github.io/shinyapp/data/Elwha.csv");
    ("Deschutes", "https://uw-psi.github.io/shinyapp/data/Deschutes.csv") ].

Definition velma_files : list (string * string) :=
  [ ("flow2011", "https://uw-psi.github.io/shinyapp/data/velma_monthly_flow_stats_2011.csv");
    ("totC2011", "https://uw-psi.github.io/shinyapp/data/velma_monthly_C_stats_2011.csv") ].

Definition lcc_data : list (string * string) :=
  [ ("counties", "https://uw-psi.github.io/shinyapp/data/diffed_counties.csv");
    ("wrias", "https://uw-psi.github.io/shinyapp/data/diffed_wrias.csv");
    ("velma", "https://uw-psi.github.io/shinyapp/data/diffed_velma.csv") ].

Definition region_type_options : list string :=
  ["County"; "WRIA"; "VELMA watershed"].

Definition land_cover_colors : list (string * string) :=
  [ ("Open Space", "#FFBEBE");
    ("Low Intensity", "#FF7F7F");
    ("Medium Intensity", "#E60000");
    ("High Intensity", "#730000");
    ("Forest", "#267300");
    ("Agriculture", "#FFEBAF") ].

(** [land_cover_colors.get(c, "#333333")] for a column label [c]. *)
Definition color_of (c : cell) : string :=
  match c with
  | Str name =>
      match dict_get land_cover_colors name with
      | Ok col => col
      | Raise _ => "#333333"
      end
  | _ => "#333333"
  end.

(** [@lru_cache] without arguments: maxsize is 128. *)
Definition load_lcc_dataset : string → M addr :=
  lru_cache 128 (λ name,
    enter "load_lcc_dataset";;
    url ← lift (dict_get lcc_data name);
    read_csv_url url).

(** [df[col].unique().tolist()] on the object at [df]. *)
Definition unique_of (df : addr) (col : string) : M (list cell) :=
  d ← deref df;
  s ← lift (getitem d col);
  mret (tolist (unique (svalues s))).

(** *** The page *)

Inductive Choices :=
| ChoiceList (l : list cell)               (* a list: value and label agree *)
| ChoiceDict (d : list (string * string)). (* a dict: value ↦ label *)

Inductive Tag :=
| page_fluid (children : list Tag)
| h2 (text : string)
| navset_tab (panels : list Tag)
| nav_panel (title : string) (child : Tag)
| layout_sidebar (side : Tag) (main : Tag)
| sidebar (children : list Tag)
| navset_card_tab (panels : list Tag)
| layout_columns (children : list Tag)
| card (children : list Tag)
| card_header (text : string)
| input_radio_buttons (id label : string) (choices : Choices)
| input_select (id label : string) (choices : Choices)
| output_ui (id : string)
| output_plot (id height : string)
| iframe (src width height style : string).

Definition app_ui (hydro_variable_options : list string)
    (velma_watersheds : list cell) : Tag :=
  page_fluid [
    h2 "PSIMF Dashboard";
    navset_tab [
      nav_panel "Landcover Dashboard"
        (layout_sidebar
          (sidebar [
            input_radio_buttons "region_type" "Select Region Type"
              (ChoiceList [Str "County"; Str "WRIA"; Str "VELMA watershed"]);
            output_ui "region_selector" ])
          (navset_card_tab [
            nav_panel "Difference" (output_plot "plot_lcc" "400px");
            nav_panel "Total Area" (output_plot "plot_lcc_area" "400px") ]));
      nav_panel "VELMA Monthly Explorer"
        (layout_sidebar
          (sidebar [
            input_radio_buttons "velma_var" "Select Variable"
              (ChoiceDict [ ("flow2011", "Flow");
                            ("temp2011", "Temperature");
                            ("totN2011", "Total Nitrogen");
                            ("totC2011", "Total Carbon") ]);
            input_select "velma_watershed" "Select Watershed"
              (ChoiceList velma_watersheds) ])
          (layout_columns [
            card [ card_header "Monthly Min/Max/Mean Timeseries";
                   output_plot "velma_monthly_plot" "500px" ] ]));
      nav_panel "Hydrologic Explorer"
        (layout_sidebar
          (sidebar [
            input_select "river" "Select River Mouth"
              (ChoiceList (Str <$> dict_keys river_files));
            input_select "variable" "Select Variable"
              (ChoiceList (Str <$> hydro_variable_options)) ])
          (layout_columns [
            card [ card_header "Timeseries Summary";
                   output_plot "timeseries_plot" "500px" ] ]));
      nav_panel "VELMA SSM Visual"
        (iframe "https://uw-psi.github.io/visuals/velma_ssm(2).html"
                "100%" "600" "border:none;");
      nav_panel "LCC"
        (iframe "https://uw-psi.github.io/visuals/landcover_change.html"
                "100%" "600" "border:none;") ] ].

(** The output slots and the input controls a page declares. *)
Fixpoint output_ids (t : Tag) : list string :=
  let ids := fix ids (ts : list Tag) : list string :=
    match ts with
    | [] => []
    | t :: ts' => (output_ids t ++ ids ts')%list
    end in
  match t with
  | page_fluid ts | navset_tab ts | sidebar ts | navset_card_tab ts
  | layout_columns ts | card ts => ids ts
  | nav_panel _ c => output_ids c
  | layout_sidebar s m => (output_ids s ++ output_ids m)%list
  | output_ui i | output_plot i _ => [i]
  | _ => []
  end.

Fixpoint inputs (t : Tag) : list (string * Choices) :=
  let ins := fix ins (ts : list Tag) : list (string * Choices) :=
    match ts with
    | [] => []
    | t :: ts' => (inputs t ++ ins ts')%list
    end in
  match t with
  | page_fluid ts | navset_tab ts | sidebar ts | navset_card_tab ts
  | layout_columns ts | card ts => ins ts
  | nav_panel _ c => inputs c
  | layout_sidebar s m => (inputs s ++ inputs m)%list
  | input_radio_buttons i _ c | input_select i _ c => [(i, c)]
  | _ => []
  end.

(** The values a control lets the user select. *)
Definition choice_values (c : Choices) : list cell :=
  match c with
  | ChoiceList l => l
  | ChoiceDict d => Str <$> dict_keys d
  end.

(** *** What the module binds when it is imported *)

Record Globals := {
  sample_df : addr;
  hydro_variable_options : list string;
  df_counties : addr;
  df_wrias : addr;
  df_velma : addr;
  county_list : list cell;
  wria_list : list cell;
  velma_list : list cell;
  ui : Tag
}.

(** The module body, top to bottom. *)
Definition startup : M Globals :=
  url ← lift (dict_get river_files "Pullayup");
  sample ← read_csv_url url;
  d ← deref sample;
  let options :=
    filter (λ col, col ∉ ["Year"; "Day"; "Loop"; "Step"]) (columns d).*1 in
  counties ← load_lcc_dataset "counties";
  wrias ← load_lcc_dataset "wrias";
  velma ← load_lcc_dataset "velma";
  cl ← unique_of counties "Feature_Name";
  wl ← unique_of wrias "Feature_Name";
  vl ← unique_of velma "Feature_Name";
  flow_url ← lift (dict_get velma_files "flow2011");
  flow ← read_csv_url flow_url;
  watersheds ← unique_of flow "Watershed";
  mret {| sample_df := sample;
          hydro_variable_options := options;
          df_counties := counties;
          df_wrias := wrias;
          df_velma := velma;
          county_list := cl;
          wria_list := wl;
          velma_list := vl;
          ui := app_ui options watersheds |}.

(** ** The [server] function *)

(** The current values of the input controls. *)
Record Input := {
  region_type : string;
  region_name : string;
  velma_var : string;
  velma_watershed : string;
  river : string;
  variable : string
}.

Inductive Rendered :=
| RenderedUI (t : Tag)
| RenderedPlot (ax : Axes).

Section server.

Context (g : Globals) (input : Input).

Definition region_selector : M Tag :=
  enter "region_selector";;
  if decide (region_type input = "County") then
    mret (input_select "region_name" "Select County"
            (ChoiceList (county_list g)))
  else if decide (region_type input = "VELMA watershed") then
    mret (input_select "region_name" "Select VELMA watershed"
            (ChoiceList (velma_list g)))
  else
    mret (input_select "region_name" "Select WRIA"
            (ChoiceList (wria_list g))).

(** [df = df[df[col] == v]]: the selection is a new object, to which the
    local name is rebound. *)
Definition select_rows (df : addr) (col v : string) : M addr :=
  d ← deref df;
  s ← lift (getitem d col);
  alloc (getitem_mask d (eq_str s v)).

(** The first two statements of [make_velma_plot]: the derived frame. *)
Definition make_velma_plot_frame (df : addr) (watershed variable : string)
    : M PivotTable :=
  df ← select_rows df "Watershed" watershed;
  d ← deref df;
  lift (pivot_table d "Month" "Year" variable AggMean None).

Definition make_velma_plot (df : addr) (watershed variable : string) : M Axes :=
  enter "make_velma_plot";;
  pivot ← make_velma_plot_frame df watershed variable;
  ax ← lift (plot pivot (LinePlot "o" pivot));
  let ax := set_ylabel variable ax in
  let ax := set_xlabel "Month" ax in
  let ax := set_title (variable +:+ " in " +:+ watershed +:+ " Watershed") ax in
  let ax := set_legend {| legend_title := Some "Year";
                          bbox_to_anchor := Some (Q2Qc (105 # 100), Q2Qc 1);
                          legend_loc := Some "upper left" |} ax in
  mret ax.

(** The first two statements of [make_lcc_plot]: the derived frame
    (aggfunc is left at its default, the mean). *)
Definition make_lcc_plot_frame (df : addr) (region_name : string)
    : M PivotTable :=
  df ← select_rows df "Feature_Name" region_name;
  d ← deref df;
  lift (pivot_table d "Year" "Landcover_Class" "diff_dev" AggMean (Some 0%Qc)).

Definition make_lcc_plot (df : addr) (region_name : string) : M Axes :=
  enter "make_lcc_plot";;
  pivot ← make_lcc_plot_frame df region_name;
  ax ← lift (plot pivot (BarPlot true (color_of <$> pcolumns pivot) pivot));
  let ax := set_ylabel "Difference in km² from baseline (2015)" ax in
  let ax := set_xlabel "Year" ax in
  let ax := set_title ("Landcover Change in " +:+ region_name) ax in
  let ax := set_legend {| legend_title := Some "Landcover Class";
                          bbox_to_anchor := Some (Q2Qc (105 # 100), Q2Qc 1);
                          legend_loc := Some "upper left" |} ax in
  mret ax.

(** The first two statements of [make_lcc_area_plot]: the derived frame. *)
Definition make_lcc_area_plot_frame (df : addr) (region_name : string)
    : M PivotTable :=
  df ← select_rows df "Feature_Name" region_name;
  d ← deref df;
  lift (pivot_table d "Year" "Landcover_Class" "Developable_Area_km2" AggSum
          (Some 0%Qc)).

Definition make_lcc_area_plot (df : addr) (region_name : string) : M Axes :=
  enter "make_lcc_area_plot";;
  pivot ← make_lcc_area_plot_frame df region_name;
  ax ← lift (plot pivot (BarPlot true (color_of <$> pcolumns pivot) pivot));
  let ax := set_ylabel "Developable area in km²" ax in
  let ax := set_xlabel "Year" ax in
  let ax := set_title ("Landcover Change in " +:+ region_name) ax in
  let ax := set_legend {| legend_title := Some "Landcover Class";
                          bbox_to_anchor := Some (Q2Qc (105 # 100), Q2Qc 1);
                          legend_loc := Some "upper left" |} ax in
  mret ax.

(** A [reactive.Calc] keeps its last result until an input it read changes;
    the body is evaluated here at every read, which yields the same value. *)
Definition selected_region_type : M string :=
  enter "selected_region_type";;
  mret (region_type input).

Definition selected_dataset : M addr :=
  enter "selected_dataset";;
  t ← selected_region_type;
  if decide (t = "County") then load_lcc_dataset "counties"
  else
    t' ← selected_region_type;
    if decide (t' = "VELMA watershed") then load_lcc_dataset "velma"
    else load_lcc_dataset "wrias".

Definition plot_lcc : M Axes :=
  enter "plot_lcc";;
  df ← selected_dataset;
  make_lcc_plot df (region_name input).

Definition plot_lcc_area : M Axes :=
  enter "plot_lcc_area";;
  df ← selected_dataset;
  make_lcc_area_plot df (region_name input).

Definition hydro_data : M addr :=
  enter "hydro_data";;
  file_path ← lift (dict_get river_files (river input));
  read_csv_url file_path.

(** The third statement of [hydro_summary]: the derived frame. *)
Definition hydro_summary_frame (df : addr) (var : string) : M addr :=
  d ← deref df;
  summary ← lift (groupby_agg_reset d "Year" var
                    [("min", AggMin); ("max", AggMax); ("mean", AggMean)]);
  alloc summary.

Definition hydro_summary : M addr :=
  enter "hydro_summary";;
  df ← hydro_data;
  let var := variable input in
  hydro_summary_frame df var.

Definition timeseries_plot : M Axes :=
  enter "timeseries_plot";;
  df ← hydro_summary;
  d ← deref df;
  let ax := subplots in
  year ← lift (getitem d "Year");
  mean ← lift (getitem d "mean");
  let ax := add_artist (Line2D (svalues year) (svalues mean) "Mean" "blue") ax in
  year ← lift (getitem d "Year");
  lo ← lift (getitem d "min");
  hi ← lift (getitem d "max");
  let ax := add_artist (FillBetween (svalues year) (svalues lo) (svalues hi)
                          "blue" (Q2Qc (2 # 10)) "Min-Max Range") ax in
  let ax := set_ylabel (variable input) ax in
  let ax := set_xlabel "Year" ax in
  let ax := set_title (variable input +:+ " in " +:+ river input +:+ " River") ax in
  let ax := set_legend {| legend_title := None; bbox_to_anchor := None;
                          legend_loc := None |} ax in
  mret ax.

(** The outputs [server] registers: a decorated [@render] function becomes
    the output of its own name.  The undecorated helpers and the
    [reactive.Calc] functions are no outputs. *)
Definition server : list (string * M Rendered) :=
  [ ("region_selector", t ← region_selector; mret (RenderedUI t));
    ("plot_lcc", ax ← plot_lcc; mret (RenderedPlot ax));
    ("plot_lcc_area", ax ← plot_lcc_area; mret (RenderedPlot ax));
    ("timeseries_plot", ax ← timeseries_plot; mret (RenderedPlot ax)) ].

End server.

End program.
End app.

(** * Vocabulary of the statements *)

Import pd rt app.

(** What a cell adds to a sum: its number, nothing when it has none. *)
Definition obs (v : cell) : Qc :=
  match v with
  | Num q => q
  | _ => 0%Qc
  end.

(** A computation [grows] the store when every object present before is
    present, unchanged, after, whatever the outcome; it is [quiet] when it
    moreover leaves the cache and the fetch log alone. *)
Definition grows {A : Type} (m : M A) : Prop :=
  ∀ s, heap s `prefix_of` heap (m s).2.

Definition quiet {A : Type} (m : M A) : Prop :=
  ∀ s, cache (m s).2 = cache s ∧ fetches (m s).2 = fetches s.

(** A computation is [stateless] when its outcome does not depend on the
    state it runs in. *)
Definition stateless {A : Type} (m : M A) : Prop :=
  ∀ s1 s2, (m s1).1 = (m s2).1.

(** The frame a computation returned a reference to. *)
Definition returned (r : Result addr * State) : Result DataFrame :=
  match r with
  | (Ok a, s) =>
      match heap s !! a with
      | Some d => Ok d
      | None => Raise SystemError
      end
  | (Raise e, _) => Raise e
  end.

(** The cache holds only names of the registry, each once, and refers only
    to objects in the store. *)
Definition cache_inv (s : State) : Prop :=
  NoDup (cache s).*1
  ∧ (∀ k, k ∈ (cache s).*1 → k ∈ dict_keys lcc_data)
  ∧ (∀ k a, (k, a) ∈ cache s → is_Some (heap s !! a)).

(** The state after a sequence of calls of the loader, whatever they
    return or raise. *)
Definition load_all (W : World) (names : list string) (s : State) : State :=
  foldl (λ st n, (load_lcc_dataset W n st).2) s names.

(** The registry name [selected_dataset] loads for a region type. *)
Definition dataset_name (region_type : string) : string :=
  if decide (region_type = "County") then "counties"
  else if decide (region_type = "VELMA watershed") then "velma"
  else "wrias".

(** The values of [var] the rows of year [y] carry. *)
Definition year_values (d : DataFrame) (var : string) (y : cell) : list cell :=
  field d var <$> filter (λ r, field d "Year" r = y) (rows d).

(** A computation [enters_only P] when every function it enters
    satisfies [P]. *)
Definition enters_only {A : Type} (P : string → Prop) (m : M A) : Prop :=
  ∀ s, ∃ new, calls (m s).2 = calls s ++ new ∧ Forall P new.

(** The states of a run: the module is imported in the initial state, and
    from then on outputs are rendered, for whatever inputs, and the loader
    is called. *)
Inductive reachable (W : World) : State → Prop :=
| reach_init : reachable W init
| reach_startup s : reachable W s → reachable W (startup W s).2
| reach_load s name :
    reachable W s → reachable W (load_lcc_dataset W name s).2
| reach_render s g input out :
    reachable W s → out ∈ server W g input → reachable W (out.2 s).2.

Definition keeps_inv {A : Type} (m : M A) : Prop :=
  ∀ s, cache_inv s → cache_inv (m s).2.

(** One step of a run: the module body is run, the loader is called, or
    an output is rendered. *)
Inductive run_step (W : World) (s : State) : State → Prop :=
| step_startup : run_step W s (startup W s).2
| step_load name : run_step W s (load_lcc_dataset W name s).2
| step_render g input out :
    out ∈ server W g input → run_step W s (out.2 s).2.

(** The cache entry of [name] refers to the object at [a], which is [d]. *)
Definition pinned (name : string) (a : addr) (d : DataFrame) (s : State)
    : Prop :=
  cache_inv s ∧ cache_get name (cache s) = Some a ∧ heap s !! a = Some d.

(** A computation [preserves] a property of the state when the state it
    leaves has the property whenever the state it starts in has it. *)
Definition preserves {A : Type} (P : State → Prop) (m : M A) : Prop :=
  ∀ s, P s → P (m s).2.

(** The years [hydro_summary] has a row for: the distinct years of the
    file, ascending. *)
Definition summary_years (d : DataFrame) : list cell :=
  sort_keys (unique (filter (λ y, y ≠ NaN) (field d "Year" <$> rows d))).

(** Two computations [agree] when they have the same outcome and the same
    effect in every state. *)
Definition agree {A : Type} (m1 m2 : M A) : Prop := ∀ s, m1 s = m2 s.

(** A row of the watershed that the pivot of [make_velma_plot] puts in a
    group and that has a value of the variable. *)
Definition velma_observed (d : DataFrame) (var watershed : string)
    (r : list cell) : Prop :=
  field d "Watershed" r = Str watershed
  ∧ field d "Month" r ≠ NaN ∧ field d "Year" r ≠ NaN
  ∧ is_num (field d var r).

#[global] Instance velma_observed_dec d var watershed r :
  Decision (velma_observed d var watershed r).
Proof. unfold velma_observed. apply _. Defined.

(** Two frames with the same header whose rows are the same up to their
    order. *)
Definition same_rows (d d' : DataFrame) : Prop :=
  columns d = columns d' ∧ rows d ≡ₚ rows d'.

(** ** Sample data *)

Module examples.

Definition int (z : Z) : cell := Num (Qc_of_Z z).
Definition decimal (n : Z) (d : positive) : cell := Num (Q2Qc (n # d)).

(** A land-cover table in the layout of diffed_counties.csv.  The only
    row of King for 2020, which is also its only Agriculture row, has no
    diff_dev value; Kitsap has two Forest rows for 2020. *)
Definition counties : DataFrame :=
  {| columns := [ ("Feature_Name", Object); ("Year", Numeric);
                  ("Landcover_Class", Object); ("diff_dev", Numeric);
                  ("Developable_Area_km2", Numeric) ];
     rows := [ [Str "King"; int 2019; Str "Forest"; decimal (-15) 10; int 120];
               [Str "King"; int 2019; Str "Open Space"; decimal 5 10; int 30];
               [Str "King"; int 2020; Str "Agriculture"; NaN; int 118];
               [Str "Kitsap"; int 2020; Str "Forest"; int 2; int 10];
               [Str "Kitsap"; int 2020; Str "Forest"; int 4; int 30];
               [Str "Kitsap"; int 2020; Str "Agriculture"; int 1; int 5] ] |}.

(** A state whose store holds the given frames and nothing else. *)
Definition store (ds : list DataFrame) : State :=
  {| heap := ds; cache := []; fetches := []; calls := [] |}.

End examples.

Import examples.

Module worlds.

Definition lcc_columns : list (string * dtype) :=
  [ ("Feature_Name", Object); ("Year", Numeric); ("Landcover_Class", Object);
    ("diff_dev", Numeric); ("Developable_Area_km2", Numeric) ].

Definition wrias : DataFrame :=
  {| columns := lcc_columns;
     rows := [ [Str "Nooksack"; int 2019; Str "Forest"; int (-3); int 400];
               [Str "Nooksack"; int 2020; Str "Forest"; int (-4); int 399];
               [Str "Skagit"; int 2019; Str "Agriculture"; int 1; int 250] ] |}.

Definition velma : DataFrame :=
  {| columns := lcc_columns;
     rows := [ [Str "Tolt"; int 2019; Str "Forest"; int 0; int 80];
               [Str "Tolt"; int 2020; Str "Open Space"; int 1; int 7] ] |}.

Definition hydro_columns : list (string * dtype) :=
  [ ("Year", Numeric); ("Day", Numeric); ("Loop", Numeric); ("Step", Numeric);
    ("Runoff", Numeric) ].

(** Pullayup.csv carries a Temp column that Snohomish.csv lacks. *)
Definition pullayup : DataFrame :=
  {| columns := hydro_columns ++ [("Temp", Numeric)];
     rows := [ [int 2001; int 1; int 1; int 1; decimal 25 10; int 4];
               [int 2001; int 2; int 1; int 2; decimal 35 10; int 6];
               [int 2002; int 1; int 1; int 1; decimal 10 10; NaN] ] |}.

Definition snohomish : DataFrame :=
  {| columns := hydro_columns;
     rows := [ [int 2001; int 1; int 1; int 1; int 9];
               [int 2002; int 1; int 1; int 1; int 7] ] |}.

Definition velma_flow : DataFrame :=
  {| columns := [ ("Watershed", Object); ("Year", Numeric);
                  ("Month", Numeric); ("mean", Numeric) ];
     rows := [ [Str "Tolt"; int 2011; int 1; int 12];
               [Str "Tolt"; int 2011; int 2; int 15];
               [Str "Cedar"; int 2011; int 1; int 20] ] |}.

Definition files : list (string * DataFrame) :=
  [ ("https://uw-psi.github.io/shinyapp/data/Pullayup.csv", pullayup);
    ("https://uw-psi.github.io/shinyapp/data/Snohomish.csv", snohomish);
    ("https://uw-psi.github.io/shinyapp/data/diffed_counties.csv", counties);
    ("https://uw-psi.github.io/shinyapp/data/diffed_wrias.csv", wrias);
    ("https://uw-psi.github.io/shinyapp/data/diffed_velma.csv", velma);
    ("https://uw-psi.github.io/shinyapp/data/velma_monthly_flow_stats_2011.csv",
     velma_flow) ].

Definition serve (url : string) : Result DataFrame :=
  match dict_get files url with
  | Ok d => Ok d
  | Raise _ => Raise (URLError 404)
  end.

(** A local interpreter whose every read succeeds for the files above. *)
Definition site : World :=
  {| IN_BROWSER := false;
     open_url_read_csv := λ _ _, Raise (URLError 0);
     local_read_csv := λ _ url, serve url |}.

(** The same in the browser, with the first read of the run failing. *)
Definition outage : World :=
  {| IN_BROWSER := true;
     open_url_read_csv := λ n url,
       match n with
       | O => Raise (URLError 503)
       | S _ => serve url
       end;
     local_read_csv := λ _ _, Raise (URLError 0) |}.

Definition county_input : Input :=
  {| region_type := "County"; region_name := "King";
     velma_var := "flow2011"; velma_watershed := "Tolt";
     river := "Snohomish"; variable := "Temp" |}.

End worlds.

Import worlds.

(** * Properties *)

(** ** The model at work *)

(** King in the difference plot: the row of 2020 has no value and leaves
    no trace; the cells are the means. *)
Example make_lcc_plot_frame_King :
  ∃ p s,
    make_lcc_plot_frame 0 "King" (store [counties]) = (Ok p, s)
    ∧ index p = [int 2019]
    ∧ pcolumns p = [Str "Forest"; Str "Open Space"]
    ∧ data p = [[decimal (-15) 10; decimal 5 10]]
    ∧ heap s = [counties; {| columns := columns counties;
                             rows := take 3 (rows counties) |}].
Proof.
  eexists _, _. split; [reflexivity|].
  split_and!; apply (bool_decide_unpack _); by vm_compute.
Qed.

(** Kitsap in the area plot: the two Forest rows of 2020 are added up, and
    the bar of 2020 is as high as the three areas together. *)
Example make_lcc_area_plot_frame_Kitsap :
  ∃ p s,
    make_lcc_area_plot_frame 0 "Kitsap" (store [counties]) = (Ok p, s)
    ∧ index p = [int 2020]
    ∧ pcolumns p = [Str "Agriculture"; Str "Forest"]
    ∧ data p = [[int 5; int 40]]
    ∧ row_total p (int 2020) = Some (Qc_of_Z 45).
Proof.
  eexists _, _. split; [reflexivity|].
  split_and!; apply (bool_decide_unpack _); by vm_compute.
Qed.

(** A region the frame does not have: the pivot is empty and the plot
    raises. *)
Example make_lcc_plot_unknown_region :
  (make_lcc_plot 0 "Thurston" (store [counties])).1
  = Raise (TypeError "no numeric data to plot").
Proof. reflexivity. Qed.

(** The yearly summary of Runoff in Pullayup.csv. *)
Example hydro_summary_frame_Runoff :
  returned (hydro_summary_frame 0 "Runoff" (store [pullayup]))
  = Ok {| columns := [ ("Year", Numeric); ("min", Numeric);
                       ("max", Numeric); ("mean", Numeric) ];
          rows := [ [int 2001; decimal 25 10; decimal 35 10; int 3];
                    [int 2002; int 1; int 1; int 1] ] |}.
Proof. apply (bool_decide_unpack _). by vm_compute. Qed.

(** Start-up against the sample site: five reads, three cached datasets. *)
Example startup_site :
  ∃ g s,
    startup site init = (Ok g, s)
    ∧ hydro_variable_options g = ["Runoff"; "Temp"]
    ∧ county_list g = [Str "King"; Str "Kitsap"]
    ∧ wria_list g = [Str "Nooksack"; Str "Skagit"]
    ∧ velma_list g = [Str "Tolt"]
    ∧ cache s = [("velma", 3%nat); ("wrias", 2%nat); ("counties", 1%nat)]
    ∧ length (fetches s) = 5%nat
    ∧ output_ids (ui g)
      = [ "region_selector"; "plot_lcc"; "plot_lcc_area";
          "velma_monthly_plot"; "timeseries_plot" ].
Proof.
  destruct (startup site init) as [[g|e] s] eqn:Hrun;
    [|vm_compute in Hrun; discriminate].
  exists g, s. split; [done|].
  assert (Ok g = (startup site init).1) as Hg by (by rewrite Hrun).
  assert (s = (startup site init).2) as -> by (by rewrite Hrun).
  vm_compute in Hg. injection Hg as ->.
  split_and!; by vm_compute.
Qed.

(** ** Lists: [unique], sorting, masks *)

Section list_facts.

Context {A : Type} `{EqDecision A}.

Lemma elem_of_unique (l : list A) (x : A) : x ∈ unique l ↔ x ∈ l.
Proof.
  induction l as [|y l IH]; simpl; [done|].
  rewrite !elem_of_cons, list_elem_of_filter, IH.
  destruct (decide (x = y)); tauto.
Qed.

Lemma NoDup_unique (l : list A) : NoDup (unique l).
Proof.
  induction l as [|y l IH]; simpl; [constructor|].
  constructor.
  - rewrite list_elem_of_filter. tauto.
  - by apply list.NoDup_filter.
Qed.

Lemma zip_fmap_diag {B C : Type} (f : A → B) (h : A → C) (l : list A) :
  zip (f <$> l) (h <$> l) = (λ x, (f x, h x)) <$> l.
Proof. induction l; simpl; [done|by f_equal]. Qed.

End list_facts.

Lemma sort_keys_Permutation (l : list cell) : sort_keys l ≡ₚ l.
Proof. apply merge_sort_Permutation. Qed.

Lemma elem_of_sort_keys (l : list cell) (x : cell) : x ∈ sort_keys l ↔ x ∈ l.
Proof. by rewrite sort_keys_Permutation. Qed.

Lemma NoDup_sort_keys (l : list cell) : NoDup l → NoDup (sort_keys l).
Proof. by rewrite sort_keys_Permutation. Qed.

(** The labels of a pivot and the years of a summary come in ascending
    order. *)
Lemma cell_leb_total (a b : cell) : cell_leb a b ∨ cell_leb b a.
Proof.
  destruct a as [|x|x], b as [|y|y]; simpl; auto.
  - destruct (Qc_le_total x y) as [H|H]; [left|right];
      by apply bool_decide_pack.
  - destruct (String.leb_total x y) as [H|H]; [left|right];
      by apply Is_true_true.
Qed.

Lemma Sorted_sort_keys (l : list cell) :
  Sorted (λ a b, Is_true (cell_leb a b)) (sort_keys l).
Proof.
  assert (Total (λ a b, Is_true (cell_leb a b))) as Htotal
    by (intros a b; apply cell_leb_total).
  apply (Sorted_merge_sort (λ a b, Is_true (cell_leb a b))).
Qed.

(** Selecting by a mask computed from the rows is filtering the rows. *)
Lemma mask_filter {B : Type} (P : B → Prop) `{∀ x, Decision (P x)} (l : list B) :
  (zip l ((λ x, bool_decide (P x)) <$> l)).*1 = l
  ∧ (filter (λ p : B * bool, p.2 = true)
       (zip l ((λ x, bool_decide (P x)) <$> l))).*1 = filter P l.
Proof.
  induction l as [|x l [IH1 IH2]]; simpl; [done|].
  split; [by f_equal|].
  rewrite !filter_cons. simpl.
  destruct (decide (P x)) as [HP|HP].
  - rewrite (bool_decide_eq_true_2 _ HP). simpl.
    destruct (decide (true = true)); [|done]. simpl. by f_equal.
  - rewrite (bool_decide_eq_false_2 _ HP). simpl.
    by destruct (decide (false = true)).
Qed.

Lemma getitem_Ok (d : DataFrame) (name : string) (s : Series) :
  getitem d name = Ok s ↔
  ∃ i t, col_find d name = Some (i, t)
         ∧ s = {| sdtype := t; svalues := cell_at i <$> rows d |}.
Proof.
  unfold getitem. destruct (col_find d name) as [[i t]|]; [|naive_solver].
  split; [intros [= <-]; eauto|intros (?&?&[= <- <-]&->); done].
Qed.

Lemma rows_getitem_mask (d : DataFrame) (i : nat) (t : dtype) (v : string) :
  rows (getitem_mask d
          (eq_str {| sdtype := t; svalues := cell_at i <$> rows d |} v))
  = filter (λ r, cell_at i r = Str v) (rows d).
Proof.
  unfold getitem_mask, eq_str. simpl. rewrite <-list_fmap_compose.
  apply (mask_filter (λ r, cell_at i r = Str v)).
Qed.

(** ** Aggregation and pivoting *)

Lemma elem_of_observed (q : Qc) (vs : list cell) : q ∈ observed vs ↔ Num q ∈ vs.
Proof.
  unfold observed. rewrite list_elem_of_omap. split.
  - intros ([]&Hin&Heq); simplify_eq. done.
  - intros Hin. exists (Num q). done.
Qed.

Lemma observed_nil (vs : list cell) : observed vs = [] ↔ ∀ q, Num q ∉ vs.
Proof.
  split.
  - intros Hnil q Hq. apply elem_of_observed in Hq.
    rewrite Hnil in Hq. by apply elem_of_nil in Hq.
  - intros Hno. destruct (observed vs) as [|q os] eqn:Hobs; [done|].
    destruct (Hno q). apply elem_of_observed. rewrite Hobs. left.
Qed.

Lemma observed_Num {B : Type} (h : B → Qc) (l : list B) :
  observed ((λ x, Num (h x)) <$> l) = h <$> l.
Proof. induction l; simpl; [done|]. unfold observed in *. simpl. by f_equal. Qed.

Lemma agg_mean_NaN (vs : list cell) : agg AggMean vs = NaN ↔ observed vs = [].
Proof. unfold agg. destruct (observed vs); naive_solver. Qed.

Lemma agg_sum_Num (vs : list cell) : agg AggSum vs = Num (Qsum (observed vs)).
Proof. done. Qed.

Lemma agg_mean_singleton (vs : list cell) (q : Qc) :
  observed vs = [q] → agg AggMean vs = Num q.
Proof.
  intros Hobs. unfold agg. rewrite Hobs. simpl. f_equal.
  rewrite Qcplus_0_r. apply Qc_is_canon. simpl.
  rewrite Qred_correct. unfold Qdiv. rewrite Qmult_comm.
  change (/ 1)%Q with 1%Q. apply Qmult_1_l.
Qed.

Lemma elem_of_group (rs : list (key * cell)) (k : key) (v : cell) :
  v ∈ group rs k ↔ (k, v) ∈ rs.
Proof.
  unfold group. rewrite list_elem_of_fmap. split.
  - intros ([k' v']&->&Hin). apply list_elem_of_filter in Hin as [Hk Hin].
    simpl in *. by subst.
  - intros Hin. exists (k, v). split; [done|].
    apply list_elem_of_filter. done.
Qed.

Section unstack.

Context (f : aggfunc) (rs : list (key * cell)) (fill_value : option Qc).

Let ag := dropna_all (groupby_agg f rs).

Lemma elem_of_agged_keys (k : key) :
  k ∈ ag.*1 ↔ k ∈ rs.*1 ∧ agg f (group rs k) ≠ NaN.
Proof.
  unfold ag, dropna_all, groupby_agg. rewrite list_elem_of_fmap. split.
  - intros (g&->&Hg). apply list_elem_of_filter in Hg as [Hna Hg].
    apply list_elem_of_fmap in Hg as (k'&Hg'&Hk'). subst g.
    rewrite elem_of_unique in Hk'. simpl in *. done.
  - intros [Hk Hna]. exists (k, agg f (group rs k)). split; [done|].
    apply list_elem_of_filter. split; [done|].
    apply list_elem_of_fmap. exists k. split; [done|]. by apply elem_of_unique.
Qed.

Lemma unstack_cell_agged (i c : cell) :
  unstack_cell ag fill_value i c
  = if decide ((i, c) ∈ rs.*1 ∧ agg f (group rs (i, c)) ≠ NaN)
    then agg f (group rs (i, c)) else fill_cell fill_value.
Proof.
  unfold unstack_cell, ag, dropna_all, groupby_agg.
  assert (∀ L : list key,
    match filter (λ g : key * cell, g.1 = (i, c))
            (filter (λ g : key * cell, g.2 ≠ NaN)
               ((λ k, (k, agg f (group rs k))) <$> L)) with
    | g :: _ => g.2
    | [] => fill_cell fill_value
    end
    = if decide ((i, c) ∈ L ∧ agg f (group rs (i, c)) ≠ NaN)
      then agg f (group rs (i, c)) else fill_cell fill_value) as HL.
  { induction L as [|k L IH]; [done|].
    rewrite fmap_cons, filter_cons. cbn [snd].
    destruct (decide (agg f (group rs k) ≠ NaN)) as [Hna|Hna].
    - rewrite filter_cons. cbn [fst].
      destruct (decide (k = (i, c))) as [->|Hk].
      + cbn [snd]. rewrite decide_True; [done|]. split; [left|done].
      + rewrite IH. apply decide_ext. rewrite elem_of_cons. naive_solver.
    - rewrite IH. apply decide_ext. rewrite elem_of_cons.
      split; [naive_solver|]. intros [[->|?] ?]; [done|naive_solver]. }
  rewrite HL. apply decide_ext. by rewrite elem_of_unique.
Qed.

End unstack.

(** *** What [pivot_table] returns *)

Lemma getitem_field (d : DataFrame) (col : string) (i : nat) (t : dtype) :
  col_find d col = Some (i, t) →
  getitem d col = Ok {| sdtype := t; svalues := field d col <$> rows d |}.
Proof. intros Hc. unfold getitem, field. by rewrite Hc. Qed.

Lemma getitem_missing (d : DataFrame) (col : string) :
  col_find d col = None → getitem d col = Raise (KeyError col).
Proof. intros Hc. unfold getitem. by rewrite Hc. Qed.

Lemma pivot_table_Ok (d : DataFrame) (ix cl vl : string) (f : aggfunc)
    (fill_value : option Qc) :
  numeric_column d vl → has_column d ix → has_column d cl →
  let ag := dropna_all (groupby_agg f (recs d ix cl vl)) in
  pivot_table d ix cl vl f fill_value
  = Ok {| index_name := ix;
          columns_name := cl;
          index := sort_keys (unique ag.*1.*1);
          pcolumns := sort_keys (unique ag.*1.*2);
          data := (λ i, (λ c, unstack_cell ag fill_value i c)
                          <$> sort_keys (unique ag.*1.*2))
                  <$> sort_keys (unique ag.*1.*1) |}.
Proof.
  intros [iv Hv] [[ii ti] Hi] [[ic tc] Hc]. unfold pivot_table, recs, records.
  rewrite (getitem_field _ _ _ _ Hv), (getitem_field _ _ _ _ Hi),
    (getitem_field _ _ _ _ Hc).
  cbn [mbind Result_bind sdtype svalues].
  by rewrite !zip_fmap_diag.
Qed.

Lemma elem_of_recs (d : DataFrame) (ix cl vl : string) (k : key) (v : cell) :
  (k, v) ∈ recs d ix cl vl ↔
  k.1 ≠ NaN ∧ k.2 ≠ NaN
  ∧ ∃ r, r ∈ rows d ∧ field d ix r = k.1 ∧ field d cl r = k.2
         ∧ field d vl r = v.
Proof.
  unfold recs, dropna_keys. rewrite list_elem_of_filter, list_elem_of_fmap.
  destruct k as [y c]. simpl. split.
  - intros ([??]&r&[= -> -> ->]&Hr). eauto 10.
  - intros (?&?&r&Hr&<-&<-&<-). eauto.
Qed.

Section pivot_labels.

Context (ag : list (key * cell)).

Lemma elem_of_pivot_index (y : cell) :
  y ∈ sort_keys (unique ag.*1.*1) ↔ ∃ c, (y, c) ∈ ag.*1.
Proof.
  rewrite elem_of_sort_keys, elem_of_unique, list_elem_of_fmap. split.
  - intros ([y' c]&->&Hk). eauto.
  - intros (c&Hk). by exists (y, c).
Qed.

Lemma elem_of_pivot_columns (c : cell) :
  c ∈ sort_keys (unique ag.*1.*2) ↔ ∃ y, (y, c) ∈ ag.*1.
Proof.
  rewrite elem_of_sort_keys, elem_of_unique, list_elem_of_fmap. split.
  - intros ([y c']&->&Hk). eauto.
  - intros (y&Hk). by exists (y, c).
Qed.

End pivot_labels.

Lemma agged_mean_key (rs : list (key * cell)) (k : key) :
  k ∈ (dropna_all (groupby_agg AggMean rs)).*1 ↔ ∃ q, (k, Num q) ∈ rs.
Proof.
  rewrite elem_of_agged_keys, agg_mean_NaN, observed_nil. split.
  - intros [_ Hobs].
    destruct (observed (group rs k)) as [|q os] eqn:Ho.
    + destruct Hobs. intros q Hq. apply elem_of_observed in Hq.
      rewrite Ho in Hq. by apply elem_of_nil in Hq.
    + exists q. apply elem_of_group, elem_of_observed. rewrite Ho. left.
  - intros [q Hq]. split.
    + apply list_elem_of_fmap. by exists (k, Num q).
    + intros Hno. apply (Hno q). by apply elem_of_group.
Qed.

Lemma agged_sum_key (rs : list (key * cell)) (k : key) :
  k ∈ (dropna_all (groupby_agg AggSum rs)).*1 ↔ k ∈ rs.*1.
Proof. rewrite elem_of_agged_keys. rewrite agg_sum_Num. naive_solver. Qed.

(** Reading a cell or a bar height of a pivot laid out by [unstack]. *)
Lemma list_find_eq_elem_of (l : list cell) (x : cell) :
  x ∈ l → ∃ n, list_find (λ y, y = x) l = Some (n, x) ∧ l !! n = Some x.
Proof.
  intros Hx. destruct (list_find_elem_of (λ y, y = x) l x Hx eq_refl)
    as [[n y] Hf].
  pose proof Hf as Hf'. apply list_find_Some in Hf' as (Hl&->&_). eauto.
Qed.

Lemma loc_unstack (p : PivotTable) (h : cell → cell → cell) (i c : cell) :
  data p = (λ i, (λ c, h i c) <$> pcolumns p) <$> index p →
  i ∈ index p → c ∈ pcolumns p → loc p i c = Some (h i c).
Proof.
  intros Hd Hi Hc. unfold loc.
  destruct (list_find_eq_elem_of _ _ Hi) as (n&->&Hn).
  destruct (list_find_eq_elem_of _ _ Hc) as (m&->&Hm).
  cbn [mbind option_bind fst]. rewrite Hd, list_lookup_fmap, Hn.
  cbn [fmap option_fmap option_map mbind option_bind].
  by rewrite list_lookup_fmap, Hm.
Qed.

Lemma row_total_unstack (p : PivotTable) (h : cell → cell → Qc) (i : cell) :
  data p = (λ i, (λ c, Num (h i c)) <$> pcolumns p) <$> index p →
  i ∈ index p → row_total p i = Some (Qsum (h i <$> pcolumns p)).
Proof.
  intros Hd Hi. unfold row_total.
  destruct (list_find_eq_elem_of _ _ Hi) as (n&->&Hn).
  cbn [mbind option_bind fst]. rewrite Hd, list_lookup_fmap, Hn.
  cbn [fmap option_fmap option_map mbind option_bind].
  by rewrite observed_Num.
Qed.

(** ** Running the derived-frame computations *)

Lemma bind_run {A B : Type} (m : M A) (k : A → M B) (s : State) :
  (m ≫= k) s = match m s with
               | (Ok a, s') => k a s'
               | (Raise e, s') => (Raise e, s')
               end.
Proof. done. Qed.

Lemma deref_run (s : State) (a : addr) (d : DataFrame) :
  heap s !! a = Some d → deref a s = (Ok d, s).
Proof. intros Ha. unfold deref. by rewrite Ha. Qed.

Lemma alloc_run (s : State) (d : DataFrame) :
  ∃ s', alloc d s = (Ok (length (heap s)), s')
        ∧ heap s' = heap s ++ [d] ∧ cache s' = cache s
        ∧ fetches s' = fetches s ∧ calls s' = calls s.
Proof. eexists. split; [done|]. done. Qed.

Lemma lookup_alloc (s : State) (d : DataFrame) :
  heap (alloc d s).2 !! length (heap s) = Some d.
Proof. simpl. by rewrite lookup_app_r, Nat.sub_diag. Qed.

Lemma select_rows_run (s : State) (df : addr) (d : DataFrame) (col v : string) :
  heap s !! df = Some d →
  select_rows df col v s
  = match selected d col v with
    | Ok d' => alloc d' s
    | Raise e => (Raise e, s)
    end.
Proof.
  intros Hd. unfold select_rows, selected.
  rewrite bind_run, (deref_run _ _ _ Hd), bind_run. unfold lift.
  by destruct (getitem d col).
Qed.

(** The three pivots share one shape: select the rows, pivot the selection.
    The result is a function of the frame stored at [df]; the state gains
    the selection as a new object and is otherwise unchanged. *)
Lemma pivot_frame_run (s : State) (df : addr) (d : DataFrame)
    (col v ix cl vl : string) (f : aggfunc) (fill_value : option Qc) :
  heap s !! df = Some d →
  (df' ← select_rows df col v;
   d' ← deref df';
   lift (pivot_table d' ix cl vl f fill_value)) s
  = match selected d col v with
    | Ok d' => (pivot_table d' ix cl vl f fill_value, (alloc d' s).2)
    | Raise e => (Raise e, s)
    end.
Proof.
  intros Hd. rewrite bind_run, (select_rows_run _ _ _ _ _ Hd).
  destruct (selected d col v) as [d'|e]; [|done].
  change (alloc d' s) with (Ok (length (heap s)), (alloc d' s).2).
  cbv beta iota. rewrite bind_run, (deref_run _ _ d'); [done|].
  apply lookup_alloc.
Qed.

Lemma hydro_summary_frame_run (s : State) (df : addr) (d : DataFrame)
    (var : string) :
  heap s !! df = Some d →
  hydro_summary_frame df var s
  = match groupby_agg_reset d "Year" var
            [("min", AggMin); ("max", AggMax); ("mean", AggMean)] with
    | Ok summary => alloc summary s
    | Raise e => (Raise e, s)
    end.
Proof.
  intros Hd. unfold hydro_summary_frame.
  rewrite bind_run, (deref_run _ _ _ Hd), bind_run. unfold lift.
  by destruct (groupby_agg_reset _ _ _ _).
Qed.

(** *** The selection *)

Lemma selected_Ok (d : DataFrame) (col v : string) :
  has_column d col →
  ∃ d', selected d col v = Ok d' ∧ columns d' = columns d
        ∧ rows d' = filter (λ r, field d col r = Str v) (rows d).
Proof.
  intros [[i t] Hc]. unfold selected, getitem. rewrite Hc.
  eexists. split; [done|]. split; [done|].
  rewrite rows_getitem_mask. unfold field. by rewrite Hc.
Qed.

Lemma selected_Raise (d : DataFrame) (col v : string) :
  ¬ has_column d col → selected d col v = Raise (KeyError col).
Proof.
  intros Hc. unfold selected, getitem.
  destruct (col_find d col) as [[i t]|] eqn:Hf; [|done].
  destruct Hc. by eexists.
Qed.

Lemma same_columns_field (d d' : DataFrame) :
  columns d' = columns d →
  col_find d' = col_find d ∧ field d' = field d.
Proof.
  intros Hc. assert (col_find d' = col_find d) as Hf.
  { unfold col_find. by rewrite Hc. }
  split; [done|]. unfold field. by rewrite Hf.
Qed.

(** Selecting again with the same value changes nothing. *)
Lemma selected_idemp (d d' : DataFrame) (col v : string) :
  selected d col v = Ok d' → selected d' col v = Ok d'.
Proof.
  intros Hs. destruct (col_find d col) as [[i t]|] eqn:Hc.
  - destruct (selected_Ok d col v) as (d1&Hs1&Hcols&Hrows); [by eexists|].
    rewrite Hs in Hs1. injection Hs1 as <-.
    destruct (same_columns_field d d' Hcols) as [Hf Hfield].
    destruct (selected_Ok d' col v) as (d2&Hs2&Hcols2&Hrows2).
    { unfold has_column. rewrite Hf, Hc. by eexists. }
    rewrite Hs2. f_equal. destruct d2 as [c2 r2], d' as [c' r'].
    simpl in *. subst c2. f_equal. rewrite Hrows2, Hfield, Hrows.
    rewrite list_filter_filter. apply list_filter_iff. tauto.
  - unfold selected, getitem in Hs. by rewrite Hc in Hs.
Qed.

Lemma agg_Num_or_NaN (f : aggfunc) (vs : list cell) :
  agg f vs = NaN ∨ ∃ q, agg f vs = Num q.
Proof. unfold agg. destruct f, (observed vs); eauto. Qed.

Lemma pivot_data_shape (p : PivotTable) (h : cell → cell → cell) :
  data p = (λ i, (λ c, h i c) <$> pcolumns p) <$> index p →
  length (data p) = length (index p)
  ∧ Forall (λ row, length row = length (pcolumns p)) (data p).
Proof.
  intros ->. split; [by rewrite length_fmap|].
  apply Forall_fmap, Forall_forall. intros i _. simpl. by rewrite length_fmap.
Qed.

(** ** The land-cover difference pivot *)

(** C1, as amended.  On a frame with the columns Feature_Name, Year,
    Landcover_Class and a numeric diff_dev, the pivot of [make_lcc_plot]
    for a region returns a table with exactly one row per distinct Year
    and one column per distinct Landcover_Class found among the region's
    rows that have a year, a class and a diff_dev value; the table is
    rectangular, every cell is a number, and a cell no such row stands
    behind is the fill value 0. *)
Theorem make_lcc_plot_frame_shape (s : State) (df : addr) (d : DataFrame)
    (name : string) :
  heap s !! df = Some d →
  has_column d "Feature_Name" → has_column d "Year" →
  has_column d "Landcover_Class" → numeric_column d "diff_dev" →
  ∃ p s', make_lcc_plot_frame df name s = (Ok p, s')
    ∧ NoDup (index p) ∧ NoDup (pcolumns p)
    ∧ (∀ y, y ∈ index p ↔
         ∃ r, r ∈ rows d ∧ lcc_observed d "diff_dev" name r
              ∧ field d "Year" r = y)
    ∧ (∀ c, c ∈ pcolumns p ↔
         ∃ r, r ∈ rows d ∧ lcc_observed d "diff_dev" name r
              ∧ field d "Landcover_Class" r = c)
    ∧ length (data p) = length (index p)
    ∧ Forall (λ row, length row = length (pcolumns p)) (data p)
    ∧ (∀ y c, y ∈ index p → c ∈ pcolumns p →
         ∃ q, loc p y c = Some (Num q)
              ∧ ((¬ ∃ r, r ∈ rows d ∧ lcc_observed d "diff_dev" name r
                         ∧ field d "Year" r = y
                         ∧ field d "Landcover_Class" r = c) → q = 0%Qc)).
Proof.
  intros Hd HF HY HC HV. unfold make_lcc_plot_frame.
  rewrite (pivot_frame_run _ _ _ _ _ _ _ _ _ _ Hd).
  destruct (selected_Ok d "Feature_Name" name HF) as (d'&->&Hcols&Hrows).
  destruct (same_columns_field d d' Hcols) as [Hf Hfield].
  rewrite pivot_table_Ok; unfold has_column, numeric_column;
    rewrite ?Hf; [|done..].
  set (rs := recs d' "Year" "Landcover_Class" "diff_dev").
  set (ag := dropna_all (groupby_agg AggMean rs)).
  assert (∀ y c, (y, c) ∈ ag.*1 ↔
            ∃ r, r ∈ rows d ∧ lcc_observed d "diff_dev" name r
                 ∧ field d "Year" r = y ∧ field d "Landcover_Class" r = c)
    as Hkey.
  { intros y c. unfold ag, rs. rewrite agged_mean_key.
    unfold lcc_observed, lcc_grouped. setoid_rewrite elem_of_recs.
    rewrite Hfield, Hrows. setoid_rewrite list_elem_of_filter. simpl. split.
    - intros (q&?&?&r&[??]&<-&<-&Hq). exists r. by rewrite Hq.
    - intros (r&?&((?&?&?)&Hn)&<-&<-).
      destruct (field d "diff_dev" r) as [|q|] eqn:Hq; [done| |done].
      exists q. eauto 10. }
  eexists _, _. split; [done|]. cbn [index pcolumns data].
  split; [apply NoDup_sort_keys, NoDup_unique|].
  split; [apply NoDup_sort_keys, NoDup_unique|].
  split.
  { intros y. rewrite elem_of_pivot_index. setoid_rewrite Hkey. naive_solver. }
  split.
  { intros c. rewrite elem_of_pivot_columns. setoid_rewrite Hkey.
    naive_solver. }
  split; [by rewrite length_fmap|].
  split.
  { apply Forall_fmap, Forall_forall. intros i _. simpl.
    by rewrite length_fmap. }
  intros y c Hy Hc.
  rewrite (loc_unstack _ (unstack_cell ag (Some 0%Qc))); [|done..].
  unfold ag at 1. rewrite unstack_cell_agged.
  case_decide as Hdec.
  - destruct (agg_Num_or_NaN AggMean (group rs (y, c))) as [Hn|[q Hq]];
      [by destruct Hdec|].
    exists q. split; [by rewrite Hq|]. intros Hno. destruct Hno.
    apply Hkey. by apply elem_of_agged_keys.
  - exists 0%Qc. done.
Qed.

(** The hypotheses of the shape theorem hold for King in the sample
    table. *)
Lemma make_lcc_plot_frame_shape_witness :
  heap (store [counties]) !! 0 = Some counties
  ∧ has_column counties "Feature_Name" ∧ has_column counties "Year"
  ∧ has_column counties "Landcover_Class"
  ∧ numeric_column counties "diff_dev"
  ∧ ∃ p s', make_lcc_plot_frame 0 "King" (store [counties]) = (Ok p, s')
            ∧ NoDup (index p) ∧ NoDup (pcolumns p)
            ∧ length (data p) = length (index p).
Proof.
  assert (heap (store [counties]) !! 0 = Some counties) as H0 by reflexivity.
  assert (has_column counties "Feature_Name") as H1 by (by eexists).
  assert (has_column counties "Year") as H2 by (by eexists).
  assert (has_column counties "Landcover_Class") as H3 by (by eexists).
  assert (numeric_column counties "diff_dev") as H4 by (by eexists).
  repeat (split; [assumption|]).
  destruct (make_lcc_plot_frame_shape (store [counties]) 0 counties "King"
              H0 H1 H2 H3 H4) as (p&s'&Hrun&Hi&Hc&_&_&Hl&_).
  by exists p, s'.
Defined.

(** Against C1 as written (one row per Year and one column per
    Landcover_Class present in the filtered rows): King has a row for 2020
    and Agriculture, but its diff_dev is missing, and the pivot has neither
    a row for 2020 nor a column for Agriculture. *)
Lemma make_lcc_plot_frame_year_counterexample :
  ∃ p s', make_lcc_plot_frame 0 "King" (store [counties]) = (Ok p, s')
    ∧ (∃ r, r ∈ rows counties
            ∧ field counties "Feature_Name" r = Str "King"
            ∧ field counties "Year" r = int 2020
            ∧ field counties "Landcover_Class" r = Str "Agriculture")
    ∧ index p = [int 2019]
    ∧ pcolumns p = [Str "Forest"; Str "Open Space"]
    ∧ (int 2020 ∉ index p)
    ∧ Str "Agriculture" ∉ pcolumns p.
Proof.
  eexists _, _. split; [reflexivity|]. split.
  - exists [Str "King"; int 2020; Str "Agriculture"; NaN; int 118].
    split; [|done]. do 2 right. left.
  - split_and!; apply (bool_decide_unpack _); by vm_compute.
Qed.

(** ** Bar heights *)

Lemma filter_fmap {A B : Type} (f : A → B) (P : B → Prop)
    `{∀ x, Decision (P x)} (l : list A) :
  filter P (f <$> l) = f <$> filter (λ x, P (f x)) l.
Proof.
  induction l as [|x l IH]; [done|].
  rewrite fmap_cons, !filter_cons, IH. by destruct (decide (P (f x))).
Qed.

Lemma Qsum_cons (x : Qc) (l : list Qc) : Qsum (x :: l) = (x + Qsum l)%Qc.
Proof. done. Qed.

Lemma Qsum_fmap_plus {A : Type} (a b : A → Qc) (l : list A) :
  Qsum ((λ c, a c + b c)%Qc <$> l) = (Qsum (a <$> l) + Qsum (b <$> l))%Qc.
Proof.
  induction l as [|x l IH]; [simpl; ring|].
  rewrite !fmap_cons, !Qsum_cons, IH. ring.
Qed.

Lemma Qsum_indicator (c' : cell) (q : Qc) (l : list cell) :
  NoDup l →
  Qsum ((λ c, if decide (c' = c) then q else 0%Qc) <$> l)
  = if decide (c' ∈ l) then q else 0%Qc.
Proof.
  induction 1 as [|x l Hx Hnd IH]; [done|].
  rewrite fmap_cons, Qsum_cons, IH.
  destruct (decide (c' = x)) as [->|Hne].
  - rewrite decide_False by done. rewrite decide_True by left. ring.
  - destruct (decide (c' ∈ l)) as [Hin|Hin].
    + rewrite decide_True by (by right). ring.
    + rewrite decide_False; [ring|]. rewrite elem_of_cons. tauto.
Qed.

Lemma Qsum_observed_cons (v : cell) (vs : list cell) :
  Qsum (observed (v :: vs)) = (obs v + Qsum (observed vs))%Qc.
Proof. destruct v; simpl; ring. Qed.

(** Adding up a row of group sums over the column labels adds up every
    observed value of that year once, provided each such value has its
    class among the labels. *)
Lemma Qsum_groups (rs : list (key * cell)) (y : cell) (cols : list cell) :
  NoDup cols →
  (∀ c v, ((y, c), v) ∈ rs → is_num v → c ∈ cols) →
  Qsum ((λ c, Qsum (observed (group rs (y, c)))) <$> cols)
  = Qsum (observed (snd <$> filter (λ r, r.1.1 = y) rs)).
Proof.
  intros Hnd. induction rs as [|[[y' c'] v] rs IH]; intros Hcov.
  - simpl. clear Hnd Hcov. induction cols as [|c cols IHc]; [done|].
    rewrite fmap_cons, Qsum_cons, IHc. simpl. ring.
  - assert (∀ c, Qsum (observed (group (((y', c'), v) :: rs) (y, c)))
               = ((if decide (c' = c) then if decide (y' = y) then obs v
                                           else 0 else 0)
                  + Qsum (observed (group rs (y, c))))%Qc) as Hg.
    { intros c. unfold group. rewrite filter_cons. cbn [fst].
      destruct (decide ((y', c') = (y, c))) as [[= -> ->]|Hne].
      - rewrite !decide_True by done. rewrite fmap_cons.
        apply Qsum_observed_cons.
      - destruct (decide (c' = c)) as [->|]; [|ring].
        destruct (decide (y' = y)) as [->|]; [done|ring]. }
    rewrite (list_fmap_ext _ _ cols (λ _ c _, Hg c)).
    rewrite (Qsum_fmap_plus
               (λ c, if decide (c' = c) then if decide (y' = y) then obs v
                                             else 0%Qc else 0%Qc)).
    rewrite Qsum_indicator by done. rewrite IH.
    2: { intros c w Hin. apply Hcov. by right. }
    rewrite filter_cons. simpl. destruct (decide (y' = y)) as [->|Hy].
    + rewrite fmap_cons, Qsum_observed_cons. simpl. f_equal.
      destruct (decide (c' ∈ cols)) as [Hin|Hin]; [done|].
      destruct v as [|q|]; [done| |done]. destruct Hin.
      apply (Hcov c' (Num q)); [left|done].
    + destruct (decide (c' ∈ cols)); ring.
Qed.

Lemma group_nil (rs : list (key * cell)) (k : key) :
  k ∉ rs.*1 → group rs k = [].
Proof.
  intros Hk. unfold group.
  destruct (filter (λ r, r.1 = k) rs) as [|r l] eqn:Hf; [done|].
  destruct Hk. assert (r ∈ filter (λ r, r.1 = k) rs) as Hr by (rewrite Hf; left).
  apply list_elem_of_filter in Hr as [<- Hr]. by apply list_elem_of_fmap_2.
Qed.

Lemma unstack_sum (rs : list (key * cell)) (i c : cell) :
  unstack_cell (dropna_all (groupby_agg AggSum rs)) (Some 0%Qc) i c
  = Num (Qsum (observed (group rs (i, c)))).
Proof.
  rewrite unstack_cell_agged. case_decide as Hdec; [done|].
  rewrite group_nil; [done|]. intros Hk. apply Hdec. by rewrite agg_sum_Num.
Qed.

Lemma observed_group_nil (rs : list (key * cell)) (k : key) :
  k ∉ (filter (λ r, is_num r.2) rs).*1 → observed (group rs k) = [].
Proof.
  intros Hk. apply observed_nil. intros q Hq. apply elem_of_group in Hq.
  apply Hk, list_elem_of_fmap. exists (k, Num q). split; [done|].
  by apply list_elem_of_filter.
Qed.

Lemma observed_group_length (rs : list (key * cell)) (k : key) :
  NoDup (filter (λ r, is_num r.2) rs).*1 →
  (length (observed (group rs k)) ≤ 1)%nat.
Proof.
  induction rs as [|[k' v] rs IH]; [simpl; lia|].
  rewrite filter_cons. cbn [snd]. unfold group. rewrite filter_cons. cbn [fst].
  destruct (decide (is_num v)) as [Hv|Hv].
  - rewrite fmap_cons, list.NoDup_cons. cbn [fst]. intros [Hk' Hnd].
    destruct (decide (k' = k)) as [->|]; [|by apply IH].
    destruct v as [|q|]; [done| |done].
    change (observed (((k, Num q) :: filter (λ r, r.1 = k) rs).*2))
      with (q :: observed (group rs k)).
    rewrite (observed_group_nil _ _ Hk'). simpl. lia.
  - intros Hnd. destruct (decide (k' = k)) as [->|]; [|by apply IH].
    destruct v as [|q|]; [|by destruct Hv|]; by apply IH.
Qed.

Lemma unstack_mean (rs : list (key * cell)) (i c : cell) :
  (length (observed (group rs (i, c))) ≤ 1)%nat →
  unstack_cell (dropna_all (groupby_agg AggMean rs)) (Some 0%Qc) i c
  = Num (Qsum (observed (group rs (i, c)))).
Proof.
  intros Hlen. rewrite unstack_cell_agged.
  destruct (observed (group rs (i, c))) as [|q [|q' os]] eqn:Hobs.
  - rewrite decide_False; [done|]. intros [_ Hna]. by apply Hna, agg_mean_NaN.
  - rewrite (agg_mean_singleton _ q Hobs).
    rewrite decide_True.
    + simpl. f_equal. ring.
    + split; [|done]. destruct (decide ((i, c) ∈ rs.*1)) as [|Hk]; [done|].
      apply group_nil in Hk. by rewrite Hk in Hobs.
  - simpl in Hlen. lia.
Qed.

(** The height of the bar of year [y] in a pivot whose cells are the group
    sums of the records [rs]. *)
Lemma row_total_groups (p : PivotTable) (rs : list (key * cell)) (y : cell) :
  data p = (λ i, (λ c, Num (Qsum (observed (group rs (i, c)))))
                 <$> pcolumns p) <$> index p →
  NoDup (pcolumns p) →
  (∀ c v, ((y, c), v) ∈ rs → is_num v → c ∈ pcolumns p) →
  y ∈ index p →
  row_total p y
  = Some (Qsum (observed (snd <$> filter (λ r, r.1.1 = y) rs))).
Proof.
  intros Hd Hnd Hcov Hy.
  rewrite (row_total_unstack p (λ i c, Qsum (observed (group rs (i, c)))))
    by done.
  by rewrite Qsum_groups.
Qed.

(** The records of a selection, read off the frame it was selected from. *)
Section selection_records.

Context (d d' : DataFrame) (name value : string).
Context (Hcols : columns d' = columns d).
Context (Hrows : rows d' = filter (λ r, field d "Feature_Name" r = Str name)
                             (rows d)).

Lemma recs_year_values (y : cell) :
  observed (snd <$> filter (λ r, r.1.1 = y)
                      (recs d' "Year" "Landcover_Class" value))
  = lcc_year_values d value name y.
Proof.
  unfold recs, dropna_keys, lcc_year_values, lcc_grouped.
  destruct (same_columns_field d d' Hcols) as [_ ->]. rewrite Hrows.
  rewrite list_filter_filter, filter_fmap, list_filter_filter.
  rewrite <-list_fmap_compose. f_equal.
  erewrite list_filter_iff; [done|]. intros r. simpl. tauto.
Qed.

Lemma recs_observed_keys :
  (filter (λ r, is_num r.2) (recs d' "Year" "Landcover_Class" value)).*1
  = lcc_observed_keys d value name.
Proof.
  unfold recs, dropna_keys, lcc_observed_keys, lcc_observed, lcc_grouped.
  destruct (same_columns_field d d' Hcols) as [_ ->]. rewrite Hrows.
  rewrite list_filter_filter, filter_fmap, list_filter_filter.
  rewrite <-list_fmap_compose.
  erewrite list_filter_iff; [done|]. intros r. simpl. unfold lcc_observed, lcc_grouped. tauto.
Qed.

Lemma recs_index_not_NaN (f : aggfunc) (y : cell) :
  y ∈ sort_keys (unique (dropna_all (groupby_agg f
        (recs d' "Year" "Landcover_Class" value))).*1.*1) →
  y ≠ NaN.
Proof.
  rewrite elem_of_pivot_index. intros (c&Hk).
  rewrite elem_of_agged_keys in Hk. destruct Hk as [Hk _].
  rewrite list_elem_of_fmap in Hk. destruct Hk as ([k v]&Hkv&Hin).
  simpl in Hkv. subst k. rewrite elem_of_recs in Hin. simpl in Hin. tauto.
Qed.

End selection_records.

(** Pivoting the selection again, from the object the first run stored. *)
Lemma pivot_frame_rerun (s : State) (df : addr) (d d' : DataFrame)
    (col v ix cl vl : string) (f : aggfunc) (fill_value : option Qc) :
  heap s !! df = Some d → selected d col v = Ok d' →
  (df' ← select_rows (length (heap s)) col v;
   d'' ← deref df';
   lift (pivot_table d'' ix cl vl f fill_value)) (alloc d' s).2
  = (pivot_table d' ix cl vl f fill_value, (alloc d' (alloc d' s).2).2).
Proof.
  intros Hd Hsel.
  rewrite (pivot_frame_run _ _ d'); [|apply lookup_alloc].
  by rewrite (selected_idemp _ _ _ _ Hsel).
Qed.

Lemma lcc_pivot_totals (f : aggfunc) (d d' : DataFrame) (name value : string)
    (p : PivotTable) (y : cell) :
  columns d' = columns d →
  rows d' = filter (λ r, field d "Feature_Name" r = Str name) (rows d) →
  has_column d "Year" → has_column d "Landcover_Class" →
  numeric_column d value →
  f = AggSum ∨ f = AggMean ∧ NoDup (lcc_observed_keys d value name) →
  pivot_table d' "Year" "Landcover_Class" value f (Some 0%Qc) = Ok p →
  y ∈ index p →
  row_total p y = Some (Qsum (lcc_year_values d value name y)).
Proof.
  intros Hcols Hrows HY HC HV Hf Hp Hy.
  destruct (same_columns_field d d' Hcols) as [Hfind _].
  rewrite pivot_table_Ok in Hp; unfold has_column, numeric_column;
    rewrite ?Hfind; [|done..].
  injection Hp as <-. cbn [index] in Hy.
  set (rs := recs d' "Year" "Landcover_Class" value) in *.
  rewrite <-(recs_year_values d d' name value Hcols Hrows). fold rs.
  apply row_total_groups; cbn [index pcolumns data]; [| |..|done].
  - apply list_fmap_ext. intros _ i _. apply list_fmap_ext. intros _ c _.
    destruct Hf as [->|[-> Hnd]]; [apply unstack_sum|].
    apply unstack_mean, observed_group_length.
    unfold rs. by rewrite (recs_observed_keys d d' name value Hcols Hrows).
  - apply NoDup_sort_keys, NoDup_unique.
  - intros c v Hin Hv. apply elem_of_pivot_columns. exists y.
    destruct Hf as [->|[-> _]].
    + apply agged_sum_key, list_elem_of_fmap. by exists ((y, c), v).
    + apply agged_mean_key. destruct v as [|q|]; [done| |done]. by exists q.
Qed.




(** ** Frame properties: the store only grows *)

Create HintDb frame discriminated.

Section frame_rules.

Context {A B : Type}.

Lemma grows_ret (a : A) : grows (mret a).
Proof. by intros s. Qed.

Lemma grows_bind (m : M A) (k : A → M B) :
  grows m → (∀ a, grows (k a)) → grows (m ≫= k).
Proof.
  intros Hm Hk s. rewrite bind_run. specialize (Hm s).
  destruct (m s) as [[a|e] s1]; [|done].
  etrans; [apply Hm|apply Hk].
Qed.

Lemma grows_lift (r : Result A) : grows (lift r).
Proof. by intros s. Qed.

Lemma quiet_ret (a : A) : quiet (mret a).
Proof. by intros s. Qed.

Lemma quiet_bind (m : M A) (k : A → M B) :
  quiet m → (∀ a, quiet (k a)) → quiet (m ≫= k).
Proof.
  intros Hm Hk s. rewrite bind_run. specialize (Hm s).
  destruct (m s) as [[a|e] s1]; [|done].
  destruct Hm as [<- <-]. apply Hk.
Qed.

Lemma quiet_lift (r : Result A) : quiet (lift r).
Proof. by intros s. Qed.

End frame_rules.

Lemma grows_deref (a : addr) : grows (deref a).
Proof. by intros s. Qed.
Lemma grows_alloc (d : DataFrame) : grows (alloc d).
Proof. intros s. by apply prefix_app_r. Qed.
Lemma grows_enter (f : string) : grows (enter f).
Proof. by intros s. Qed.
Lemma grows_log_fetch (url : string) : grows (log_fetch url).
Proof. by intros s. Qed.
Lemma grows_set_cache (c : list (string * addr)) : grows (set_cache c).
Proof. by intros s. Qed.
Lemma grows_get_cache : grows get_cache.
Proof. by intros s. Qed.

Lemma quiet_deref (a : addr) : quiet (deref a).
Proof. by intros s. Qed.
Lemma quiet_alloc (d : DataFrame) : quiet (alloc d).
Proof. by intros s. Qed.
Lemma quiet_enter (f : string) : quiet (enter f).
Proof. by intros s. Qed.

#[local] Hint Resolve grows_ret grows_lift grows_deref grows_alloc grows_enter
  grows_log_fetch grows_set_cache grows_get_cache
  quiet_ret quiet_lift quiet_deref quiet_alloc quiet_enter : frame.

(** Walks a computation along its binds and branches. *)
Ltac frame_step :=
  first
    [ apply grows_bind; [|intros ?]
    | apply quiet_bind; [|intros ?]
    | solve [eauto with frame]
    | match goal with
      | |- context [decide ?P] => destruct (decide P)
      | |- context [match ?x with _ => _ end] => destruct x
      end ].
Ltac frame := repeat frame_step.

Lemma grows_select_rows (df : addr) (col v : string) :
  grows (select_rows df col v).
Proof. unfold select_rows. frame. Qed.

Lemma quiet_select_rows (df : addr) (col v : string) :
  quiet (select_rows df col v).
Proof. unfold select_rows. frame. Qed.

#[local] Hint Resolve grows_select_rows quiet_select_rows : frame.

Lemma grows_read_csv_url (W : World) (url : string) : grows (read_csv_url W url).
Proof. unfold read_csv_url. frame. Qed.

#[local] Hint Resolve grows_read_csv_url : frame.

Lemma grows_load_lcc_dataset (W : World) (name : string) :
  grows (load_lcc_dataset W name).
Proof. unfold load_lcc_dataset, lru_cache. frame. Qed.

#[local] Hint Resolve grows_load_lcc_dataset : frame.

Lemma grows_lookup {A : Type} (m : M A) (s : State) (a : addr) (d : DataFrame) :
  grows m → heap s !! a = Some d → heap (m s).2 !! a = Some d.
Proof.
  intros Hm Ha. destruct (Hm s) as [new ->]. by apply lookup_app_l_Some.
Qed.

(** The outcome of a pivot step is a function of the frame stored at [df]. *)
Lemma pivot_frame_result (s : State) (df : addr)
    (col v ix cl vl : string) (f : aggfunc) (fill_value : option Qc) :
  ((df' ← select_rows df col v;
    d' ← deref df';
    lift (pivot_table d' ix cl vl f fill_value)) s).1
  = match heap s !! df with
    | Some d => d' ← selected d col v; pivot_table d' ix cl vl f fill_value
    | None => Raise SystemError
    end.
Proof.
  destruct (heap s !! df) as [d|] eqn:Hd.
  - rewrite (pivot_frame_run _ _ _ _ _ _ _ _ _ _ Hd).
    by destruct (selected d col v).
  - rewrite bind_run. unfold select_rows. rewrite bind_run. unfold deref.
    by rewrite Hd.
Qed.

Lemma pivot_frame_grows (df : addr)
    (col v ix cl vl : string) (f : aggfunc) (fill_value : option Qc) :
  grows (df' ← select_rows df col v;
         d' ← deref df';
         lift (pivot_table d' ix cl vl f fill_value)).
Proof. frame. Qed.

Lemma pivot_frame_quiet (df : addr)
    (col v ix cl vl : string) (f : aggfunc) (fill_value : option Qc) :
  quiet (df' ← select_rows df col v;
         d' ← deref df';
         lift (pivot_table d' ix cl vl f fill_value)).
Proof. frame. Qed.

(** Running a pivot step again, after itself, gives the same outcome. *)
Lemma pivot_frame_again (s : State) (df : addr)
    (col v ix cl vl : string) (f : aggfunc) (fill_value : option Qc) :
  let step := (df' ← select_rows df col v;
               d' ← deref df';
               lift (pivot_table d' ix cl vl f fill_value)) in
  (step (step s).2).1 = (step s).1.
Proof.
  intros step. unfold step. rewrite !pivot_frame_result.
  destruct (heap s !! df) as [d|] eqn:Hd.
  - by rewrite (grows_lookup _ _ _ _ (pivot_frame_grows _ _ _ _ _ _ _ _) Hd).
  - rewrite bind_run. unfold select_rows. rewrite bind_run. unfold deref.
    rewrite Hd. simpl. by rewrite Hd.
Qed.

(** C5.  The derived-frame steps are deterministic: evaluating the pivot of
    [make_lcc_plot], of [make_lcc_area_plot] or of [make_velma_plot] a
    second time, in the state the first evaluation left, has the same
    outcome (the same table, or the same exception); and a second
    evaluation of the group-and-aggregate step of [hydro_summary] raises
    the same exception or returns a new object holding a frame equal to the
    first one. *)
Theorem derived_frames_deterministic (s : State) (df : addr)
    (region watershed var : string) :
  (make_lcc_plot_frame df region (make_lcc_plot_frame df region s).2).1
  = (make_lcc_plot_frame df region s).1
  ∧ (make_lcc_area_plot_frame df region
       (make_lcc_area_plot_frame df region s).2).1
    = (make_lcc_area_plot_frame df region s).1
  ∧ (make_velma_plot_frame df watershed var
       (make_velma_plot_frame df watershed var s).2).1
    = (make_velma_plot_frame df watershed var s).1
  ∧ match hydro_summary_frame df var s with
    | (Ok a1, s1) =>
        ∃ a2 s2 summary,
          hydro_summary_frame df var s1 = (Ok a2, s2)
          ∧ heap s1 !! a1 = Some summary ∧ heap s2 !! a2 = Some summary
    | (Raise e, s1) => (hydro_summary_frame df var s1).1 = Raise e
    end.
Proof.
  split; [apply pivot_frame_again|].
  split; [apply pivot_frame_again|].
  split; [apply pivot_frame_again|].
  destruct (heap s !! df) as [d|] eqn:Hd.
  - rewrite (hydro_summary_frame_run _ _ _ _ Hd).
    destruct (groupby_agg_reset d "Year" var _) as [summary|e] eqn:Hsum.
    + change (alloc summary s) with (Ok (length (heap s)), (alloc summary s).2).
      cbv beta iota. eexists _, _, summary.
      rewrite (hydro_summary_frame_run _ _ d), Hsum.
      * split; [done|]. split; apply lookup_alloc.
      * simpl. by apply lookup_app_l_Some.
    + by rewrite (hydro_summary_frame_run _ _ _ _ Hd), Hsum.
  - unfold hydro_summary_frame. rewrite !bind_run. unfold deref.
    rewrite Hd. simpl. rewrite bind_run. simpl. by rewrite Hd.
Qed.

Lemma stateless_ret {A : Type} (a : A) : stateless (mret a).
Proof. by intros s1 s2. Qed.

Lemma stateless_lift {A : Type} (r : Result A) : stateless (lift r).
Proof. by intros s1 s2. Qed.

Lemma result_bind {A B : Type} (m : M A) (k : A → M B) (s1 s2 : State) :
  (m s1).1 = (m s2).1 → (∀ a, stateless (k a)) →
  ((m ≫= k) s1).1 = ((m ≫= k) s2).1.
Proof.
  intros Hm Hk. rewrite !bind_run.
  destruct (m s1) as [[a1|e1] t1], (m s2) as [[a2|e2] t2];
    simpl in Hm; simplify_eq; [apply Hk|done].
Qed.

Lemma stateless_bind {A B : Type} (m : M A) (k : A → M B) :
  stateless m → (∀ a, stateless (k a)) → stateless (m ≫= k).
Proof. intros Hm Hk s1 s2. by apply result_bind. Qed.

Lemma result_enter {A : Type} (f : string) (m : M A) (s1 s2 : State) :
  (∀ t1 t2, heap t1 = heap s1 → heap t2 = heap s2 → (m t1).1 = (m t2).1) →
  ((enter f;; m) s1).1 = ((enter f;; m) s2).1.
Proof. intros Hm. rewrite !bind_run. simpl. by apply Hm. Qed.

Lemma pivot_frame_pure (s1 s2 : State) (df : addr)
    (col v ix cl vl : string) (f : aggfunc) (fill_value : option Qc) :
  heap s1 !! df = heap s2 !! df →
  let step := (df' ← select_rows df col v;
               d' ← deref df';
               lift (pivot_table d' ix cl vl f fill_value)) in
  (step s1).1 = (step s2).1.
Proof. intros Hdf step. unfold step. by rewrite !pivot_frame_result, Hdf. Qed.

Lemma hydro_summary_frame_returned (s : State) (df : addr) (var : string) :
  returned (hydro_summary_frame df var s)
  = match heap s !! df with
    | Some d => groupby_agg_reset d "Year" var
                  [("min", AggMin); ("max", AggMax); ("mean", AggMean)]
    | None => Raise SystemError
    end.
Proof.
  destruct (heap s !! df) as [d|] eqn:Hd.
  - rewrite (hydro_summary_frame_run _ _ _ _ Hd).
    destruct (groupby_agg_reset d "Year" var _) as [summary|e]; [|done].
    change (alloc summary s) with (Ok (length (heap s)), (alloc summary s).2).
    unfold returned. by rewrite lookup_alloc.
  - unfold hydro_summary_frame. rewrite bind_run. unfold deref. by rewrite Hd.
Qed.

Lemma grows_hydro_summary_frame (df : addr) (var : string) :
  grows (hydro_summary_frame df var).
Proof. unfold hydro_summary_frame. frame. Qed.

Lemma quiet_hydro_summary_frame (df : addr) (var : string) :
  quiet (hydro_summary_frame df var).
Proof. unfold hydro_summary_frame. frame. Qed.

#[local] Hint Resolve pivot_frame_grows pivot_frame_quiet
  grows_hydro_summary_frame quiet_hydro_summary_frame : frame.

(** C7.  No derived-frame computation changes an object of the store:
    after [make_lcc_plot], [make_lcc_area_plot], [make_velma_plot], the
    aggregation of [hydro_summary] and the outputs built on them, every
    frame stored before is stored unchanged at the same address (the
    computations only add objects), the plot helpers leave the cache and
    the fetch log alone, and what they return is a function of the frame
    passed in and the selection. *)
Theorem derived_frames_preserve_source (W : World) (input : Input)
    (df : addr) (region watershed var : string) :
  (grows (make_lcc_plot df region) ∧ quiet (make_lcc_plot df region))
  ∧ (grows (make_lcc_area_plot df region)
     ∧ quiet (make_lcc_area_plot df region))
  ∧ (grows (make_velma_plot df watershed var)
     ∧ quiet (make_velma_plot df watershed var))
  ∧ (grows (hydro_summary_frame df var) ∧ quiet (hydro_summary_frame df var))
  ∧ grows (hydro_summary W input)
  ∧ grows (plot_lcc W input) ∧ grows (plot_lcc_area W input)
  ∧ grows (timeseries_plot W input)
  ∧ ∀ s1 s2, heap s1 !! df = heap s2 !! df →
      (make_lcc_plot df region s1).1 = (make_lcc_plot df region s2).1
      ∧ (make_lcc_area_plot df region s1).1
        = (make_lcc_area_plot df region s2).1
      ∧ (make_velma_plot df watershed var s1).1
        = (make_velma_plot df watershed var s2).1
      ∧ returned (hydro_summary_frame df var s1)
        = returned (hydro_summary_frame df var s2).
Proof.
  assert (∀ df region, grows (make_lcc_plot df region)) as Hg1.
  { intros. unfold make_lcc_plot, make_lcc_plot_frame. frame. }
  assert (∀ df region, grows (make_lcc_area_plot df region)) as Hg2.
  { intros. unfold make_lcc_area_plot, make_lcc_area_plot_frame. frame. }
  assert (grows (hydro_summary W input)) as Hg3.
  { unfold hydro_summary, hydro_data. frame. }
  split_and!; [..|intros s1 s2 Hdf; split_and!].
  - apply Hg1.
  - unfold make_lcc_plot, make_lcc_plot_frame. frame.
  - apply Hg2.
  - unfold make_lcc_area_plot, make_lcc_area_plot_frame. frame.
  - unfold make_velma_plot, make_velma_plot_frame. frame.
  - unfold make_velma_plot, make_velma_plot_frame. frame.
  - apply grows_hydro_summary_frame.
  - apply quiet_hydro_summary_frame.
  - apply Hg3.
  - unfold plot_lcc, selected_dataset, selected_region_type. frame.
  - unfold plot_lcc_area, selected_dataset, selected_region_type. frame.
  - unfold timeseries_plot. frame.
  - unfold make_lcc_plot, make_lcc_plot_frame. apply result_enter.
    intros t1 t2 H1 H2. apply result_bind.
    + apply pivot_frame_pure. by rewrite H1, H2, Hdf.
    + intros p. apply stateless_bind; [apply stateless_lift|].
      intros ax. apply stateless_ret.
  - unfold make_lcc_area_plot, make_lcc_area_plot_frame. apply result_enter.
    intros t1 t2 H1 H2. apply result_bind.
    + apply pivot_frame_pure. by rewrite H1, H2, Hdf.
    + intros p. apply stateless_bind; [apply stateless_lift|].
      intros ax. apply stateless_ret.
  - unfold make_velma_plot, make_velma_plot_frame. apply result_enter.
    intros t1 t2 H1 H2. apply result_bind.
    + apply pivot_frame_pure. by rewrite H1, H2, Hdf.
    + intros p. apply stateless_bind; [apply stateless_lift|].
      intros ax. apply stateless_ret.
  - rewrite !hydro_summary_frame_returned. by rewrite Hdf.
Qed.

(** ** The memoizing loader *)

Lemma cache_get_Some (k : string) (c : list (string * addr)) (a : addr) :
  cache_get k c = Some a → (k, a) ∈ c.
Proof.
  induction c as [|[k' a'] c IH]; simpl; [done|].
  case_decide as Hk; [intros [= ->]; subst; left|]. intros. right. by apply IH.
Qed.

Lemma cache_get_None (k : string) (c : list (string * addr)) :
  cache_get k c = None ↔ k ∉ c.*1.
Proof.
  induction c as [|[k' a'] c IH]; simpl.
  - split; [intros _ []%elem_of_nil|done].
  - rewrite not_elem_of_cons. case_decide as Hk; [naive_solver|].
    rewrite IH. naive_solver.
Qed.

Lemma cache_get_del_ne (k k' : string) (c : list (string * addr)) :
  k ≠ k' → cache_get k (cache_del k' c) = cache_get k c.
Proof.
  intros Hne. unfold cache_del.
  induction c as [|[k1 a1] c IH]; [done|].
  rewrite filter_cons. cbn [fst cache_get].
  destruct (decide (k1 ≠ k')) as [H1|H1].
  - cbn [cache_get]. by rewrite IH.
  - rewrite IH. apply dec_stable in H1. subst k1.
    by rewrite decide_False by done.
Qed.

Lemma cache_del_keys (k : string) (c : list (string * addr)) :
  (cache_del k c).*1 = filter (λ k', k' ≠ k) c.*1.
Proof. unfold cache_del. by rewrite filter_fmap. Qed.

Lemma dict_get_Ok_key {V : Type} (d : list (string * V)) (k : string) (v : V) :
  dict_get d k = Ok v → k ∈ dict_keys d.
Proof.
  unfold dict_keys. induction d as [|[k' v'] d IH]; simpl; [done|].
  case_decide; [intros _; subst; left|]. intros. right. by apply IH.
Qed.

Lemma cache_inv_length (s : State) :
  cache_inv s → (length (cache s) ≤ 3)%nat.
Proof.
  intros (Hnd&Hreg&_). rewrite <-(length_fmap fst).
  change 3%nat with (length (dict_keys lcc_data)).
  apply submseteq_length, NoDup_submseteq; done.
Qed.

Section loader.

Context (W : World).

(** A hit: the stored object is returned and its entry becomes the most
    recent; nothing is fetched and the body is not entered. *)
Lemma load_hit (s : State) (name : string) (a : addr) :
  cache_get name (cache s) = Some a →
  ∃ s', load_lcc_dataset W name s = (Ok a, s')
        ∧ heap s' = heap s ∧ fetches s' = fetches s ∧ calls s' = calls s
        ∧ cache s' = (name, a) :: cache_del name (cache s).
Proof.
  intros Hc. unfold load_lcc_dataset, lru_cache.
  rewrite bind_run. cbn [get_cache]. rewrite Hc. eexists. split; done.
Qed.

(** A miss on a name outside the registry: KeyError, nothing fetched. *)
Lemma load_miss_KeyError (s : State) (name : string) (e : exn) :
  cache_get name (cache s) = None →
  dict_get lcc_data name = Raise e →
  ∃ s', load_lcc_dataset W name s = (Raise e, s')
        ∧ heap s' = heap s ∧ fetches s' = fetches s ∧ cache s' = cache s.
Proof.
  intros Hc Hd. unfold load_lcc_dataset, lru_cache.
  rewrite bind_run. cbn [get_cache]. rewrite Hc.
  rewrite !bind_run. cbn [enter lift]. rewrite Hd. eexists. split; done.
Qed.

(** A miss whose fetch fails: the exception of the read, one read logged,
    nothing stored. *)
Lemma load_miss_Raise (s : State) (name url : string) (e : exn) :
  cache_get name (cache s) = None →
  dict_get lcc_data name = Ok url →
  fetched W (length (fetches s)) url = Raise e →
  ∃ s', load_lcc_dataset W name s = (Raise e, s')
        ∧ heap s' = heap s ∧ fetches s' = fetches s ++ [url]
        ∧ cache s' = cache s.
Proof.
  intros Hc Hd Hf. unfold load_lcc_dataset, lru_cache.
  rewrite bind_run. cbn [get_cache]. rewrite Hc.
  rewrite !bind_run. cbn [enter lift]. rewrite Hd.
  unfold read_csv_url, mbind, M_bind.
  cbn [enter log_fetch lift fetches]. rewrite Hf. eexists. split; done.
Qed.

(** A miss whose fetch succeeds: the frame becomes a new object, stored as
    the most recent entry. *)
Lemma load_miss_Ok (s : State) (name url : string) (d : DataFrame) :
  cache_get name (cache s) = None →
  dict_get lcc_data name = Ok url →
  fetched W (length (fetches s)) url = Ok d →
  ∃ s', load_lcc_dataset W name s = (Ok (length (heap s)), s')
        ∧ heap s' = heap s ++ [d] ∧ fetches s' = fetches s ++ [url]
        ∧ cache s' = take 128 ((name, length (heap s)) :: cache s).
Proof.
  intros Hc Hd Hf. unfold load_lcc_dataset, lru_cache.
  rewrite bind_run. cbn [get_cache]. rewrite Hc.
  rewrite !bind_run. cbn [enter lift]. rewrite Hd.
  unfold read_csv_url, mbind, M_bind.
  cbn [enter log_fetch lift fetches]. rewrite Hf.
  cbn [alloc heap cache get_cache]. rewrite Hc.
  eexists. split; done.
Qed.

(** Every call falls under one of the four cases. *)
Lemma load_cases (s : State) (name : string) :
  (∃ a, cache_get name (cache s) = Some a)
  ∨ (cache_get name (cache s) = None
     ∧ ((∃ e, dict_get lcc_data name = Raise e)
        ∨ ∃ url, dict_get lcc_data name = Ok url
                 ∧ ((∃ e, fetched W (length (fetches s)) url = Raise e)
                    ∨ ∃ d, fetched W (length (fetches s)) url = Ok d))).
Proof.
  destruct (cache_get name (cache s)) as [a|]; [eauto|]. right. split; [done|].
  destruct (dict_get lcc_data name) as [url|e]; [|eauto]. right. exists url.
  split; [done|]. destruct (fetched W _ url); eauto.
Qed.

Lemma load_inv (s : State) (name : string) :
  cache_inv s → cache_inv (load_lcc_dataset W name s).2.
Proof.
  intros Hinv. pose proof Hinv as (Hnd&Hreg&Hval).
  destruct (load_cases s name) as
    [[a Hc]|[Hc [[e Hd]|(url&Hd&[[e Hf]|[d Hf]])]]].
  - destruct (load_hit s name a Hc) as (s'&->&Hh&_&_&Hc').
    unfold cache_inv. cbn [snd]. rewrite Hc', Hh.
    apply cache_get_Some in Hc. split_and!.
    + rewrite fmap_cons, cache_del_keys. apply NoDup_cons_2.
      * rewrite list_elem_of_filter. naive_solver.
      * by apply list.NoDup_filter.
    + intros k. rewrite fmap_cons, cache_del_keys, elem_of_cons,
        list_elem_of_filter. intros [->|[_ Hk]]; [|by apply Hreg].
      apply Hreg, list_elem_of_fmap. by exists (name, a).
    + intros k a'. rewrite elem_of_cons. unfold cache_del.
      rewrite list_elem_of_filter. intros [[= -> ->]|[_ Hk]]; eauto.
  - destruct (load_miss_KeyError s name e Hc Hd) as (s'&->&Hh&_&Hc').
    unfold cache_inv. cbn [snd]. by rewrite Hc', Hh.
  - destruct (load_miss_Raise s name url e Hc Hd Hf) as (s'&->&Hh&_&Hc').
    unfold cache_inv. cbn [snd]. by rewrite Hc', Hh.
  - destruct (load_miss_Ok s name url d Hc Hd Hf) as (s'&->&Hh&_&Hc').
    unfold cache_inv. cbn [snd]. rewrite Hc', Hh.
    rewrite take_ge by (rewrite length_cons;
      pose proof (cache_inv_length s Hinv); unfold addr in *; lia).
    split_and!.
    + rewrite fmap_cons. apply NoDup_cons_2; [|done]. by apply cache_get_None.
    + intros k. rewrite fmap_cons, elem_of_cons. intros [->|Hk]; [|by apply Hreg].
      by eapply dict_get_Ok_key.
    + intros k a'. rewrite elem_of_cons. intros [[= -> ->]|Hk].
      * rewrite lookup_app_r, Nat.sub_diag by done. by eexists.
      * destruct (Hval k a' Hk) as [d' Hd']. exists d'.
        by apply lookup_app_l_Some.
Qed.

(** No call evicts or redirects an entry: the registry has three names and
    the cache has room for 128. *)
Lemma load_keeps (s : State) (name k : string) (a : addr) :
  cache_inv s → cache_get k (cache s) = Some a →
  cache_get k (cache (load_lcc_dataset W name s).2) = Some a.
Proof.
  intros Hinv Hk.
  destruct (load_cases s name) as
    [[a' Hc]|[Hc [[e Hd]|(url&Hd&[[e Hf]|[d Hf]])]]].
  - destruct (load_hit s name a' Hc) as (s'&->&_&_&_&Hc').
    cbn [snd]. rewrite Hc'. cbn [cache_get].
    case_decide as Hn; [by subst; rewrite Hc in Hk|].
    by rewrite cache_get_del_ne.
  - destruct (load_miss_KeyError s name e Hc Hd) as (s'&->&_&_&Hc').
    cbn [snd]. by rewrite Hc'.
  - destruct (load_miss_Raise s name url e Hc Hd Hf) as (s'&->&_&_&Hc').
    cbn [snd]. by rewrite Hc'.
  - destruct (load_miss_Ok s name url d Hc Hd Hf) as (s'&->&_&_&Hc').
    cbn [snd]. rewrite Hc'.
    rewrite take_ge by (rewrite length_cons;
      pose proof (cache_inv_length s Hinv); unfold addr in *; lia).
    cbn [cache_get]. case_decide as Hn; [|done]. subst. by rewrite Hc in Hk.
Qed.

End loader.

Lemma load_Ok_cached (W : World) (s s1 : State) (name : string) (a : addr) :
  load_lcc_dataset W name s = (Ok a, s1) →
  cache_get name (cache s1) = Some a.
Proof.
  intros Hrun.
  destruct (load_cases W s name) as
    [[a' Hc]|[Hc [[e Hd]|(url&Hd&[[e Hf]|[d Hf]])]]].
  - destruct (load_hit W s name a' Hc) as (s'&Hrun'&_&_&_&Hc').
    rewrite Hrun in Hrun'. injection Hrun' as -> ->. rewrite Hc'.
    cbn [cache_get]. by rewrite decide_True.
  - destruct (load_miss_KeyError W s name e Hc Hd) as (s'&Hrun'&_).
    by rewrite Hrun in Hrun'.
  - destruct (load_miss_Raise W s name url e Hc Hd Hf) as (s'&Hrun'&_).
    by rewrite Hrun in Hrun'.
  - destruct (load_miss_Ok W s name url d Hc Hd Hf) as (s'&Hrun'&_&_&Hc').
    rewrite Hrun in Hrun'. injection Hrun' as -> ->. rewrite Hc'.
    cbn [take cache_get]. by rewrite decide_True.
Qed.

(** The registry maps distinct names to distinct URLs. *)
Lemma lcc_data_inj (n1 n2 url : string) :
  dict_get lcc_data n1 = Ok url → dict_get lcc_data n2 = Ok url → n1 = n2.
Proof.
  unfold lcc_data. cbn [dict_get]. intros H1 H2.
  repeat case_decide; simplify_eq; done.
Qed.

(** While a name is cached, no call of the loader reads its URL. *)
Lemma load_other_fetches (W : World) (s : State) (n name url : string)
    (a : addr) :
  cache_get name (cache s) = Some a → dict_get lcc_data name = Ok url →
  filter (λ u, u = url) (fetches (load_lcc_dataset W n s).2)
  = filter (λ u, u = url) (fetches s).
Proof.
  intros Hname Hurl.
  assert (∀ url', cache_get n (cache s) = None →
            dict_get lcc_data n = Ok url' →
            filter (λ u, u = url) (fetches s ++ [url'])
            = filter (λ u, u = url) (fetches s)) as Hother.
  { intros url' Hc Hd. rewrite list.filter_app, filter_cons, filter_nil.
    rewrite decide_False; [by rewrite app_nil_r|]. intros ->.
    rewrite (lcc_data_inj _ _ _ Hd Hurl) in Hc. by rewrite Hc in Hname. }
  destruct (load_cases W s n) as
    [[a' Hc]|[Hc [[e Hd]|(url'&Hd&[[e Hf]|[d Hf]])]]].
  - destruct (load_hit W s n a' Hc) as (s'&->&_&Hfs&_).
    cbn [snd]. by rewrite Hfs.
  - destruct (load_miss_KeyError W s n e Hc Hd) as (s'&->&_&Hfs&_).
    cbn [snd]. by rewrite Hfs.
  - destruct (load_miss_Raise W s n url' e Hc Hd Hf) as (s'&->&_&Hfs&_).
    cbn [snd]. rewrite Hfs. by apply Hother.
  - destruct (load_miss_Ok W s n url' d Hc Hd Hf) as (s'&->&_&Hfs&_).
    cbn [snd]. rewrite Hfs. by apply Hother.
Qed.

Lemma load_all_keeps (W : World) (names : list string) (s : State)
    (k : string) (a : addr) (d : DataFrame) :
  cache_inv s → cache_get k (cache s) = Some a → heap s !! a = Some d →
  cache_inv (load_all W names s)
  ∧ cache_get k (cache (load_all W names s)) = Some a
  ∧ heap (load_all W names s) !! a = Some d
  ∧ ∀ url, dict_get lcc_data k = Ok url →
      filter (λ u, u = url) (fetches (load_all W names s))
      = filter (λ u, u = url) (fetches s).
Proof.
  revert s. induction names as [|n names IH]; intros s Hinv Hk Ha; [done|].
  destruct (IH (load_lcc_dataset W n s).2) as (H1&H2&H3&H4).
  - by apply load_inv.
  - by apply load_keeps.
  - by apply grows_lookup; [apply grows_load_lcc_dataset|].
  - split_and!; [done..|]. intros url Hurl. cbn [load_all foldl].
    unfold load_all in H4. rewrite (H4 url Hurl).
    by apply (load_other_fetches W s n k url a).
Qed.

(** C3.  Once a call of [load_lcc_dataset] has returned an object for a
    name, every later call with that name, after any number of calls of the
    loader in between, returns the same object (the same address, holding
    the same frame) without reading anything: the fetch log, the store and
    the log of entered functions are as before the call, and the URL of the
    name has not been read since the first call returned. *)
Theorem load_lcc_dataset_memoized (W : World) (s s1 : State) (name : string)
    (a : addr) (others : list string) :
  cache_inv s →
  load_lcc_dataset W name s = (Ok a, s1) →
  ∃ s3 d,
    load_lcc_dataset W name (load_all W others s1) = (Ok a, s3)
    ∧ fetches s3 = fetches (load_all W others s1)
    ∧ heap s3 = heap (load_all W others s1)
    ∧ calls s3 = calls (load_all W others s1)
    ∧ heap s1 !! a = Some d ∧ heap s3 !! a = Some d
    ∧ ∀ url, dict_get lcc_data name = Ok url →
        filter (λ u, u = url) (fetches s3) = filter (λ u, u = url) (fetches s1).
Proof.
  intros Hinv Hrun.
  assert (cache_inv s1) as Hinv1.
  { pose proof (load_inv W s name Hinv) as H1. by rewrite Hrun in H1. }
  pose proof (load_Ok_cached W s s1 name a Hrun) as Hc1.
  destruct Hinv1 as (Hnd&Hreg&Hval).
  destruct (Hval name a (cache_get_Some _ _ _ Hc1)) as [d Hd].
  destruct (load_all_keeps W others s1 name a d) as (_&Hc2&Hd2&Hurl);
    [done..|].
  destruct (load_hit W _ name a Hc2) as (s3&Hrun3&Hh&Hf&Hcalls&_).
  exists s3, d. rewrite Hh, Hf. done.
Qed.

(** ** Failures of the loader *)

(** [selected_dataset] is a call of the loader, after two or three
    functions have been entered. *)
Lemma selected_dataset_run (W : World) (input : Input) (s : State) :
  ∃ s0, heap s0 = heap s ∧ cache s0 = cache s ∧ fetches s0 = fetches s
        ∧ selected_dataset W input s
          = load_lcc_dataset W (dataset_name (region_type input)) s0.
Proof.
  unfold selected_dataset, selected_region_type, dataset_name.
  unfold mbind, M_bind, mret, M_ret. cbn [enter].
  destruct (decide (region_type input = "County")).
  - eexists. split_and!; [..|reflexivity]; done.
  - destruct (decide (region_type input = "VELMA watershed"));
      (eexists; split_and!; [..|reflexivity]; done).
Qed.

(** C8.  When the read of a registry dataset that is not cached raises,
    [load_lcc_dataset] raises that same exception after exactly one read
    (no retry), stores nothing (cache and store are as before), and the
    reactive computations on top of it ([selected_dataset], [plot_lcc],
    [plot_lcc_area]) raise it too; the next call with the same name reads
    the URL again. *)
Theorem load_lcc_dataset_propagates (W : World) (s : State)
    (name url : string) (e : exn) :
  cache_get name (cache s) = None →
  dict_get lcc_data name = Ok url →
  fetched W (length (fetches s)) url = Raise e →
  (read_csv_url W url s).1 = Raise e
  ∧ (∃ s1, load_lcc_dataset W name s = (Raise e, s1)
           ∧ fetches s1 = fetches s ++ [url]
           ∧ cache s1 = cache s ∧ heap s1 = heap s
           ∧ fetches (load_lcc_dataset W name s1).2
             = fetches s ++ [url; url])
  ∧ ∀ input, dataset_name (region_type input) = name →
      (∃ s1, selected_dataset W input s = (Raise e, s1)
             ∧ fetches s1 = fetches s ++ [url] ∧ cache s1 = cache s)
      ∧ (∃ s1, plot_lcc W input s = (Raise e, s1)
               ∧ fetches s1 = fetches s ++ [url] ∧ cache s1 = cache s)
      ∧ (∃ s1, plot_lcc_area W input s = (Raise e, s1)
               ∧ fetches s1 = fetches s ++ [url] ∧ cache s1 = cache s).
Proof.
  intros Hc Hd Hf. split_and!.
  - unfold read_csv_url, mbind, M_bind. cbn [enter log_fetch lift fetches].
    by rewrite Hf.
  - destruct (load_miss_Raise W s name url e Hc Hd Hf) as (s1&Hrun&Hh&Hfs&Hc1).
    exists s1. split_and!; [done..|].
    rewrite <-Hc1 in Hc.
    destruct (fetched W (length (fetches s1)) url) as [d|e'] eqn:Hf1.
    + destruct (load_miss_Ok W s1 name url d Hc Hd Hf1) as (s2&->&_&Hf2&_).
      cbn [snd]. by rewrite Hf2, Hfs, <-app_assoc.
    + destruct (load_miss_Raise W s1 name url e' Hc Hd Hf1)
        as (s2&->&_&Hf2&_).
      cbn [snd]. by rewrite Hf2, Hfs, <-app_assoc.
  - intros input Hname.
    assert (∀ s', heap s' = heap s → cache s' = cache s →
                  fetches s' = fetches s →
              ∃ s1, selected_dataset W input s' = (Raise e, s1)
                    ∧ fetches s1 = fetches s ++ [url] ∧ cache s1 = cache s)
      as Hsel.
    { intros s' Hh' Hc' Hf'.
      destruct (selected_dataset_run W input s') as (s0&Hh0&Hc0&Hf0&->).
      rewrite Hname.
      destruct (load_miss_Raise W s0 name url e) as (s1&->&_&Hfs&Hc1).
      - by rewrite Hc0, Hc'.
      - done.
      - by rewrite Hf0, Hf'.
      - exists s1. by rewrite Hfs, Hc1, Hf0, Hc0, Hf', Hc'. }
    split_and!.
    + by apply Hsel.
    + unfold plot_lcc. rewrite bind_run. cbn [enter]. rewrite bind_run.
      destruct (Hsel {| heap := heap s; cache := cache s;
                        fetches := fetches s;
                        calls := calls s ++ ["plot_lcc"] |})
        as (s1&->&?&?); [done..|]. by exists s1.
    + unfold plot_lcc_area. rewrite bind_run. cbn [enter]. rewrite bind_run.
      destruct (Hsel {| heap := heap s; cache := cache s;
                        fetches := fetches s;
                        calls := calls s ++ ["plot_lcc_area"] |})
        as (s1&->&?&?); [done..|]. by exists s1.
Qed.

(** ** Start-up *)

Arguments fetched : simpl never.
Arguments unique : simpl never.
Arguments field : simpl never.
Arguments getitem : simpl never.
Arguments app_ui : simpl never.

Lemma unique_of_run (s : State) (df : addr) (d : DataFrame) (col : string) :
  heap s !! df = Some d →
  unique_of df col s
  = match col_find d col with
    | Some _ => (Ok (unique (field d col <$> rows d)), s)
    | None => (Raise (KeyError col), s)
    end.
Proof.
  intros Hd. unfold unique_of. rewrite bind_run, (deref_run _ _ _ Hd).
  rewrite bind_run. unfold lift, getitem, field, tolist.
  by destruct (col_find d col) as [[i t]|].
Qed.

Lemma getitem_svalues (d : DataFrame) (col : string) (s : Series) :
  getitem d col = Ok s → svalues s = field d col <$> rows d.
Proof.
  unfold getitem, field. destruct (col_find d col) as [[i t]|]; [|done].
  by intros [= <-].
Qed.

Lemma startup_run (W : World) (g : Globals) (s1 : State) :
  startup W init = (Ok g, s1) →
  ∃ dp dc dw dv dfl,
    fetched W 0 "https://uw-psi.github.io/shinyapp/data/Pullayup.csv" = Ok dp
    ∧ fetched W 1 "https://uw-psi.github.io/shinyapp/data/diffed_counties.csv"
      = Ok dc
    ∧ fetched W 2 "https://uw-psi.github.io/shinyapp/data/diffed_wrias.csv"
      = Ok dw
    ∧ fetched W 3 "https://uw-psi.github.io/shinyapp/data/diffed_velma.csv"
      = Ok dv
    ∧ fetched W 4
        "https://uw-psi.github.io/shinyapp/data/velma_monthly_flow_stats_2011.csv"
      = Ok dfl
    ∧ heap s1 = [dp; dc; dw; dv; dfl]
    ∧ cache s1 = [("velma", 3); ("wrias", 2); ("counties", 1)]
    ∧ fetches s1
      = [ "https://uw-psi.github.io/shinyapp/data/Pullayup.csv";
          "https://uw-psi.github.io/shinyapp/data/diffed_counties.csv";
          "https://uw-psi.github.io/shinyapp/data/diffed_wrias.csv";
          "https://uw-psi.github.io/shinyapp/data/diffed_velma.csv";
          "https://uw-psi.github.io/shinyapp/data/velma_monthly_flow_stats_2011.csv" ]
    ∧ g = {| sample_df := 0;
             hydro_variable_options :=
               filter (λ col, col ∉ ["Year"; "Day"; "Loop"; "Step"])
                 (columns dp).*1;
             df_counties := 1; df_wrias := 2; df_velma := 3;
             county_list := unique (field dc "Feature_Name" <$> rows dc);
             wria_list := unique (field dw "Feature_Name" <$> rows dw);
             velma_list := unique (field dv "Feature_Name" <$> rows dv);
             ui := app_ui
                     (filter (λ col, col ∉ ["Year"; "Day"; "Loop"; "Step"])
                        (columns dp).*1)
                     (unique (field dfl "Watershed" <$> rows dfl)) |}.
Proof.
  intros Hrun. unfold startup, load_lcc_dataset, lru_cache, read_csv_url,
    unique_of in Hrun.
  unfold mbind, M_bind, mret, M_ret, lift, enter, log_fetch, alloc, deref,
    get_cache, set_cache in Hrun.
  simpl in Hrun.
  destruct (fetched W 0 _) as [dp|] eqn:H0; simpl in Hrun; [|done].
  destruct (fetched W 1 _) as [dc|] eqn:H1; simpl in Hrun; [|done].
  destruct (fetched W 2 _) as [dw|] eqn:H2; simpl in Hrun; [|done].
  destruct (fetched W 3 _) as [dv|] eqn:H3; simpl in Hrun; [|done].
  destruct (getitem dc _) as [sc|] eqn:Hc; simpl in Hrun; [|done].
  destruct (getitem dw _) as [sw|] eqn:Hw; simpl in Hrun; [|done].
  destruct (getitem dv _) as [sv|] eqn:Hv; simpl in Hrun; [|done].
  destruct (fetched W 4 _) as [dfl|] eqn:H4; simpl in Hrun; [|done].
  destruct (getitem dfl _) as [sf|] eqn:Hfl; simpl in Hrun; [|done].
  injection Hrun as <- <-.
  apply getitem_svalues in Hc, Hw, Hv, Hfl. unfold tolist.
  rewrite Hc, Hw, Hv, Hfl. exists dp, dc, dw, dv, dfl. done.
Qed.

(** ** The region selector *)

(** C2.  After a successful start-up, for every value of region_type the
    selector [region_selector] renders is a select control for region_name
    whose choices are exactly the distinct Feature_Name values, in order of
    first appearance, of the dataset of that region type: the frame read at
    start-up from the registry URL of "counties" for "County", of "velma"
    for "VELMA watershed" and of "wrias" for anything else, which is also
    the frame [selected_dataset] hands to the plots. *)
Theorem region_selector_choices (W : World) (g : Globals) (s1 s : State)
    (input : Input) :
  startup W init = (Ok g, s1) →
  ∃ url n d label s',
    dict_get lcc_data (dataset_name (region_type input)) = Ok url
    ∧ fetches s1 !! n = Some url ∧ fetched W n url = Ok d
    ∧ returned (selected_dataset W input s1) = Ok d
    ∧ region_selector g input s
      = (Ok (input_select "region_name" label
               (ChoiceList (unique (field d "Feature_Name" <$> rows d)))), s')
    ∧ NoDup (unique (field d "Feature_Name" <$> rows d))
    ∧ ∀ v, v ∈ unique (field d "Feature_Name" <$> rows d) ↔
           ∃ r, r ∈ rows d ∧ field d "Feature_Name" r = v.
Proof.
  intros Hrun.
  destruct (startup_run W g s1 Hrun)
    as (dp&dc&dw&dv&dfl&H0&H1&H2&H3&H4&Hheap&Hcache&Hfetches&->).
  assert (∀ d : DataFrame,
            NoDup (unique (field d "Feature_Name" <$> rows d))
            ∧ ∀ v, v ∈ unique (field d "Feature_Name" <$> rows d) ↔
                   ∃ r, r ∈ rows d ∧ field d "Feature_Name" r = v) as Huniq.
  { intros d. split; [apply NoDup_unique|]. intros v.
    rewrite elem_of_unique, list_elem_of_fmap. naive_solver. }
  destruct (selected_dataset_run W input s1) as (s0&Hh0&Hc0&_&Hsel).
  unfold region_selector, dataset_name in *.
  unfold mbind, M_bind, mret, M_ret. cbn [enter county_list velma_list wria_list].
  destruct (decide (region_type input = "County")).
  - eexists _, 1%nat, dc, _, _. split; [reflexivity|].
    split; [by rewrite Hfetches|]. split; [done|].
    split; [|split; [reflexivity|apply Huniq]].
    rewrite Hsel.
    destruct (load_hit W s0 "counties" 1) as (s'&->&Hh&_); [by rewrite Hc0, Hcache|].
    unfold returned. by rewrite Hh, Hh0, Hheap.
  - destruct (decide (region_type input = "VELMA watershed")).
    + eexists _, 3%nat, dv, _, _. split; [reflexivity|].
      split; [by rewrite Hfetches|]. split; [done|].
      split; [|split; [reflexivity|apply Huniq]].
      rewrite Hsel.
      destruct (load_hit W s0 "velma" 3) as (s'&->&Hh&_);
        [by rewrite Hc0, Hcache|].
      unfold returned. by rewrite Hh, Hh0, Hheap.
    + eexists _, 2%nat, dw, _, _. split; [reflexivity|].
      split; [by rewrite Hfetches|]. split; [done|].
      split; [|split; [reflexivity|apply Huniq]].
      rewrite Hsel.
      destruct (load_hit W s0 "wrias" 2) as (s'&->&Hh&_);
        [by rewrite Hc0, Hcache|].
      unfold returned. by rewrite Hh, Hh0, Hheap.
Qed.

(** ** The hydrologic summary *)

Lemma groupby_agg_reset_Ok (d : DataFrame) (by_ var : string)
    (fs : list (string * aggfunc)) (i : nat) (t : dtype) :
  col_find d by_ = Some (i, t) → numeric_column d var →
  groupby_agg_reset d by_ var fs
  = Ok {| columns := (by_, t) :: ((λ f, (f.1, Numeric)) <$> fs);
          rows := (λ k, k :: ((λ f, agg f.2
                                 (field d var <$>
                                  filter (λ r, field d by_ r = k) (rows d)))
                              <$> fs))
                  <$> sort_keys (unique (filter (λ y, y ≠ NaN)
                                           (field d by_ <$> rows d))) |}.
Proof.
  intros Hby [iv Hv]. unfold groupby_agg_reset.
  rewrite (getitem_field _ _ _ _ Hby), (getitem_field _ _ _ _ Hv).
  cbn [mbind Result_bind sdtype svalues]. rewrite zip_fmap_diag.
  rewrite !filter_fmap, <-list_fmap_compose. do 2 f_equal.
  apply list_fmap_ext. intros n k Hk. f_equal.
  apply list_elem_of_lookup_2 in Hk. clear n.
  rewrite elem_of_sort_keys, elem_of_unique, list_elem_of_fmap in Hk.
  destruct Hk as (r0&->&Hr0). apply list_elem_of_filter in Hr0 as [Hna _].
  apply list_fmap_ext. intros _ f _. f_equal.
  unfold group1.
  rewrite filter_fmap, list_filter_filter, <-list_fmap_compose.
  f_equal. apply list_filter_iff. intros r. simpl.
  split; [tauto|]. intros Heq. split; [done|congruence].
Qed.

Lemma groupby_agg_reset_no_var (d : DataFrame) (by_ var : string)
    (fs : list (string * aggfunc)) :
  has_column d by_ → ¬ has_column d var →
  groupby_agg_reset d by_ var fs = Raise (KeyError var).
Proof.
  intros [[i t] Hby] Hvar. unfold groupby_agg_reset.
  rewrite (getitem_field _ _ _ _ Hby), getitem_missing; [done|].
  destruct (col_find d var) eqn:Hf; [|done]. destruct Hvar. by eexists.
Qed.

Lemma hydro_summary_returned (W : World) (input : Input) (s : State)
    (url : string) (dr : DataFrame) :
  dict_get river_files (river input) = Ok url →
  fetched W (length (fetches s)) url = Ok dr →
  returned (hydro_summary W input s)
  = groupby_agg_reset dr "Year" (variable input)
      [("min", AggMin); ("max", AggMax); ("mean", AggMean)]
  ∧ fetches (hydro_summary W input s).2 = fetches s ++ [url].
Proof.
  intros Hurl Hf. unfold hydro_summary, hydro_data, read_csv_url.
  unfold mbind, M_bind. cbn [enter lift]. rewrite Hurl.
  cbn [log_fetch fetches lift]. rewrite Hf.
  cbn [alloc heap cache fetches calls].
  match goal with
  | |- context [hydro_summary_frame ?a ?v ?st] =>
      pose proof (hydro_summary_frame_returned st a v) as Hret;
      pose proof (quiet_hydro_summary_frame a v st) as [_ Hq]
  end.
  cbn [heap fetches] in Hret, Hq.
  rewrite lookup_app_r, Nat.sub_diag in Hret by done. by rewrite Hret, Hq.
Qed.


(** ** The page and the outputs *)

(** C4.  The radio buttons of velma_var offer "temp2011" and "totN2011",
    which are not keys of [velma_files]: the lookup
    [velma_files[velma_var]] raises KeyError for these two values (and
    succeeds for the other two choices). *)
Theorem velma_var_choices_unregistered (hv : list string) (ws : list cell) :
  ∃ c, filter (λ i, i.1 = "velma_var") (inputs (app_ui hv ws))
       = [("velma_var", c)]
       ∧ choice_values c
         = [Str "flow2011"; Str "temp2011"; Str "totN2011"; Str "totC2011"]
       ∧ ("temp2011" ∉ dict_keys velma_files)
       ∧ ("totN2011" ∉ dict_keys velma_files)
       ∧ dict_get velma_files "temp2011" = Raise (KeyError "temp2011")
       ∧ dict_get velma_files "totN2011" = Raise (KeyError "totN2011")
       ∧ (∃ u, dict_get velma_files "flow2011" = Ok u)
       ∧ (∃ u, dict_get velma_files "totC2011" = Ok u).
Proof.
  eexists. split; [reflexivity|]. split; [reflexivity|].
  split; [by apply (bool_decide_unpack _)|].
  split; [by apply (bool_decide_unpack _)|].
  split; [reflexivity|]. split; [reflexivity|]. split; by eexists.
Qed.

Section enter_rules.

Context {A B : Type} (P : string → Prop).

Lemma enters_ret (a : A) : enters_only P (mret a).
Proof. intros s. exists []. by rewrite app_nil_r. Qed.

Lemma enters_lift (r : Result A) : enters_only P (lift r).
Proof. intros s. exists []. by rewrite app_nil_r. Qed.

Lemma enters_bind (m : M A) (k : A → M B) :
  enters_only P m → (∀ a, enters_only P (k a)) → enters_only P (m ≫= k).
Proof.
  intros Hm Hk s. rewrite bind_run. destruct (Hm s) as (new&Hnew&HP).
  destruct (m s) as [[a|e] s1]; [|by exists new].
  destruct (Hk a s1) as (new'&Hnew'&HP'). exists (new ++ new').
  cbn [snd] in *. rewrite Hnew', Hnew, app_assoc. split; [done|].
  by apply Forall_app.
Qed.

Lemma enters_enter (f : string) : P f → enters_only P (enter f).
Proof. intros Hf s. exists [f]. split; [done|]. by constructor. Qed.

End enter_rules.

Lemma enters_deref P (a : addr) : enters_only P (deref a).
Proof. intros s. exists []. by rewrite app_nil_r. Qed.
Lemma enters_alloc P (d : DataFrame) : enters_only P (alloc d).
Proof. intros s. exists []. by rewrite app_nil_r. Qed.
Lemma enters_log_fetch P (url : string) : enters_only P (log_fetch url).
Proof. intros s. exists []. by rewrite app_nil_r. Qed.
Lemma enters_set_cache P (c : list (string * addr)) :
  enters_only P (set_cache c).
Proof. intros s. exists []. by rewrite app_nil_r. Qed.
Lemma enters_get_cache P : enters_only P get_cache.
Proof. intros s. exists []. by rewrite app_nil_r. Qed.

#[local] Hint Resolve enters_ret enters_lift enters_deref enters_alloc
  enters_log_fetch enters_set_cache enters_get_cache : frame.

Ltac enters_step :=
  first
    [ apply enters_bind; [|intros ?]
    | apply enters_enter; discriminate
    | solve [eauto with frame]
    | match goal with
      | |- context [decide ?P] => destruct (decide P)
      | |- context [match ?x with _ => _ end] => destruct x
      end ].
Ltac enters := repeat enters_step.

(** C9.  [server] registers exactly the outputs region_selector,
    plot_lcc, plot_lcc_area and timeseries_plot.  The page declares an
    output slot velma_monthly_plot, for which no output is registered; and
    rendering any registered output or evaluating any reactive computation,
    in any state and for any input, never enters [make_velma_plot] (which
    would log its entry if it ran). *)
Theorem velma_monthly_plot_never_rendered (W : World) (g : Globals)
    (input : Input) (hv : list string) (ws : list cell) :
  (server W g input).*1
  = ["region_selector"; "plot_lcc"; "plot_lcc_area"; "timeseries_plot"]
  ∧ "velma_monthly_plot" ∈ output_ids (app_ui hv ws)
  ∧ ("velma_monthly_plot" ∉ (server W g input).*1)
  ∧ Forall (λ out, enters_only (λ f, f ≠ "make_velma_plot") out.2)
      (server W g input)
  ∧ enters_only (λ f, f ≠ "make_velma_plot") (selected_region_type input)
  ∧ enters_only (λ f, f ≠ "make_velma_plot") (selected_dataset W input)
  ∧ enters_only (λ f, f ≠ "make_velma_plot") (hydro_data W input)
  ∧ enters_only (λ f, f ≠ "make_velma_plot") (hydro_summary W input)
  ∧ ∀ df watershed var s,
      "make_velma_plot" ∈ calls (make_velma_plot df watershed var s).2.
Proof.
  split; [reflexivity|].
  split; [by apply (bool_decide_unpack _)|].
  split; [by apply (bool_decide_unpack _)|].
  split; [|split; [|split; [|split; [|split]]]].
  - unfold server. repeat apply Forall_cons_2; [..|apply Forall_nil_2];
      cbn [snd];
      unfold region_selector, plot_lcc, plot_lcc_area, timeseries_plot,
        hydro_summary, hydro_summary_frame, hydro_data, selected_dataset,
        selected_region_type, make_lcc_plot, make_lcc_area_plot,
        make_lcc_plot_frame, make_lcc_area_plot_frame, select_rows,
        load_lcc_dataset, lru_cache, read_csv_url;
      enters.
  - unfold selected_region_type. enters.
  - unfold selected_dataset, selected_region_type, load_lcc_dataset,
      lru_cache, read_csv_url. enters.
  - unfold hydro_data, read_csv_url. enters.
  - unfold hydro_summary, hydro_summary_frame, hydro_data, read_csv_url.
    enters.
  - intros df watershed var s. unfold make_velma_plot. rewrite bind_run.
    cbn [enter].
    match goal with
    | |- context [(?m ≫= ?k) ?st] =>
        assert (enters_only (λ _, True) (m ≫= k)) as Hen
          by (unfold make_velma_plot_frame, select_rows; enters);
        destruct (Hen st) as (new&->&_)
    end.
    cbn [calls]. rewrite elem_of_app, elem_of_app. left. right. left.
Qed.

(** The loader on the sample site: counties is read once, and found again
    after other names, one of them unknown, have been asked for. *)
Lemma load_lcc_dataset_memoized_witness :
  cache_inv init
  ∧ ∃ s1 s3 d,
      load_lcc_dataset site "counties" init = (Ok 0%nat, s1)
      ∧ load_lcc_dataset site "counties"
          (load_all site ["wrias"; "velma"; "nowhere"; "wrias"] s1)
        = (Ok 0%nat, s3)
      ∧ fetches s3
        = fetches (load_all site ["wrias"; "velma"; "nowhere"; "wrias"] s1)
      ∧ heap s1 !! 0%nat = Some d ∧ heap s3 !! 0%nat = Some d.
Proof.
  assert (cache_inv init) as Hinv.
  { split_and!; [constructor|intros k []%elem_of_nil|intros k a []%elem_of_nil]. }
  split; [exact Hinv|].
  assert (∃ s1, load_lcc_dataset site "counties" init = (Ok 0%nat, s1))
    as [s1 Hrun] by (eexists; reflexivity).
  destruct (load_lcc_dataset_memoized site init s1 "counties" 0
              ["wrias"; "velma"; "nowhere"; "wrias"] Hinv Hrun)
    as (s3&d&Hrun3&Hf&_&_&Hd1&Hd3&_).
  by exists s1, s3, d.
Defined.

(** The loader when the first read of the run fails. *)
Lemma load_lcc_dataset_propagates_witness :
  cache_get "counties" (cache init) = None
  ∧ dict_get lcc_data "counties"
    = Ok "https://uw-psi.github.io/shinyapp/data/diffed_counties.csv"
  ∧ fetched outage (length (fetches init))
      "https://uw-psi.github.io/shinyapp/data/diffed_counties.csv"
    = Raise (URLError 503)
  ∧ ∃ s1, load_lcc_dataset outage "counties" init = (Raise (URLError 503), s1)
          ∧ cache s1 = [] ∧ heap s1 = []
          ∧ fetches (load_lcc_dataset outage "counties" s1).2
            = [ "https://uw-psi.github.io/shinyapp/data/diffed_counties.csv";
                "https://uw-psi.github.io/shinyapp/data/diffed_counties.csv" ].
Proof.
  assert (cache_get "counties" (cache init) = None) as H1 by reflexivity.
  assert (dict_get lcc_data "counties"
          = Ok "https://uw-psi.github.io/shinyapp/data/diffed_counties.csv")
    as H2 by reflexivity.
  assert (fetched outage (length (fetches init))
            "https://uw-psi.github.io/shinyapp/data/diffed_counties.csv"
          = Raise (URLError 503)) as H3 by reflexivity.
  repeat (split; [assumption|]).
  destruct (load_lcc_dataset_propagates outage init "counties" _ _ H1 H2 H3)
    as (_&(s1&Hrun&Hf&Hc&Hh&Hagain)&_).
  exists s1. by rewrite Hc, Hh, Hagain.
Defined.

(** The selector after start-up on the sample site, for "County". *)
Lemma region_selector_choices_witness :
  ∃ g s1 label s',
    startup site init = (Ok g, s1)
    ∧ region_selector g county_input init
      = (Ok (input_select "region_name" label
               (ChoiceList [Str "King"; Str "Kitsap"])), s').
Proof.
  assert (∃ g s1, startup site init = (Ok g, s1)) as (g&s1&Hrun).
  { destruct (startup site init) as [[g|e] s1] eqn:Hrun; [by eauto|].
    vm_compute in Hrun. discriminate. }
  destruct (region_selector_choices site g s1 init county_input Hrun)
    as (url&n&d&label&s'&Hurl&Hn&Hd&_&Hsel&_).
  exists g, s1, label, s'. split; [done|]. rewrite Hsel.
  destruct (startup_run site g s1 Hrun) as (?&?&?&?&?&_&_&_&_&_&_&_&Hfs&_).
  rewrite Hfs in Hn. injection Hurl as <-.
  destruct n as [|[|n]]; [done| |].
  - injection Hd as <-. reflexivity.
  - exfalso. destruct n as [|[|[|n]]]; done.
Defined.


(** Two stores holding the sample table at the same address. *)
Lemma derived_frames_preserve_source_witness :
  heap (store [counties]) !! 0%nat = heap (store [counties; wrias]) !! 0%nat
  ∧ (make_lcc_plot 0 "King" (store [counties])).1
    = (make_lcc_plot 0 "King" (store [counties; wrias])).1
  ∧ heap (make_lcc_plot 0 "King" (store [counties])).2 !! 0%nat
    = Some counties.
Proof.
  assert (heap (store [counties]) !! 0%nat
          = heap (store [counties; wrias]) !! 0%nat) as H0 by reflexivity.
  split; [exact H0|].
  destruct (derived_frames_preserve_source site county_input 0
              "King" "Tolt" "mean") as ((Hg&_)&_&_&_&_&_&_&_&Hpure).
  destruct (Hpure _ _ H0) as (Hplot&_).
  split; [exact Hplot|]. by apply (grows_lookup _ _ _ _ Hg).
Defined.

(** ** The cache invariant holds in every state the program reaches *)

Lemma keeps_inv_bind {A B : Type} (m : M A) (k : A → M B) :
  keeps_inv m → (∀ a, keeps_inv (k a)) → keeps_inv (m ≫= k).
Proof.
  intros Hm Hk s Hs. rewrite bind_run. specialize (Hm s Hs).
  destruct (m s) as [[a|e] s1]; [by apply Hk|done].
Qed.

(** What grows the store and leaves the cache alone keeps the invariant. *)
Lemma keeps_inv_quiet {A : Type} (m : M A) :
  grows m → (∀ s, cache (m s).2 = cache s) → keeps_inv m.
Proof.
  intros Hg Hq s (Hnd&Hreg&Hval). unfold cache_inv. rewrite Hq.
  split_and!; [done..|]. intros k a Hk. destruct (Hval k a Hk) as [d Hd].
  exists d. by apply grows_lookup.
Qed.

Lemma keeps_inv_ret {A : Type} (a : A) : keeps_inv (mret a).
Proof. by intros s. Qed.
Lemma keeps_inv_lift {A : Type} (r : Result A) : keeps_inv (lift r).
Proof. by intros s. Qed.
Lemma keeps_inv_enter (f : string) : keeps_inv (enter f).
Proof. by intros s. Qed.
Lemma keeps_inv_deref (a : addr) : keeps_inv (deref a).
Proof. by intros s. Qed.
Lemma keeps_inv_log_fetch (url : string) : keeps_inv (log_fetch url).
Proof. by intros s. Qed.
Lemma keeps_inv_alloc (d : DataFrame) : keeps_inv (alloc d).
Proof. apply keeps_inv_quiet; [apply grows_alloc|done]. Qed.
Lemma keeps_inv_load (W : World) (name : string) :
  keeps_inv (load_lcc_dataset W name).
Proof. intros s. apply load_inv. Qed.

#[local] Hint Resolve keeps_inv_ret keeps_inv_lift keeps_inv_enter
  keeps_inv_deref keeps_inv_log_fetch keeps_inv_alloc keeps_inv_load : frame.

Ltac keeps_step :=
  first
    [ solve [eauto with frame]
    | apply keeps_inv_bind; [|intros ?]
    | match goal with
      | |- context [decide ?P] => destruct (decide P)
      | |- context [match ?x with _ => _ end] => destruct x
      end ].
Ltac keeps := repeat keeps_step.

Lemma reachable_cache_inv (W : World) (s : State) :
  reachable W s → cache_inv s.
Proof.
  induction 1 as [|s _ IH|s name _ IH|s g input out _ IH Hout].
  - split_and!; [constructor|intros k []%elem_of_nil|
                 intros k a []%elem_of_nil].
  - revert s IH. change (keeps_inv (startup W)).
    unfold startup, unique_of, read_csv_url. keeps.
  - by apply load_inv.
  - revert s IH. change (keeps_inv out.2).
    unfold server in Hout. rewrite !elem_of_cons in Hout.
    destruct Hout as [->|[->|[->|[->|[]%elem_of_nil]]]]; cbn [snd];
      unfold region_selector, plot_lcc, plot_lcc_area, timeseries_plot,
        hydro_summary, hydro_summary_frame, hydro_data, selected_dataset,
        selected_region_type, make_lcc_plot, make_lcc_area_plot,
        make_lcc_plot_frame, make_lcc_area_plot_frame, select_rows,
        read_csv_url;
      keeps.
Qed.

(** * Further properties of the code *)

(** ** What the plot helpers return, and when they raise *)

(** The two land-cover pivots on a frame of the expected layout: the
    selection succeeds, the pivot succeeds, and a class labels a column
    exactly when a row of the region stands behind it. *)
Lemma lcc_mean_pivot (d : DataFrame) (name value : string) :
  has_column d "Feature_Name" → has_column d "Year" →
  has_column d "Landcover_Class" → numeric_column d value →
  ∃ d' p,
    selected d "Feature_Name" name = Ok d'
    ∧ pivot_table d' "Year" "Landcover_Class" value AggMean (Some 0%Qc) = Ok p
    ∧ ∀ c, c ∈ pcolumns p ↔
           ∃ r, r ∈ rows d ∧ lcc_observed d value name r
                ∧ field d "Landcover_Class" r = c.
Proof.
  intros HF HY HC HV.
  destruct (selected_Ok d "Feature_Name" name HF) as (d'&Hsel&Hcols&Hrows).
  destruct (same_columns_field d d' Hcols) as [Hf Hfield].
  eexists d', _. split; [done|].
  rewrite pivot_table_Ok; unfold has_column, numeric_column;
    rewrite ?Hf; [|done..].
  split; [done|]. intros c. cbn [pcolumns].
  rewrite elem_of_pivot_columns. setoid_rewrite agged_mean_key.
  unfold lcc_observed, lcc_grouped. setoid_rewrite elem_of_recs.
  rewrite Hfield, Hrows. setoid_rewrite list_elem_of_filter. simpl. split.
  - intros (y&q&?&?&r&[??]&<-&<-&Hq). exists r. by rewrite Hq.
  - intros (r&?&((?&?&?)&Hn)&<-).
    destruct (field d value r) as [|q|] eqn:Hq; [done| |done].
    exists (field d "Year" r), q. eauto 10.
Qed.

Lemma lcc_sum_pivot (d : DataFrame) (name value : string) :
  has_column d "Feature_Name" → has_column d "Year" →
  has_column d "Landcover_Class" → numeric_column d value →
  ∃ d' p,
    selected d "Feature_Name" name = Ok d'
    ∧ pivot_table d' "Year" "Landcover_Class" value AggSum (Some 0%Qc) = Ok p
    ∧ ∀ c, c ∈ pcolumns p ↔
           ∃ r, r ∈ rows d ∧ lcc_grouped d name r
                ∧ field d "Landcover_Class" r = c.
Proof.
  intros HF HY HC HV.
  destruct (selected_Ok d "Feature_Name" name HF) as (d'&Hsel&Hcols&Hrows).
  destruct (same_columns_field d d' Hcols) as [Hf Hfield].
  eexists d', _. split; [done|].
  rewrite pivot_table_Ok; unfold has_column, numeric_column;
    rewrite ?Hf; [|done..].
  split; [done|]. intros c. cbn [pcolumns].
  rewrite elem_of_pivot_columns. setoid_rewrite agged_sum_key.
  setoid_rewrite list_elem_of_fmap. unfold lcc_grouped. split.
  - intros (y&[k v]&Hk&Hin). simpl in Hk. subst k.
    rewrite elem_of_recs in Hin. cbn [fst snd] in Hin.
    destruct Hin as (?&?&r&Hr&Hy&Hc&_). rewrite Hfield in Hy, Hc.
    rewrite Hrows, list_elem_of_filter in Hr. destruct Hr as [??].
    exists r. subst. eauto 10.
  - intros (r&Hr&(?&?&?)&<-).
    exists (field d "Year" r),
      ((field d "Year" r, field d "Landcover_Class" r), field d value r).
    split; [done|]. apply elem_of_recs. simpl. split_and!; [done..|].
    exists r. rewrite Hfield, Hrows, list_elem_of_filter. done.
Qed.

(** A pivot step inside a plot helper, after the helper has been entered. *)
Lemma entered_pivot_frame_run (s : State) (fn : string) (df : addr)
    (d d' : DataFrame) (col v ix cl vl : string) (f : aggfunc)
    (fill_value : option Qc) :
  heap s !! df = Some d → selected d col v = Ok d' →
  ∃ s', heap s' = heap s ++ [d'] ∧ cache s' = cache s
        ∧ fetches s' = fetches s
        ∧ (df' ← select_rows df col v;
           d'' ← deref df';
           lift (pivot_table d'' ix cl vl f fill_value)) (enter fn s).2
          = (pivot_table d' ix cl vl f fill_value, s').
Proof.
  intros Hd Hsel. eexists. split_and!; [..|].
  4: { rewrite (pivot_frame_run _ _ d); [|done]. by rewrite Hsel. }
  all: done.
Qed.

(** X1.  On a frame of the expected layout [make_lcc_plot] returns a chart
    exactly when the region has a row with a year, a class and a diff_dev
    value: then the chart is one stacked bar plot of the pivot, with one
    colour per class column, the fixed axis labels and the region in the
    title, and nothing is read or cached on the way.  For any other region
    name (one the frame does not have, or one whose values are all missing)
    the pivot has no column and the plot raises TypeError. *)
Theorem make_lcc_plot_outcome (s : State) (df : addr) (d : DataFrame)
    (name : string) :
  heap s !! df = Some d →
  has_column d "Feature_Name" → has_column d "Year" →
  has_column d "Landcover_Class" → numeric_column d "diff_dev" →
  ∃ p,
    (make_lcc_plot_frame df name s).1 = Ok p
    ∧ ((∃ r, r ∈ rows d ∧ lcc_observed d "diff_dev" name r) →
       ∃ s',
         make_lcc_plot df name s
         = (Ok {| artists := [BarPlot true (color_of <$> pcolumns p) p];
                  ylabel := "Difference in km² from baseline (2015)";
                  xlabel := "Year";
                  title := "Landcover Change in " +:+ name;
                  legend :=
                    Some {| legend_title := Some "Landcover Class";
                            bbox_to_anchor := Some (Q2Qc (105 # 100), Q2Qc 1);
                            legend_loc := Some "upper left" |} |}, s')
         ∧ fetches s' = fetches s ∧ cache s' = cache s)
    ∧ ((¬ ∃ r, r ∈ rows d ∧ lcc_observed d "diff_dev" name r) →
       (make_lcc_plot df name s).1
       = Raise (TypeError "no numeric data to plot")).
Proof.
  intros Hd HF HY HC HV.
  destruct (lcc_mean_pivot d name "diff_dev" HF HY HC HV)
    as (d'&p&Hsel&Hp&Hcols).
  exists p. split.
  { unfold make_lcc_plot_frame.
    by rewrite (pivot_frame_run _ _ _ _ _ _ _ _ _ _ Hd), Hsel, Hp. }
  destruct (entered_pivot_frame_run s "make_lcc_plot" df d d' "Feature_Name"
              name "Year" "Landcover_Class" "diff_dev" AggMean (Some 0%Qc)
              Hd Hsel) as (s'&_&Hc'&Hf'&Hrun).
  rewrite Hp in Hrun.
  assert (make_lcc_plot df name s
          = match plot p (BarPlot true (color_of <$> pcolumns p) p) with
            | Ok ax =>
                (Ok (set_legend
                       {| legend_title := Some "Landcover Class";
                          bbox_to_anchor := Some (Q2Qc (105 # 100), Q2Qc 1);
                          legend_loc := Some "upper left" |}
                       (set_title ("Landcover Change in " +:+ name)
                          (set_xlabel "Year"
                             (set_ylabel
                                "Difference in km² from baseline (2015)"
                                ax)))), s')
            | Raise e => (Raise e, s')
            end) as ->.
  { unfold make_lcc_plot, make_lcc_plot_frame. rewrite bind_run.
    change (enter "make_lcc_plot" s)
      with (Ok (), (enter "make_lcc_plot" s).2).
    cbv iota beta. rewrite bind_run, Hrun. cbv iota beta.
    rewrite bind_run. unfold lift. by destruct (plot p _). }
  unfold plot. split.
  - intros (r&Hr&Hobs).
    assert (field d "Landcover_Class" r ∈ pcolumns p) as Hin
      by (apply Hcols; eauto).
    destruct (pcolumns p) as [|c cs] eqn:Hpc; [by apply elem_of_nil in Hin|].
    eexists. split; [reflexivity|done].
  - intros Hno. destruct (pcolumns p) as [|c cs] eqn:Hpc; [done|].
    destruct Hno. destruct (proj1 (Hcols c)) as (r&?&?&_); [left|eauto].
Qed.

(** The chart of King from the sample table, and no chart for a county the
    table does not have. *)
Lemma make_lcc_plot_outcome_witness :
  heap (store [counties]) !! 0%nat = Some counties
  ∧ has_column counties "Feature_Name" ∧ has_column counties "Year"
  ∧ has_column counties "Landcover_Class"
  ∧ numeric_column counties "diff_dev"
  ∧ (∃ ax s', make_lcc_plot 0 "King" (store [counties]) = (Ok ax, s')
              ∧ title ax = "Landcover Change in King")
  ∧ (make_lcc_plot 0 "Thurston" (store [counties])).1
    = Raise (TypeError "no numeric data to plot").
Proof.
  assert (heap (store [counties]) !! 0%nat = Some counties) as H0
    by reflexivity.
  assert (has_column counties "Feature_Name") as H1 by (by eexists).
  assert (has_column counties "Year") as H2 by (by eexists).
  assert (has_column counties "Landcover_Class") as H3 by (by eexists).
  assert (numeric_column counties "diff_dev") as H4 by (by eexists).
  repeat (split; [assumption|]). split.
  - destruct (make_lcc_plot_outcome (store [counties]) 0 counties "King"
                H0 H1 H2 H3 H4) as (p&_&Hyes&_).
    destruct Hyes as (s'&->&_).
    + exists [Str "King"; int 2019; Str "Forest"; decimal (-15) 10; int 120].
      split; [left|]. by vm_compute.
    + by eexists _, _.
  - destruct (make_lcc_plot_outcome (store [counties]) 0 counties "Thurston"
                H0 H1 H2 H3 H4) as (p&_&_&Hno).
    apply Hno. intros (r&Hr&Hobs).
    assert (Forall (λ r, ¬ lcc_observed counties "diff_dev" "Thurston" r)
              (rows counties)) as Hall
      by (apply (bool_decide_unpack _); by vm_compute).
    rewrite list.Forall_forall in Hall. exact (Hall r Hr Hobs).
Defined.

(** X2.  [make_lcc_area_plot] returns a chart exactly when the region has
    a row with a year and a class, whether or not it has an area value (a
    sum over no values is 0, so no group is dropped): then the chart is one
    stacked bar plot of the pivot with its labels and title, and nothing is
    read or cached.  Otherwise the plot raises TypeError. *)
Theorem make_lcc_area_plot_outcome (s : State) (df : addr) (d : DataFrame)
    (name : string) :
  heap s !! df = Some d →
  has_column d "Feature_Name" → has_column d "Year" →
  has_column d "Landcover_Class" → numeric_column d "Developable_Area_km2" →
  ∃ p,
    (make_lcc_area_plot_frame df name s).1 = Ok p
    ∧ ((∃ r, r ∈ rows d ∧ lcc_grouped d name r) →
       ∃ s',
         make_lcc_area_plot df name s
         = (Ok {| artists := [BarPlot true (color_of <$> pcolumns p) p];
                  ylabel := "Developable area in km²";
                  xlabel := "Year";
                  title := "Landcover Change in " +:+ name;
                  legend :=
                    Some {| legend_title := Some "Landcover Class";
                            bbox_to_anchor := Some (Q2Qc (105 # 100), Q2Qc 1);
                            legend_loc := Some "upper left" |} |}, s')
         ∧ fetches s' = fetches s ∧ cache s' = cache s)
    ∧ ((¬ ∃ r, r ∈ rows d ∧ lcc_grouped d name r) →
       (make_lcc_area_plot df name s).1
       = Raise (TypeError "no numeric data to plot")).
Proof.
  intros Hd HF HY HC HV.
  destruct (lcc_sum_pivot d name "Developable_Area_km2" HF HY HC HV)
    as (d'&p&Hsel&Hp&Hcols).
  exists p. split.
  { unfold make_lcc_area_plot_frame.
    by rewrite (pivot_frame_run _ _ _ _ _ _ _ _ _ _ Hd), Hsel, Hp. }
  destruct (entered_pivot_frame_run s "make_lcc_area_plot" df d d'
              "Feature_Name" name "Year" "Landcover_Class"
              "Developable_Area_km2" AggSum (Some 0%Qc) Hd Hsel)
    as (s'&_&Hc'&Hf'&Hrun).
  rewrite Hp in Hrun.
  assert (make_lcc_area_plot df name s
          = match plot p (BarPlot true (color_of <$> pcolumns p) p) with
            | Ok ax =>
                (Ok (set_legend
                       {| legend_title := Some "Landcover Class";
                          bbox_to_anchor := Some (Q2Qc (105 # 100), Q2Qc 1);
                          legend_loc := Some "upper left" |}
                       (set_title ("Landcover Change in " +:+ name)
                          (set_xlabel "Year"
                             (set_ylabel "Developable area in km²" ax)))),
                 s')
            | Raise e => (Raise e, s')
            end) as ->.
  { unfold make_lcc_area_plot, make_lcc_area_plot_frame. rewrite bind_run.
    change (enter "make_lcc_area_plot" s)
      with (Ok (), (enter "make_lcc_area_plot" s).2).
    cbv iota beta. rewrite bind_run, Hrun. cbv iota beta.
    rewrite bind_run. unfold lift. by destruct (plot p _). }
  unfold plot. split.
  - intros (r&Hr&Hobs).
    assert (field d "Landcover_Class" r ∈ pcolumns p) as Hin
      by (apply Hcols; eauto).
    destruct (pcolumns p) as [|c cs] eqn:Hpc; [by apply elem_of_nil in Hin|].
    eexists. split; [reflexivity|done].
  - intros Hno. destruct (pcolumns p) as [|c cs] eqn:Hpc; [done|].
    destruct Hno. destruct (proj1 (Hcols c)) as (r&?&?&_); [left|eauto].
Qed.

(** King's row of 2020 has an area but no diff_dev: it is in the area
    chart. *)
Lemma make_lcc_area_plot_outcome_witness :
  heap (store [counties]) !! 0%nat = Some counties
  ∧ has_column counties "Feature_Name" ∧ has_column counties "Year"
  ∧ has_column counties "Landcover_Class"
  ∧ numeric_column counties "Developable_Area_km2"
  ∧ ∃ p ax s',
      (make_lcc_area_plot_frame 0 "King" (store [counties])).1 = Ok p
      ∧ make_lcc_area_plot 0 "King" (store [counties]) = (Ok ax, s')
      ∧ artists ax = [BarPlot true (color_of <$> pcolumns p) p].
Proof.
  assert (heap (store [counties]) !! 0%nat = Some counties) as H0
    by reflexivity.
  assert (has_column counties "Feature_Name") as H1 by (by eexists).
  assert (has_column counties "Year") as H2 by (by eexists).
  assert (has_column counties "Landcover_Class") as H3 by (by eexists).
  assert (numeric_column counties "Developable_Area_km2") as H4
    by (by eexists).
  repeat (split; [assumption|]).
  destruct (make_lcc_area_plot_outcome (store [counties]) 0 counties "King"
              H0 H1 H2 H3 H4) as (p&Hp&Hyes&_).
  destruct Hyes as (s'&Hrun&_).
  - exists [Str "King"; int 2020; Str "Agriculture"; NaN; int 118].
    split; [do 2 right; left|]. by vm_compute.
  - eexists p, _, s'. split; [done|]. split; [exact Hrun|done].
Defined.

(** ** Frames of another layout *)

Lemma has_column_dec (d : DataFrame) (col : string) :
  has_column d col ∨ col_find d col = None.
Proof.
  unfold has_column. destruct (col_find d col); [left; by eexists|by right].
Qed.

(** A pivot over a label that is no column raises KeyError for such a
    label; over an object value column it raises TypeError. *)
Lemma pivot_table_KeyError (d : DataFrame) (ix cl vl : string) (f : aggfunc)
    (fill_value : option Qc) :
  (∃ c, c ∈ [ix; cl; vl] ∧ ¬ has_column d c) →
  ∃ c, c ∈ [ix; cl; vl] ∧ ¬ has_column d c
       ∧ pivot_table d ix cl vl f fill_value = Raise (KeyError c).
Proof.
  intros Hmiss. unfold pivot_table.
  destruct (has_column_dec d vl) as [[[iv tv] Hv]|Hv].
  2: { exists vl. rewrite (getitem_missing _ _ Hv). split_and!; [|by intros [??]; simplify_eq|done].
       do 2 right. left. }
  rewrite (getitem_field _ _ _ _ Hv). cbn [mbind Result_bind].
  destruct (has_column_dec d ix) as [[[ii ti] Hi]|Hi].
  2: { exists ix. rewrite (getitem_missing _ _ Hi). split_and!; [left|by intros [??]; simplify_eq|done]. }
  rewrite (getitem_field _ _ _ _ Hi). cbn [mbind Result_bind].
  destruct (has_column_dec d cl) as [[[ic tc] Hc]|Hc].
  2: { exists cl. rewrite (getitem_missing _ _ Hc). split_and!; [right; left|by intros [??]; simplify_eq|done]. }
  destruct Hmiss as (c&Hin&Hno). destruct Hno.
  rewrite !elem_of_cons in Hin.
  destruct Hin as [->|[->|[->|[]%elem_of_nil]]]; by eexists.
Qed.

Lemma pivot_table_TypeError (d : DataFrame) (ix cl vl : string) (f : aggfunc)
    (fill_value : option Qc) (i : nat) :
  has_column d ix → has_column d cl → col_find d vl = Some (i, Object) →
  pivot_table d ix cl vl f fill_value = Raise (TypeError "agg function failed").
Proof.
  intros [[ii ti] Hi] [[ic tc] Hc] Hv. unfold pivot_table.
  by rewrite (getitem_field _ _ _ _ Hv), (getitem_field _ _ _ _ Hi),
    (getitem_field _ _ _ _ Hc).
Qed.

(** The pivot of a selection, as a function of the frame selected from. *)
Lemma selected_pivot_bad_layout (d : DataFrame)
    (col v ix cl vl : string) (f : aggfunc) (fill_value : option Qc) :
  let pivot := (d' ← selected d col v;
                pivot_table d' ix cl vl f fill_value) in
  ((∃ c, c ∈ [col; ix; cl; vl] ∧ ¬ has_column d c) →
   ∃ c, c ∈ [col; ix; cl; vl] ∧ ¬ has_column d c
        ∧ pivot = Raise (KeyError c))
  ∧ (∀ i, has_column d col → has_column d ix → has_column d cl →
          col_find d vl = Some (i, Object) →
          pivot = Raise (TypeError "agg function failed")).
Proof.
  intros pivot. unfold pivot. split.
  - intros (c&Hin&Hno).
    destruct (has_column_dec d col) as [Hcol|Hcol].
    + destruct (selected_Ok d col v Hcol) as (d'&->&Hcols&_).
      destruct (same_columns_field d d' Hcols) as [Hf _].
      cbn [mbind Result_bind].
      destruct (pivot_table_KeyError d' ix cl vl f fill_value)
        as (c'&Hin'&Hno'&->).
      * exists c. unfold has_column. rewrite Hf. split; [|done].
        rewrite elem_of_cons in Hin. destruct Hin as [->|Hin]; [done|done].
      * exists c'. unfold has_column in Hno'. rewrite Hf in Hno'.
        split_and!; [by right|done..].
    + exists col. rewrite selected_Raise by (intros [??]; simplify_eq).
      split_and!; [left|intros [??]; simplify_eq|done].
  - intros i Hcol Hix Hcl Hvl.
    destruct (selected_Ok d col v Hcol) as (d'&->&Hcols&_).
    destruct (same_columns_field d d' Hcols) as [Hf _].
    cbn [mbind Result_bind]. apply (pivot_table_TypeError _ _ _ _ _ _ i);
      unfold has_column; by rewrite Hf.
Qed.

(** An exception of the pivot step is the exception of the helper. *)
Lemma plot_helper_Raise {B : Type} (s : State) (fn : string) (df : addr)
    (d : DataFrame) (col v ix cl vl : string) (f : aggfunc)
    (fill_value : option Qc) (k : PivotTable → M B) (e : exn) :
  heap s !! df = Some d →
  (d' ← selected d col v; pivot_table d' ix cl vl f fill_value) = Raise e →
  ((enter fn;;
    (df' ← select_rows df col v;
     d' ← deref df';
     lift (pivot_table d' ix cl vl f fill_value)) ≫= k) s).1 = Raise e.
Proof.
  intros Hd He. rewrite bind_run. cbn [enter]. rewrite bind_run.
  match goal with
  | |- context [(?m ≫= ?k') ?st] =>
      pose proof (pivot_frame_result st df col v ix cl vl f fill_value) as Hr
  end.
  cbn [heap] in Hr. rewrite Hd, He in Hr.
  match type of Hr with (?x).1 = _ => destruct x as [[p|e'] s'] end;
    simpl in Hr; by simplify_eq.
Qed.



(** ** Cached datasets stay *)

Section pinned_rules.

Context (name : string) (a : addr) (d : DataFrame).

Lemma pinned_bind {A B : Type} (m : M A) (k : A → M B) :
  preserves (pinned name a d) m → (∀ x, preserves (pinned name a d) (k x)) →
  preserves (pinned name a d) (m ≫= k).
Proof.
  intros Hm Hk s Hs. rewrite bind_run. specialize (Hm s Hs).
  destruct (m s) as [[x|e] s1]; [by apply Hk|done].
Qed.

Lemma pinned_quiet {A : Type} (m : M A) :
  grows m → (∀ s, cache (m s).2 = cache s) → preserves (pinned name a d) m.
Proof.
  intros Hg Hq s (Hinv&Hc&Hd). split_and!.
  - by apply keeps_inv_quiet.
  - by rewrite Hq.
  - by apply grows_lookup.
Qed.

Lemma pinned_ret {A : Type} (x : A) : preserves (pinned name a d) (mret x).
Proof. by intros s. Qed.
Lemma pinned_lift {A : Type} (r : Result A) :
  preserves (pinned name a d) (lift r).
Proof. by intros s. Qed.
Lemma pinned_enter (f : string) : preserves (pinned name a d) (enter f).
Proof. by intros s. Qed.
Lemma pinned_deref (x : addr) : preserves (pinned name a d) (deref x).
Proof. by intros s. Qed.
Lemma pinned_log_fetch (url : string) :
  preserves (pinned name a d) (log_fetch url).
Proof. by intros s. Qed.
Lemma pinned_alloc (d' : DataFrame) : preserves (pinned name a d) (alloc d').
Proof. apply pinned_quiet; [apply grows_alloc|done]. Qed.
Lemma pinned_load (W : World) (n : string) :
  preserves (pinned name a d) (load_lcc_dataset W n).
Proof.
  intros s (Hinv&Hc&Hd). split_and!.
  - by apply load_inv.
  - by apply load_keeps.
  - by apply grows_lookup; [apply grows_load_lcc_dataset|].
Qed.

End pinned_rules.

#[local] Hint Resolve pinned_ret pinned_lift pinned_enter pinned_deref
  pinned_log_fetch pinned_alloc pinned_load : frame.

Ltac pins_step :=
  first
    [ solve [eauto with frame]
    | apply pinned_bind; [|intros ?]
    | match goal with
      | |- context [decide ?P] => destruct (decide P)
      | |- context [match ?x with _ => _ end] => destruct x
      end ].
Ltac pins := repeat pins_step.

Lemma run_step_pinned (W : World) (s s' : State) (name : string) (a : addr)
    (d : DataFrame) :
  run_step W s s' → pinned name a d s → pinned name a d s'.
Proof.
  intros [|n|g input out Hout].
  - revert s. change (preserves (pinned name a d) (startup W)).
    unfold startup, unique_of, read_csv_url. pins.
  - apply pinned_load.
  - revert s. change (preserves (pinned name a d) out.2).
    unfold server in Hout. rewrite !elem_of_cons in Hout.
    destruct Hout as [->|[->|[->|[->|[]%elem_of_nil]]]]; cbn [snd];
      unfold region_selector, plot_lcc, plot_lcc_area, timeseries_plot,
        hydro_summary, hydro_summary_frame, hydro_data, selected_dataset,
        selected_region_type, make_lcc_plot, make_lcc_area_plot,
        make_lcc_plot_frame, make_lcc_area_plot_frame, select_rows,
        read_csv_url;
      pins.
Qed.



(** ** Names and rivers outside the registries *)

Lemma dict_get_missing {V : Type} (d : list (string * V)) (k : string) :
  k ∉ dict_keys d → dict_get d k = Raise (KeyError k).
Proof.
  unfold dict_keys. induction d as [|[k' v] d IH]; [done|].
  rewrite fmap_cons, not_elem_of_cons. cbn [fst dict_get]. intros [Hne Hk].
  rewrite decide_False by done. by apply IH.
Qed.

(** X5.  A name that is no key of [lcc_data] is never served: in every
    state the program reaches, [load_lcc_dataset] raises KeyError for it
    without reading anything, leaves the store and the cache as they were
    (a call that raises is not cached), and raises again when called again. *)
Theorem load_lcc_dataset_unknown_name (W : World) (s : State) (name : string) :
  reachable W s →
  name ∉ dict_keys lcc_data →
  ∃ s', load_lcc_dataset W name s = (Raise (KeyError name), s')
        ∧ heap s' = heap s ∧ fetches s' = fetches s ∧ cache s' = cache s
        ∧ (load_lcc_dataset W name s').1 = Raise (KeyError name).
Proof.
  intros Hreach Hname.
  destruct (reachable_cache_inv W s Hreach) as (_&Hreg&_).
  assert (cache_get name (cache s) = None) as Hc.
  { apply cache_get_None. intros Hin. by apply Hname, Hreg. }
  pose proof (dict_get_missing lcc_data name Hname) as Hd.
  destruct (load_miss_KeyError W s name _ Hc Hd) as (s'&Hrun&Hh&Hf&Hc').
  exists s'. split_and!; [done..|].
  destruct (load_miss_KeyError W s' name _ (eq_trans (f_equal _ Hc') Hc) Hd)
    as (s''&->&_). done.
Qed.

(** Asking the loader for "cities" after start-up on the sample site. *)
Lemma load_lcc_dataset_unknown_name_witness :
  reachable site (startup site init).2
  ∧ ("cities" ∉ dict_keys lcc_data)
  ∧ (load_lcc_dataset site "cities" (startup site init).2).1
    = Raise (KeyError "cities")
  ∧ fetches (load_lcc_dataset site "cities" (startup site init).2).2
    = fetches (startup site init).2.
Proof.
  assert (reachable site (startup site init).2) as Hr
    by apply reach_startup, reach_init.
  assert ("cities" ∉ dict_keys lcc_data) as Hn
    by (by apply (bool_decide_unpack _)).
  split; [exact Hr|]. split; [exact Hn|].
  destruct (load_lcc_dataset_unknown_name site _ "cities" Hr Hn)
    as (s'&->&_&Hf&_).
  split; [reflexivity|exact Hf].
Defined.

(** [hydro_data] for a river of the registry. *)
Lemma hydro_data_run (W : World) (input : Input) (url : string) (t : State) :
  dict_get river_files (river input) = Ok url →
  hydro_data W input t
  = match fetched W (length (fetches t)) url with
    | Ok d =>
        (Ok (length (heap t)),
         {| heap := heap t ++ [d]; cache := cache t;
            fetches := fetches t ++ [url];
            calls := (calls t ++ ["hydro_data"]) ++ ["read_csv_url"] |})
    | Raise e =>
        (Raise e,
         {| heap := heap t; cache := cache t;
            fetches := fetches t ++ [url];
            calls := (calls t ++ ["hydro_data"]) ++ ["read_csv_url"] |})
    end.
Proof.
  intros Hurl. unfold hydro_data, read_csv_url, mbind, M_bind.
  cbn [enter lift]. rewrite Hurl. cbn [log_fetch fetches lift].
  by destruct (fetched W _ url).
Qed.

(** X6.  Each evaluation of the body of [hydro_data] reads the file of the
    selected river anew: one read of the river's URL is logged, the outcome
    is what that read yields (a new object, never one the store held, or
    the exception of the read), and the cache of the loader is neither
    consulted nor filled, so that a second evaluation reads the same URL
    again.  A river that is no key of [river_files] raises KeyError before
    anything is read. *)
Theorem hydro_data_reads_anew (W : World) (input : Input) (s : State) :
  (∀ url, dict_get river_files (river input) = Ok url →
     fetches (hydro_data W input s).2 = fetches s ++ [url]
     ∧ cache (hydro_data W input s).2 = cache s
     ∧ returned (hydro_data W input s) = fetched W (length (fetches s)) url
     ∧ (∀ a s1, hydro_data W input s = (Ok a, s1) →
          a = length (heap s) ∧ heap s !! a = None
          ∧ ∃ d, heap s1 = heap s ++ [d])
     ∧ fetches (hydro_data W input (hydro_data W input s).2).2
       = fetches s ++ [url; url])
  ∧ (river input ∉ dict_keys river_files →
     ∃ s', hydro_data W input s = (Raise (KeyError (river input)), s')
           ∧ heap s' = heap s ∧ fetches s' = fetches s ∧ cache s' = cache s).
Proof.
  split.
  - intros url Hurl.
    pose proof (λ t, hydro_data_run W input url t Hurl) as Hrun.
    rewrite !Hrun.
    destruct (fetched W (length (fetches s)) url) as [d|e] eqn:Hf.
    + cbn [snd fetches cache returned heap].
      rewrite lookup_app_r, Nat.sub_diag by done. split_and!; [done..| |].
      * intros a s1 [= <- <-]. cbn [heap].
        split; [done|]. split; [by apply lookup_ge_None_2|]. by exists d.
      * destruct (fetched W (length (fetches s ++ [url])) url);
          cbn [snd fetches];
          symmetry; apply (app_assoc (fetches s) [url] [url]).
    + cbn [snd fetches cache returned heap]. split_and!; [done..| |].
      * intros a s1 [=].
      * destruct (fetched W (length (fetches s ++ [url])) url);
          cbn [snd fetches];
          symmetry; apply (app_assoc (fetches s) [url] [url]).
  - intros Hriver. unfold hydro_data, mbind, M_bind. cbn [enter lift].
    rewrite (dict_get_missing _ _ Hriver). eexists. split; done.
Qed.

(** Snohomish on the sample site, twice in a row, and a river the registry
    does not have. *)
Lemma hydro_data_reads_anew_witness :
  dict_get river_files (river county_input)
  = Ok "https://uw-psi.github.io/shinyapp/data/Snohomish.csv"
  ∧ fetches (hydro_data site county_input
               (hydro_data site county_input init).2).2
    = [ "https://uw-psi.github.io/shinyapp/data/Snohomish.csv";
        "https://uw-psi.github.io/shinyapp/data/Snohomish.csv" ]
  ∧ ("Duwamish" ∉ dict_keys river_files)
  ∧ (hydro_data site
       {| region_type := "County"; region_name := "King";
          velma_var := "flow2011"; velma_watershed := "Tolt";
          river := "Duwamish"; variable := "Runoff" |} init).1
    = Raise (KeyError "Duwamish").
Proof.
  assert (dict_get river_files (river county_input)
          = Ok "https://uw-psi.github.io/shinyapp/data/Snohomish.csv")
    as Hurl by reflexivity.
  assert ("Duwamish" ∉ dict_keys river_files) as Hno
    by (by apply (bool_decide_unpack _)).
  split; [exact Hurl|]. split; [|split; [exact Hno|]].
  - destruct (hydro_data_reads_anew site county_input init) as [Hyes _].
    destruct (Hyes _ Hurl) as (_&_&_&_&->). done.
  - destruct (hydro_data_reads_anew site
                {| region_type := "County"; region_name := "King";
                   velma_var := "flow2011"; velma_watershed := "Tolt";
                   river := "Duwamish"; variable := "Runoff" |} init)
      as [_ Hmiss].
    destruct (Hmiss Hno) as (s'&->&_). done.
Defined.

(** ** The time series of a river *)

(** [hydro_summary] after the read of the river's file has succeeded. *)
Lemma hydro_summary_run (W : World) (input : Input) (s : State)
    (url : string) (dr : DataFrame) :
  dict_get river_files (river input) = Ok url →
  fetched W (length (fetches s)) url = Ok dr →
  ∃ s0, heap s0 = heap s ++ [dr] ∧ cache s0 = cache s
        ∧ fetches s0 = fetches s ++ [url]
        ∧ hydro_summary W input s
          = match groupby_agg_reset dr "Year" (variable input)
                    [("min", AggMin); ("max", AggMax); ("mean", AggMean)] with
            | Ok summary => alloc summary s0
            | Raise e => (Raise e, s0)
            end.
Proof.
  intros Hurl Hf. unfold hydro_summary, hydro_data, read_csv_url.
  unfold mbind, M_bind. cbn [enter lift]. rewrite Hurl.
  cbn [log_fetch fetches lift]. rewrite Hf.
  cbn [alloc heap cache fetches calls].
  eexists. split_and!; [..|apply hydro_summary_frame_run]; cbn [heap]; [done..|].
  by rewrite lookup_app_r, Nat.sub_diag.
Qed.

(** The columns of the summary frame, read back by label. *)
Lemma getitem_summary (t : dtype) (f : cell → list cell) (ks : list cell) :
  let summary := {| columns := [ ("Year", t); ("min", Numeric);
                                 ("max", Numeric); ("mean", Numeric) ];
                    rows := (λ k, k :: f k) <$> ks |} in
  getitem summary "Year" = Ok {| sdtype := t; svalues := ks |}
  ∧ getitem summary "min"
    = Ok {| sdtype := Numeric; svalues := (λ k, cell_at 0 (f k)) <$> ks |}
  ∧ getitem summary "max"
    = Ok {| sdtype := Numeric; svalues := (λ k, cell_at 1 (f k)) <$> ks |}
  ∧ getitem summary "mean"
    = Ok {| sdtype := Numeric; svalues := (λ k, cell_at 2 (f k)) <$> ks |}.
Proof.
  intros summary. unfold getitem, summary.
  split_and!;
    (match goal with
     | |- context [col_find ?d ?c] =>
         let r := eval vm_compute in (col_find d c) in
         change (col_find d c) with r
     end; cbv iota beta; f_equal; f_equal; cbn [rows];
     rewrite <-list_fmap_compose; try by rewrite list_fmap_id).
  all: done.
Qed.

(** [timeseries_plot] after the read of the river's file has succeeded:
    what [hydro_summary] raises, or the chart drawn from the summary. *)
Lemma timeseries_plot_run (W : World) (input : Input) (s : State)
    (url : string) (dr : DataFrame) :
  dict_get river_files (river input) = Ok url →
  fetched W (length (fetches s)) url = Ok dr →
  ∃ s0, cache s0 = cache s ∧ fetches s0 = fetches s ++ [url]
    ∧ match groupby_agg_reset dr "Year" (variable input)
              [("min", AggMin); ("max", AggMax); ("mean", AggMean)] with
      | Raise e => timeseries_plot W input s = (Raise e, s0)
      | Ok summary =>
          ∃ s1, cache s1 = cache s0 ∧ fetches s1 = fetches s0
            ∧ timeseries_plot W input s
              = ((year ← getitem summary "Year";
                  mean ← getitem summary "mean";
                  year' ← getitem summary "Year";
                  lo ← getitem summary "min";
                  hi ← getitem summary "max";
                  Ok {| artists :=
                          [ Line2D (svalues year) (svalues mean) "Mean" "blue";
                            FillBetween (svalues year') (svalues lo)
                              (svalues hi) "blue" (Q2Qc (2 # 10))
                              "Min-Max Range" ];
                        ylabel := variable input;
                        xlabel := "Year";
                        title := variable input +:+ " in " +:+ river input
                                 +:+ " River";
                        legend := Some {| legend_title := None;
                                          bbox_to_anchor := None;
                                          legend_loc := None |} |}), s1)
      end.
Proof.
  intros Hurl Hf. unfold timeseries_plot. rewrite bind_run. cbn [enter].
  rewrite bind_run.
  match goal with
  | |- context [hydro_summary W input ?st] =>
      destruct (hydro_summary_run W input st url dr Hurl Hf)
        as (s0&Hh0&Hc0&Hf0&->)
  end.
  cbn [heap cache fetches] in Hh0, Hc0, Hf0.
  exists s0. split; [done|]. split; [done|].
  destruct (groupby_agg_reset dr "Year" (variable input) _) as [summary|e];
    [|done].
  eexists (alloc summary s0).2. split; [done|]. split; [done|].
  change (alloc summary s0) with (Ok (length (heap s0)), (alloc summary s0).2).
  cbv iota beta. rewrite bind_run, (deref_run _ _ summary) by apply lookup_alloc.
  cbv iota beta. unfold mbind at 1 2 3 4 5, M_bind, lift, mret, M_ret.
  unfold mbind, Result_bind.
  destruct (getitem summary "Year"); [|done].
  destruct (getitem summary "mean"); [|done].
  destruct (getitem summary "min"); [|done].
  by destruct (getitem summary "max").
Qed.

(** The chart of a numeric variable. *)
Lemma timeseries_plot_chart (W : World) (input : Input) (s : State)
    (url : string) (dr : DataFrame) :
  dict_get river_files (river input) = Ok url →
  fetched W (length (fetches s)) url = Ok dr →
  has_column dr "Year" → numeric_column dr (variable input) →
  ∃ s',
    timeseries_plot W input s
    = (Ok {| artists :=
               [ Line2D (summary_years dr)
                   ((λ y, agg AggMean (year_values dr (variable input) y))
                    <$> summary_years dr) "Mean" "blue";
                 FillBetween (summary_years dr)
                   ((λ y, agg AggMin (year_values dr (variable input) y))
                    <$> summary_years dr)
                   ((λ y, agg AggMax (year_values dr (variable input) y))
                    <$> summary_years dr)
                   "blue" (Q2Qc (2 # 10)) "Min-Max Range" ];
             ylabel := variable input;
             xlabel := "Year";
             title := variable input +:+ " in " +:+ river input +:+ " River";
             legend := Some {| legend_title := None; bbox_to_anchor := None;
                               legend_loc := None |} |}, s')
    ∧ fetches s' = fetches s ++ [url] ∧ cache s' = cache s.
Proof.
  intros Hurl Hf [[iy ty] HY] HV.
  destruct (timeseries_plot_run W input s url dr Hurl Hf)
    as (s0&Hc0&Hf0&Hrun).
  rewrite (groupby_agg_reset_Ok dr "Year" (variable input) _ iy ty HY HV)
    in Hrun.
  destruct Hrun as (s1&Hc1&Hf1&->). exists s1.
  split; [|by rewrite Hf1, Hc1, Hf0, Hc0].
  cbn [fmap list_fmap fst snd].
  pose proof (getitem_summary ty
                (λ k, [ agg AggMin (year_values dr (variable input) k);
                        agg AggMax (year_values dr (variable input) k);
                        agg AggMean (year_values dr (variable input) k) ])
                (summary_years dr)) as Hg.
  unfold summary_years, year_values in *. cbv beta zeta in Hg.
  destruct Hg as (->&->&->&->). reflexivity.
Qed.



(** ** The band of the time series *)

Lemma Qc_of_nat_S (n : nat) :
  Qc_of_Z (Z.of_nat (S n)) = (Qc_of_Z (Z.of_nat n) + 1)%Qc.
Proof.
  apply Qc_is_canon. rewrite Nat2Z.inj_succ. unfold Qcplus, Q2Qc. simpl.
  rewrite !Qred_correct. unfold Z.succ. rewrite inject_Z_plus. reflexivity.
Qed.

Lemma Qc_of_nat_pos (n : nat) : (0 < Qc_of_Z (Z.of_nat (S n)))%Qc.
Proof.
  unfold Qclt. simpl. rewrite Qred_correct. unfold Qlt. simpl. lia.
Qed.

Lemma Qsum_lower (lo : Qc) (l : list Qc) :
  Forall (λ x, (lo ≤ x)%Qc) l →
  (lo * Qc_of_Z (Z.of_nat (length l)) ≤ Qsum l)%Qc.
Proof.
  induction 1 as [|x l Hx _ IH].
  - change (lo * 0 ≤ 0)%Qc. rewrite Qcmult_0_r. apply Qcle_refl.
  - rewrite length_cons, Qc_of_nat_S, Qcmult_plus_distr_r, Qcmult_1_r.
    change (Qsum (x :: l)) with (x + Qsum l)%Qc.
    rewrite Qcplus_comm. by apply Qcplus_le_compat.
Qed.

Lemma Qsum_upper (hi : Qc) (l : list Qc) :
  Forall (λ x, (x ≤ hi)%Qc) l →
  (Qsum l ≤ hi * Qc_of_Z (Z.of_nat (length l)))%Qc.
Proof.
  induction 1 as [|x l Hx _ IH].
  - change (0 ≤ hi * 0)%Qc. rewrite Qcmult_0_r. apply Qcle_refl.
  - rewrite length_cons, Qc_of_nat_S, Qcmult_plus_distr_r, Qcmult_1_r.
    change (Qsum (x :: l)) with (x + Qsum l)%Qc.
    rewrite (Qcplus_comm (hi * _)). by apply Qcplus_le_compat.
Qed.

Lemma Qcmin_le (x y : Qc) : (Qcmin x y ≤ x)%Qc ∧ (Qcmin x y ≤ y)%Qc.
Proof.
  unfold Qcmin. case_decide as H; [split; [apply Qcle_refl|done]|].
  split; [|apply Qcle_refl]. by apply Qclt_le_weak, Qcnot_le_lt.
Qed.

Lemma Qcmax_ge (x y : Qc) : (x ≤ Qcmax x y)%Qc ∧ (y ≤ Qcmax x y)%Qc.
Proof.
  unfold Qcmax. case_decide as H; [split; [done|apply Qcle_refl]|].
  split; [apply Qcle_refl|]. by apply Qclt_le_weak, Qcnot_le_lt.
Qed.

Lemma foldr_Qcmin_le (o : Qc) (os : list Qc) :
  Forall (λ x, (foldr Qcmin o os ≤ x)%Qc) (o :: os)
  ∧ foldr Qcmin o os ∈ o :: os.
Proof.
  induction os as [|x os [IH1 IH2]].
  - simpl. split; [repeat constructor; apply Qcle_refl|left].
  - cbn [foldr]. destruct (Qcmin_le x (foldr Qcmin o os)) as [H1 H2]. split.
    + apply list.Forall_cons in IH1 as [Ho Hos].
      constructor; [eapply Qcle_trans; [exact H2|exact Ho]|].
      constructor; [done|].
      eapply list.Forall_impl; [exact Hos|]. intros y Hy. eapply Qcle_trans; [exact H2|exact Hy].
    + rewrite elem_of_cons in IH2. rewrite !elem_of_cons.
      unfold Qcmin. case_decide; [by right; left|]. destruct IH2; auto.
Qed.

Lemma foldr_Qcmax_ge (o : Qc) (os : list Qc) :
  Forall (λ x, (x ≤ foldr Qcmax o os)%Qc) (o :: os)
  ∧ foldr Qcmax o os ∈ o :: os.
Proof.
  induction os as [|x os [IH1 IH2]].
  - simpl. split; [repeat constructor; apply Qcle_refl|left].
  - cbn [foldr]. destruct (Qcmax_ge x (foldr Qcmax o os)) as [H1 H2]. split.
    + apply list.Forall_cons in IH1 as [Ho Hos].
      constructor; [eapply Qcle_trans; [exact Ho|exact H2]|].
      constructor; [done|].
      eapply list.Forall_impl; [exact Hos|]. intros y Hy. eapply Qcle_trans; [exact Hy|exact H2].
    + rewrite elem_of_cons in IH2. rewrite !elem_of_cons.
      unfold Qcmax. case_decide; [|by right; left]. destruct IH2; auto.
Qed.

Lemma Qcle_div_r (a s n : Qc) : (0 < n)%Qc → (a * n ≤ s)%Qc → (a ≤ s / n)%Qc.
Proof.
  intros Hn H. apply (Qcmult_lt_0_le_reg_r _ _ n Hn).
  assert (s / n * n = s)%Qc as ->; [|done].
  rewrite Qcmult_comm. apply Qcmult_div_r. intros ->. by apply Qclt_not_eq in Hn.
Qed.

Lemma Qcle_div_l (a s n : Qc) : (0 < n)%Qc → (s ≤ a * n)%Qc → (s / n ≤ a)%Qc.
Proof.
  intros Hn H. apply (Qcmult_lt_0_le_reg_r _ _ n Hn).
  assert (s / n * n = s)%Qc as ->; [|done].
  rewrite Qcmult_comm. apply Qcmult_div_r. intros ->. by apply Qclt_not_eq in Hn.
Qed.

(** The three reductions of [hydro_summary] on the same values. *)
Lemma agg_band (vs : list cell) :
  (agg AggMin vs = NaN ∧ agg AggMean vs = NaN ∧ agg AggMax vs = NaN)
  ∨ ∃ a b c, agg AggMin vs = Num a ∧ agg AggMean vs = Num b
             ∧ agg AggMax vs = Num c ∧ (a ≤ b)%Qc ∧ (b ≤ c)%Qc.
Proof.
  unfold agg. destruct (observed vs) as [|o os]; [by left|right].
  eexists _, _, _. split_and!; [reflexivity..| |].
  - apply Qcle_div_r; [apply Qc_of_nat_pos|]. apply Qsum_lower, foldr_Qcmin_le.
  - apply Qcle_div_l; [apply Qc_of_nat_pos|]. apply Qsum_upper, foldr_Qcmax_ge.
Qed.

Lemma groupby_agg_reset_Ok_inv (d summary : DataFrame) (by_ var : string)
    (fs : list (string * aggfunc)) :
  groupby_agg_reset d by_ var fs = Ok summary →
  has_column d by_ ∧ numeric_column d var.
Proof.
  unfold groupby_agg_reset, getitem, has_column, numeric_column.
  destruct (col_find d by_) as [[i t]|]; [|done].
  destruct (col_find d var) as [[iv [|]]|]; [|done..].
  intros _. split; by eexists.
Qed.



(** ** The land-cover charts are drawn from what start-up read *)

(** What a plot helper returns is a function of the frame it is given. *)
Lemma plot_helper_result {B : Type} (fn : string) (df1 df2 : addr)
    (s1 s2 : State) (d : DataFrame) (col v ix cl vl : string) (f : aggfunc)
    (fill_value : option Qc) (k : PivotTable → M B) :
  heap s1 !! df1 = Some d → heap s2 !! df2 = Some d →
  (∀ p, stateless (k p)) →
  ((enter fn;;
    (df' ← select_rows df1 col v;
     d' ← deref df';
     lift (pivot_table d' ix cl vl f fill_value)) ≫= k) s1).1
  = ((enter fn;;
      (df' ← select_rows df2 col v;
       d' ← deref df';
       lift (pivot_table d' ix cl vl f fill_value)) ≫= k) s2).1.
Proof.
  intros H1 H2 Hk. rewrite !(bind_run (enter fn)). cbn [enter].
  rewrite !(bind_run (_ ≫= _)).
  rewrite (pivot_frame_run _ df1 d), (pivot_frame_run _ df2 d) by done.
  destruct (selected d col v) as [d'|e]; [|done].
  destruct (pivot_table d' ix cl vl f fill_value) as [p|e]; [|done].
  apply Hk.
Qed.

(** [selected_dataset] when the dataset of the region type is cached. *)
Lemma selected_dataset_hit (W : World) (input : Input) (s : State)
    (a : addr) :
  cache_get (dataset_name (region_type input)) (cache s) = Some a →
  ∃ s', selected_dataset W input s = (Ok a, s')
        ∧ heap s' = heap s ∧ fetches s' = fetches s.
Proof.
  intros Hc. destruct (selected_dataset_run W input s) as (s0&Hh&Hc0&Hf&->).
  destruct (load_hit W s0 (dataset_name (region_type input)) a)
    as (s'&->&Hh'&Hf'&_); [by rewrite Hc0|].
  exists s'. by rewrite Hh', Hf', Hh, Hf.
Qed.



(** ** The order of the reads at start-up *)

(** X10.  The module body reads at most five URLs, each once and in the
    order of the source: Pullayup.csv, the three land-cover datasets
    (counties, wrias, velma), then the VELMA flow statistics; what has been
    read when it stops is a prefix of that list, and a successful start-up
    has read all five.  Nothing is caught: when one of the first four reads
    is the first to fail, the module body raises that read's exception at
    once, with no later URL read and one stored object per read that
    succeeded. *)
Theorem startup_reads_in_order (W : World) :
  let urls :=
    [ "https://uw-psi.github.io/shinyapp/data/Pullayup.csv";
      "https://uw-psi.github.io/shinyapp/data/diffed_counties.csv";
      "https://uw-psi.github.io/shinyapp/data/diffed_wrias.csv";
      "https://uw-psi.github.io/shinyapp/data/diffed_velma.csv";
      "https://uw-psi.github.io/shinyapp/data/velma_monthly_flow_stats_2011.csv" ] in
  fetches (startup W init).2 `prefix_of` urls
  ∧ (∀ g s1, startup W init = (Ok g, s1) → fetches s1 = urls)
  ∧ (∀ n url e,
       (n < 4)%nat → urls !! n = Some url →
       (∀ i u, (i < n)%nat → urls !! i = Some u → ∃ d, fetched W i u = Ok d) →
       fetched W n url = Raise e →
       ∃ s1, startup W init = (Raise e, s1)
             ∧ fetches s1 = take (S n) urls ∧ length (heap s1) = n).
Proof.
  intros urls. split_and!.
  - unfold startup, load_lcc_dataset, lru_cache, read_csv_url, unique_of.
    unfold mbind, M_bind, mret, M_ret, lift, enter, log_fetch, alloc, deref,
      get_cache, set_cache.
    simpl.
    destruct (fetched W 0 _) as [dp|]; simpl; [|by eexists].
    destruct (fetched W 1 _) as [dc|]; simpl; [|by eexists].
    destruct (fetched W 2 _) as [dw|]; simpl; [|by eexists].
    destruct (fetched W 3 _) as [dv|]; simpl; [|by eexists].
    destruct (getitem dc _) as [sc|]; simpl; [|by eexists].
    destruct (getitem dw _) as [sw|]; simpl; [|by eexists].
    destruct (getitem dv _) as [sv|]; simpl; [|by eexists].
    destruct (fetched W 4 _) as [dfl|]; simpl; [|by eexists].
    destruct (getitem dfl _) as [sf|]; simpl; by eexists.
  - intros g s1 Hrun.
    by destruct (startup_run W g s1 Hrun) as (?&?&?&?&?&_&_&_&_&_&_&_&->&_).
  - intros n url e Hn Hurl Hprev Hfail.
    unfold startup, load_lcc_dataset, lru_cache, read_csv_url, unique_of.
    unfold mbind, M_bind, mret, M_ret, lift, enter, log_fetch, alloc, deref,
      get_cache, set_cache.
    simpl.
    destruct n as [|n].
    { injection Hurl as <-. rewrite Hfail. by eexists. }
    destruct (Hprev 0%nat _ ltac:(lia) eq_refl) as [dp ->]. simpl.
    destruct n as [|n].
    { injection Hurl as <-. rewrite Hfail. by eexists. }
    destruct (Hprev 1%nat _ ltac:(lia) eq_refl) as [dc ->]. simpl.
    destruct n as [|n].
    { injection Hurl as <-. rewrite Hfail. by eexists. }
    destruct (Hprev 2%nat _ ltac:(lia) eq_refl) as [dw ->]. simpl.
    destruct n as [|n]; [|lia].
    injection Hurl as <-. rewrite Hfail. by eexists.
Qed.

(** In the browser with the first read of the run failing: the module
    body stops at Pullayup.csv. *)
Lemma startup_reads_in_order_witness :
  fetched outage 0 "https://uw-psi.github.io/shinyapp/data/Pullayup.csv"
  = Raise (URLError 503)
  ∧ ∃ s1, startup outage init = (Raise (URLError 503), s1)
          ∧ fetches s1
            = ["https://uw-psi.github.io/shinyapp/data/Pullayup.csv"]
          ∧ heap s1 = [].
Proof.
  assert (fetched outage 0
            "https://uw-psi.github.io/shinyapp/data/Pullayup.csv"
          = Raise (URLError 503)) as Hfail by reflexivity.
  split; [exact Hfail|].
  destruct (startup_reads_in_order outage) as (_&_&Hstop).
  destruct (Hstop 0%nat _ (URLError 503) ltac:(lia) eq_refl) as (s1&Hrun&Hf&Hh).
  - intros i u Hi. lia.
  - exact Hfail.
  - exists s1. split; [exact Hrun|]. split; [exact Hf|].
    by apply nil_length_inv.
Defined.

(** ** The controls of the page and what the server reads *)

(** X11.  The controls velma_var and velma_watershed of the VELMA Monthly
    Explorer tab have no effect: two settings of the inputs that agree on
    region_type, region_name, river and variable give the same outputs,
    with the same outcome and the same effect on the state, whatever the
    two VELMA controls are set to; the same holds for the reactive
    computations. *)
Theorem velma_controls_have_no_effect (W : World) (g : Globals)
    (input input' : Input) :
  region_type input = region_type input' →
  region_name input = region_name input' →
  river input = river input' →
  variable input = variable input' →
  server W g input = server W g input'
  ∧ selected_region_type input = selected_region_type input'
  ∧ selected_dataset W input = selected_dataset W input'
  ∧ hydro_data W input = hydro_data W input'
  ∧ hydro_summary W input = hydro_summary W input'.
Proof.
  intros Ht Hn Hr Hv.
  unfold server, region_selector, plot_lcc, plot_lcc_area, timeseries_plot,
    hydro_summary, hydro_data, selected_dataset, selected_region_type.
  by rewrite Ht, Hn, Hr, Hv.
Qed.

(** Two settings that differ in the VELMA controls only, after start-up
    on the sample site. *)
Lemma velma_controls_have_no_effect_witness :
  ∃ g s1,
    startup site init = (Ok g, s1)
    ∧ velma_var county_input ≠ "totC2011"
    ∧ server site g county_input
      = server site g
          {| region_type := "County"; region_name := "King";
             velma_var := "totC2011"; velma_watershed := "Cedar";
             river := "Snohomish"; variable := "Temp" |}.
Proof.
  assert (∃ g s1, startup site init = (Ok g, s1)) as (g&s1&Hrun).
  { destruct (startup site init) as [[g|e] s1] eqn:Hrun; [by eauto|].
    vm_compute in Hrun. discriminate. }
  exists g, s1. split; [exact Hrun|]. split; [discriminate|].
  apply (velma_controls_have_no_effect site g county_input
           {| region_type := "County"; region_name := "King";
              velma_var := "totC2011"; velma_watershed := "Cedar";
              river := "Snohomish"; variable := "Temp" |});
    reflexivity.
Defined.

(** X12.  Every river the page offers is registered: the choices of the
    select control "river" are the keys of [river_files], each once, so for
    a river chosen on the page the lookup in [hydro_data] succeeds and
    one read of the registered URL follows; [hydro_data] then returns
    what that read yielded, and raises only what that read raised. *)
Theorem offered_rivers_are_registered (W : World) (hv : list string)
    (ws : list cell) :
  ∃ c, filter (λ i, i.1 = "river") (inputs (app_ui hv ws)) = [("river", c)]
       ∧ choice_values c = Str <$> dict_keys river_files
       ∧ NoDup (choice_values c)
       ∧ ∀ input s,
           Str (river input) ∈ choice_values c →
           ∃ url, dict_get river_files (river input) = Ok url
                  ∧ fetches (hydro_data W input s).2 = fetches s ++ [url]
                  ∧ returned (hydro_data W input s)
                    = fetched W (length (fetches s)) url
                  ∧ ∀ e, (hydro_data W input s).1 = Raise e →
                         fetched W (length (fetches s)) url = Raise e.
Proof.
  eexists. split; [reflexivity|]. split; [reflexivity|].
  split; [by apply (bool_decide_unpack _)|].
  intros input s Hin. cbn [choice_values] in Hin.
  apply list_elem_of_fmap in Hin as (name&[= <-]&Hname).
  destruct (dict_get river_files (river input)) as [url|e] eqn:Hurl.
  2: { exfalso. clear -Hname Hurl. unfold dict_keys in Hname.
       revert Hurl. generalize (river input) Hname. clear.
       intros r Hr. induction river_files as [|[k v] l IH]; simpl in *;
         [by apply elem_of_nil in Hr|].
       case_decide; [done|]. apply IH. apply elem_of_cons in Hr as [?|?];
         [by subst|done]. }
  exists url. split; [done|]. rewrite (hydro_data_run W input url s Hurl).
  destruct (fetched W (length (fetches s)) url) as [d|e] eqn:Hf.
  - cbn [snd fst fetches heap returned].
    rewrite lookup_app_r, Nat.sub_diag by done. done.
  - cbn [snd fst fetches returned]. split_and!; [done..|].
    by intros e0 [= <-].
Qed.

(** Snohomish is offered, and its file is what [hydro_data] returns on the
    sample site. *)
Lemma offered_rivers_are_registered_witness :
  ∃ c, filter (λ i, i.1 = "river") (inputs (app_ui ["Runoff"] [Str "Tolt"]))
       = [("river", c)]
       ∧ Str (river county_input) ∈ choice_values c
       ∧ returned (hydro_data site county_input init) = Ok snohomish.
Proof.
  destruct (offered_rivers_are_registered site ["Runoff"] [Str "Tolt"])
    as (c&Hc&Hv&_&Hreg).
  assert (Str (river county_input) ∈ choice_values c) as Hin.
  { rewrite Hv. apply list_elem_of_fmap. exists "Snohomish".
    split; [reflexivity|]. by apply (bool_decide_unpack _). }
  exists c. split; [exact Hc|]. split; [exact Hin|].
  destruct (Hreg county_input init Hin) as (url&Hurl&_&Hret&_).
  injection Hurl as <-. exact Hret.
Defined.

(** ** The transport *)

Lemma agree_refl {A : Type} (m : M A) : agree m m.
Proof. by intros s. Qed.

Lemma agree_bind {A B : Type} (m1 m2 : M A) (k1 k2 : A → M B) :
  agree m1 m2 → (∀ a, agree (k1 a) (k2 a)) → agree (m1 ≫= k1) (m2 ≫= k2).
Proof.
  intros Hm Hk s. rewrite !bind_run, Hm. destruct (m2 s) as [[a|e] s'];
    [apply Hk|done].
Qed.

Ltac agree_step :=
  first
    [ apply agree_refl
    | solve [eauto with frame]
    | apply agree_bind; [|intros ?]
    | match goal with
      | |- context [decide ?P] => destruct (decide P)
      | |- context [match ?x with _ => _ end] => destruct x
      end ].
Ltac agrees := repeat agree_step.

Section transport.

Context (W1 W2 : World).
Hypothesis same_reads : ∀ n url, fetched W1 n url = fetched W2 n url.

Lemma agree_read_csv_url (url : string) :
  agree (read_csv_url W1 url) (read_csv_url W2 url).
Proof.
  unfold read_csv_url. apply agree_bind; [apply agree_refl|]. intros _.
  apply agree_bind; [apply agree_refl|]. intros n.
  rewrite same_reads. apply agree_refl.
Qed.

#[local] Hint Resolve agree_read_csv_url : frame.

Lemma agree_load_lcc_dataset (name : string) :
  agree (load_lcc_dataset W1 name) (load_lcc_dataset W2 name).
Proof. unfold load_lcc_dataset, lru_cache. agrees. Qed.

#[local] Hint Resolve agree_load_lcc_dataset : frame.

Lemma agree_startup : agree (startup W1) (startup W2).
Proof. unfold startup. agrees. Qed.

Lemma agree_server (g : Globals) (input : Input) :
  Forall2 (λ o1 o2, o1.1 = o2.1 ∧ agree o1.2 o2.2)
    (server W1 g input) (server W2 g input).
Proof.
  unfold server. repeat apply Forall2_cons; [..|apply Forall2_nil];
    (split; [reflexivity|]); cbn [snd];
    unfold plot_lcc, plot_lcc_area, timeseries_plot, hydro_summary,
      hydro_data, selected_dataset;
    agrees.
Qed.

End transport.

(** X13.  [read_csv_url] uses one transport only, the one [IN_BROWSER]
    selects: two runs under the same value of [IN_BROWSER] in which that
    transport yields the same for every read are the same run, whatever
    the other transport would have yielded.  The module body, the loader
    and every output have the same outcome and the same effect in every
    state: in the browser [pd.read_csv] is never given a URL, and outside
    it [open_url] is never called. *)
Theorem transport_by_IN_BROWSER (W1 W2 : World) :
  IN_BROWSER W1 = IN_BROWSER W2 →
  (if IN_BROWSER W1
   then ∀ n url, open_url_read_csv W1 n url = open_url_read_csv W2 n url
   else ∀ n url, local_read_csv W1 n url = local_read_csv W2 n url) →
  (∀ url, agree (read_csv_url W1 url) (read_csv_url W2 url))
  ∧ (∀ name, agree (load_lcc_dataset W1 name) (load_lcc_dataset W2 name))
  ∧ agree (startup W1) (startup W2)
  ∧ ∀ g input,
      Forall2 (λ o1 o2, o1.1 = o2.1 ∧ agree o1.2 o2.2)
        (server W1 g input) (server W2 g input).
Proof.
  intros Hb Hread.
  assert (∀ n url, fetched W1 n url = fetched W2 n url) as Hsame.
  { intros n url. unfold fetched. rewrite <-Hb.
    destruct (IN_BROWSER W1); apply Hread. }
  split_and!.
  - by apply agree_read_csv_url.
  - by apply agree_load_lcc_dataset.
  - by apply agree_startup.
  - intros g input. by apply agree_server.
Qed.

(** The sample site, and the same site with a browser transport that
    would reject every file: outside the browser the two start up alike. *)
Lemma transport_by_IN_BROWSER_witness :
  open_url_read_csv site 0 "https://uw-psi.github.io/shinyapp/data/Pullayup.csv"
  ≠ Raise (ParserError 1)
  ∧ startup site init
    = startup {| IN_BROWSER := false;
                 open_url_read_csv := λ _ _, Raise (ParserError 1);
                 local_read_csv := λ _ url, serve url |} init.
Proof.
  split; [discriminate|].
  destruct (transport_by_IN_BROWSER site
              {| IN_BROWSER := false;
                 open_url_read_csv := λ _ _, Raise (ParserError 1);
                 local_read_csv := λ _ url, serve url |})
    as (_&_&Hstart&_); [reflexivity|intros n url; reflexivity|].
  apply Hstart.
Defined.

(** ** The monthly VELMA chart *)

(** The mean pivot of a selection, read off the frame selected from: the
    labels are those of the rows with both keys and a value, a cell with
    such a row is a number and any other cell is the fill value. *)
Lemma selected_mean_pivot (d : DataFrame) (col v ix cl vl : string)
    (fill_value : option Qc) :
  has_column d col → has_column d ix → has_column d cl →
  numeric_column d vl →
  let behind i c :=
    ∃ r, r ∈ rows d ∧ field d col r = Str v
         ∧ field d ix r ≠ NaN ∧ field d cl r ≠ NaN ∧ is_num (field d vl r)
         ∧ field d ix r = i ∧ field d cl r = c in
  ∃ d' p,
    selected d col v = Ok d'
    ∧ pivot_table d' ix cl vl AggMean fill_value = Ok p
    ∧ (∀ i, i ∈ index p ↔ ∃ c, behind i c)
    ∧ (∀ c, c ∈ pcolumns p ↔ ∃ i, behind i c)
    ∧ ∀ i c, i ∈ index p → c ∈ pcolumns p →
        ∃ x, loc p i c = Some x
             ∧ (behind i c → is_num x)
             ∧ (¬ behind i c → x = fill_cell fill_value).
Proof.
  intros HF HI HC HV behind.
  destruct (selected_Ok d col v HF) as (d'&Hsel&Hcols&Hrows).
  destruct (same_columns_field d d' Hcols) as [Hf Hfield].
  eexists d', _. split; [done|].
  rewrite pivot_table_Ok; unfold has_column, numeric_column;
    rewrite ?Hf; [|done..].
  split; [done|]. cbn [index pcolumns].
  set (rs := recs d' ix cl vl).
  assert (∀ i c, (i, c) ∈ (dropna_all (groupby_agg AggMean rs)).*1
                 ↔ behind i c) as Hkey.
  { intros i c. rewrite agged_mean_key. unfold rs, behind.
    setoid_rewrite elem_of_recs. rewrite Hfield, Hrows.
    setoid_rewrite list_elem_of_filter. simpl. split.
    - intros (q&?&?&r&[??]&<-&<-&Hq). exists r. by rewrite Hq.
    - intros (r&?&?&?&?&Hn&<-&<-).
      destruct (field d vl r) as [|q|] eqn:Hq; [done| |done].
      exists q. eauto 10. }
  split.
  { intros i. rewrite elem_of_pivot_index. by setoid_rewrite Hkey. }
  split.
  { intros c. rewrite elem_of_pivot_columns. by setoid_rewrite Hkey. }
  intros i c Hi Hc. eexists. split.
  { apply (loc_unstack _
             (λ i c, unstack_cell (dropna_all (groupby_agg AggMean rs))
                       fill_value i c));
      [reflexivity|done..]. }
  cbv beta. rewrite unstack_cell_agged.
  rewrite <-Hkey, elem_of_agged_keys. fold rs.
  destruct (decide ((i, c) ∈ rs.*1 ∧ agg AggMean (group rs (i, c)) ≠ NaN))
    as [[Hin Hna]|Hno]; split; try done.
  - intros _. by destruct (agg_Num_or_NaN AggMean (group rs (i, c)))
      as [?|[q ->]].
  - intros Hno. by destruct Hno.
Qed.

(** X14.  [make_velma_plot] on a frame with the columns Watershed, Month
    and Year and a numeric variable other than Month and Year.  The pivot
    has one row per month and one column per year found among the rows of
    the watershed that have a month, a year and a value; a cell with such
    a row is a number, and a cell without one is missing (no fill value is
    given, unlike in the land-cover pivots).  When the watershed has such a
    row the helper returns one line plot with marker "o" of that pivot,
    labelled with the variable, "Month", the variable and the watershed in
    the title and a legend titled "Year", and neither reads nor caches
    anything; otherwise it raises TypeError. *)
Theorem make_velma_plot_outcome (s : State) (df : addr) (d : DataFrame)
    (watershed var : string) :
  heap s !! df = Some d →
  has_column d "Watershed" → has_column d "Month" → has_column d "Year" →
  numeric_column d var → var ≠ "Month" → var ≠ "Year" →
  ∃ p,
    (make_velma_plot_frame df watershed var s).1 = Ok p
    ∧ (∀ m, m ∈ index p ↔
         ∃ r, r ∈ rows d ∧ velma_observed d var watershed r
              ∧ field d "Month" r = m)
    ∧ (∀ y, y ∈ pcolumns p ↔
         ∃ r, r ∈ rows d ∧ velma_observed d var watershed r
              ∧ field d "Year" r = y)
    ∧ (∀ m y, m ∈ index p → y ∈ pcolumns p →
         ∃ x, loc p m y = Some x
              ∧ (x = NaN ↔
                 ¬ ∃ r, r ∈ rows d ∧ velma_observed d var watershed r
                        ∧ field d "Month" r = m ∧ field d "Year" r = y))
    ∧ ((∃ r, r ∈ rows d ∧ velma_observed d var watershed r) →
       ∃ s',
         make_velma_plot df watershed var s
         = (Ok {| artists := [LinePlot "o" p];
                  ylabel := var;
                  xlabel := "Month";
                  title := var +:+ " in " +:+ watershed +:+ " Watershed";
                  legend :=
                    Some {| legend_title := Some "Year";
                            bbox_to_anchor := Some (Q2Qc (105 # 100), Q2Qc 1);
                            legend_loc := Some "upper left" |} |}, s')
         ∧ fetches s' = fetches s ∧ cache s' = cache s)
    ∧ ((¬ ∃ r, r ∈ rows d ∧ velma_observed d var watershed r) →
       (make_velma_plot df watershed var s).1
       = Raise (TypeError "no numeric data to plot")).
Proof.
  intros Hd HW HM HY HV _ _.
  destruct (selected_mean_pivot d "Watershed" watershed "Month" "Year" var
              None HW HM HY HV) as (d'&p&Hsel&Hp&Hidx&Hcols&Hcell).
  assert (∀ m y,
            (∃ r, r ∈ rows d ∧ field d "Watershed" r = Str watershed
                  ∧ field d "Month" r ≠ NaN ∧ field d "Year" r ≠ NaN
                  ∧ is_num (field d var r)
                  ∧ field d "Month" r = m ∧ field d "Year" r = y)
            ↔ ∃ r, r ∈ rows d ∧ velma_observed d var watershed r
                   ∧ field d "Month" r = m ∧ field d "Year" r = y) as Hb.
  { intros m y. unfold velma_observed. naive_solver. }
  exists p. split.
  { unfold make_velma_plot_frame.
    by rewrite (pivot_frame_run _ _ _ _ _ _ _ _ _ _ Hd), Hsel, Hp. }
  split.
  { intros m. rewrite Hidx. setoid_rewrite Hb. naive_solver. }
  split.
  { intros y. rewrite Hcols. setoid_rewrite Hb. naive_solver. }
  split.
  { intros m y Hm Hy. destruct (Hcell m y Hm Hy) as (x&Hx&Hnum&Hfill).
    exists x. split; [done|]. rewrite <-Hb. split.
    - intros -> Hbe. by apply Hnum in Hbe.
    - apply Hfill. }
  destruct (entered_pivot_frame_run s "make_velma_plot" df d d' "Watershed"
              watershed "Month" "Year" var AggMean None Hd Hsel)
    as (s'&_&Hc'&Hf'&Hrun).
  rewrite Hp in Hrun.
  assert (make_velma_plot df watershed var s
          = match plot p (LinePlot "o" p) with
            | Ok ax =>
                (Ok (set_legend
                       {| legend_title := Some "Year";
                          bbox_to_anchor := Some (Q2Qc (105 # 100), Q2Qc 1);
                          legend_loc := Some "upper left" |}
                       (set_title (var +:+ " in " +:+ watershed
                                   +:+ " Watershed")
                          (set_xlabel "Month" (set_ylabel var ax)))), s')
            | Raise e => (Raise e, s')
            end) as ->.
  { unfold make_velma_plot, make_velma_plot_frame. rewrite bind_run.
    change (enter "make_velma_plot" s)
      with (Ok (), (enter "make_velma_plot" s).2).
    cbv iota beta. rewrite bind_run, Hrun. cbv iota beta.
    rewrite bind_run. unfold lift. by destruct (plot p _). }
  unfold plot. split.
  - intros (r&Hr&Hobs).
    assert (field d "Year" r ∈ pcolumns p) as Hin.
    { apply Hcols. exists (field d "Month" r). apply Hb. eauto. }
    destruct (pcolumns p) as [|c cs] eqn:Hpc; [by apply elem_of_nil in Hin|].
    eexists. split; [reflexivity|done].
  - intros Hno. destruct (pcolumns p) as [|c cs] eqn:Hpc; [done|].
    destruct Hno. destruct (proj1 (Hcols c)) as (m&Hbe); [left|].
    apply Hb in Hbe as (r&?&?&_). eauto.
Qed.

(** The monthly means of Tolt in the sample flow table, and a watershed
    the table does not have. *)
Lemma make_velma_plot_outcome_witness :
  heap (store [velma_flow]) !! 0%nat = Some velma_flow
  ∧ numeric_column velma_flow "mean"
  ∧ (∃ ax s', make_velma_plot 0 "Tolt" "mean" (store [velma_flow])
              = (Ok ax, s')
              ∧ title ax = "mean in Tolt Watershed")
  ∧ (make_velma_plot 0 "Skykomish" "mean" (store [velma_flow])).1
    = Raise (TypeError "no numeric data to plot").
Proof.
  assert (heap (store [velma_flow]) !! 0%nat = Some velma_flow) as H0
    by reflexivity.
  assert (has_column velma_flow "Watershed") as H1 by (by eexists).
  assert (has_column velma_flow "Month") as H2 by (by eexists).
  assert (has_column velma_flow "Year") as H3 by (by eexists).
  assert (numeric_column velma_flow "mean") as H4 by (by eexists).
  split; [exact H0|]. split; [exact H4|]. split.
  - destruct (make_velma_plot_outcome (store [velma_flow]) 0 velma_flow
                "Tolt" "mean" H0 H1 H2 H3 H4) as (p&_&_&_&_&Hyes&_);
      [discriminate..|].
    destruct Hyes as (s'&->&_).
    + exists [Str "Tolt"; int 2011; int 1; int 12].
      split; [left|]. by vm_compute.
    + by eexists _, _.
  - destruct (make_velma_plot_outcome (store [velma_flow]) 0 velma_flow
                "Skykomish" "mean" H0 H1 H2 H3 H4) as (p&_&_&_&_&_&Hno);
      [discriminate..|].
    apply Hno. intros (r&Hr&Hobs).
    assert (Forall (λ r, ¬ velma_observed velma_flow "mean" "Skykomish" r)
              (rows velma_flow)) as Hall
      by (apply (bool_decide_unpack _); by vm_compute).
    rewrite list.Forall_forall in Hall. exact (Hall r Hr Hobs).
Defined.

(** ** The order of the rows of a file *)

Lemma ascii_compare_refl (a : Ascii.ascii) : Ascii.compare a a = Eq.
Proof. apply N.compare_refl. Qed.

Lemma ascii_compare_lt_trans (a b c : Ascii.ascii) :
  Ascii.compare a b = Lt → Ascii.compare b c = Lt → Ascii.compare a c = Lt.
Proof.
  unfold Ascii.compare. rewrite !N.compare_lt_iff. apply N.lt_trans.
Qed.

Lemma string_leb_trans (s1 s2 s3 : string) :
  String.leb s1 s2 = true → String.leb s2 s3 = true → String.leb s1 s3 = true.
Proof.
  unfold String.leb. revert s2 s3.
  induction s1 as [|a s1 IH]; intros [|b s2] [|c s3]; simpl; try done.
  destruct (Ascii.compare a b) eqn:Hab; [| |done];
    (destruct (Ascii.compare b c) eqn:Hbc; [| |done]).
  - apply Ascii.compare_eq_iff in Hab, Hbc. subst.
    rewrite ascii_compare_refl. apply IH.
  - apply Ascii.compare_eq_iff in Hab. subst. by rewrite Hbc.
  - apply Ascii.compare_eq_iff in Hbc. subst. by rewrite Hab.
  - by rewrite (ascii_compare_lt_trans a b c).
Qed.

(** The order of the group keys is a total order. *)
Lemma cell_leb_trans : Transitive (λ a b, Is_true (cell_leb a b)).
Proof.
  intros [|x|x] [|y|y] [|z|z]; simpl; try done.
  - rewrite !bool_decide_spec. apply Qcle_trans.
  - rewrite !Is_true_true. apply string_leb_trans.
Qed.

Lemma cell_leb_antisym : AntiSymm (=) (λ a b, Is_true (cell_leb a b)).
Proof.
  intros [|x|x] [|y|y]; simpl; try done.
  - rewrite !bool_decide_spec. intros. f_equal. by apply Qcle_antisym.
  - rewrite !Is_true_true. intros. f_equal. by apply String.leb_antisym.
Qed.

(** Sorting forgets the order the keys came in. *)
Lemma sort_keys_perm (l l' : list cell) : l ≡ₚ l' → sort_keys l = sort_keys l'.
Proof.
  intros Hp.
  apply (Sorted_unique (λ a b, Is_true (cell_leb a b))
           (Transitive0 := cell_leb_trans) (AntiSymm0 := cell_leb_antisym));
    [apply Sorted_sort_keys..|].
  by rewrite !sort_keys_Permutation.
Qed.

Lemma unique_perm {A : Type} `{EqDecision A} (l l' : list A) :
  l ≡ₚ l' → unique l ≡ₚ unique l'.
Proof.
  intros Hp. apply NoDup_Permutation; [apply NoDup_unique..|].
  intros x. by rewrite !elem_of_unique, Hp.
Qed.

Lemma Qsum_perm (l l' : list Qc) : l ≡ₚ l' → Qsum l = Qsum l'.
Proof.
  induction 1 as [|x l l' _ IH|x y l|l1 l2 l3 _ IH1 _ IH2]; [done| | |].
  - by rewrite !Qsum_cons, IH.
  - rewrite !Qsum_cons. ring.
  - by rewrite IH1.
Qed.

Lemma observed_perm (vs vs' : list cell) :
  vs ≡ₚ vs' → observed vs ≡ₚ observed vs'.
Proof. intros Hp. unfold observed. by rewrite Hp. Qed.

Lemma foldr_Qcmin_perm (o o' : Qc) (os os' : list Qc) :
  o :: os ≡ₚ o' :: os' → foldr Qcmin o os = foldr Qcmin o' os'.
Proof.
  intros Hp.
  destruct (foldr_Qcmin_le o os) as [Hle Hin].
  destruct (foldr_Qcmin_le o' os') as [Hle' Hin'].
  rewrite list.Forall_forall in Hle, Hle'.
  apply Qcle_antisym; [apply Hle; by rewrite Hp|apply Hle'; by rewrite <-Hp].
Qed.

Lemma foldr_Qcmax_perm (o o' : Qc) (os os' : list Qc) :
  o :: os ≡ₚ o' :: os' → foldr Qcmax o os = foldr Qcmax o' os'.
Proof.
  intros Hp.
  destruct (foldr_Qcmax_ge o os) as [Hle Hin].
  destruct (foldr_Qcmax_ge o' os') as [Hle' Hin'].
  rewrite list.Forall_forall in Hle, Hle'.
  apply Qcle_antisym; [apply Hle'; by rewrite <-Hp|apply Hle; by rewrite Hp].
Qed.

(** The reductions do not depend on the order of the values. *)
Lemma agg_perm (f : aggfunc) (vs vs' : list cell) :
  vs ≡ₚ vs' → agg f vs = agg f vs'.
Proof.
  intros Hp. apply observed_perm in Hp. unfold agg.
  destruct (observed vs) as [|o os], (observed vs') as [|o' os'].
  - done.
  - by apply Permutation_nil_cons in Hp.
  - symmetry in Hp. by apply Permutation_nil_cons in Hp.
  - destruct f.
    + f_equal. by apply foldr_Qcmin_perm.
    + f_equal. by apply foldr_Qcmax_perm.
    + f_equal. by rewrite (Qsum_perm _ _ Hp), (Permutation_length Hp).
    + f_equal. by apply Qsum_perm.
Qed.

Lemma same_rows_field (d d' : DataFrame) :
  same_rows d d' → col_find d' = col_find d ∧ field d' = field d.
Proof. intros [Hc _]. by apply same_columns_field. Qed.

Lemma recs_perm (d d' : DataFrame) (ix cl vl : string) :
  same_rows d d' → recs d ix cl vl ≡ₚ recs d' ix cl vl.
Proof.
  intros Hs. destruct (same_rows_field d d' Hs) as [_ Hf].
  destruct Hs as [_ Hp]. unfold recs, dropna_keys. by rewrite Hf, Hp.
Qed.

Lemma group_perm (rs rs' : list (key * cell)) (k : key) :
  rs ≡ₚ rs' → group rs k ≡ₚ group rs' k.
Proof. intros Hp. unfold group. by rewrite Hp. Qed.

Lemma groupby_agg_perm (f : aggfunc) (rs rs' : list (key * cell)) :
  rs ≡ₚ rs' → groupby_agg f rs ≡ₚ groupby_agg f rs'.
Proof.
  intros Hp. unfold groupby_agg.
  rewrite (list_fmap_ext _ (λ k, (k, agg f (group rs' k))) (unique rs.*1)).
  - apply fmap_Permutation, unique_perm. by rewrite Hp.
  - intros _ k _. f_equal. by apply agg_perm, group_perm.
Qed.

(** [pivot_table] does not depend on the order of the rows. *)
Lemma pivot_table_perm (d d' : DataFrame) (ix cl vl : string) (f : aggfunc)
    (fill_value : option Qc) :
  same_rows d d' →
  pivot_table d ix cl vl f fill_value = pivot_table d' ix cl vl f fill_value.
Proof.
  intros Hs. destruct (same_rows_field d d' Hs) as [Hf _].
  destruct (col_find d vl) as [[iv [|]]|] eqn:Hv;
    destruct (col_find d ix) as [[ii ti]|] eqn:Hi;
    destruct (col_find d cl) as [[ic tc]|] eqn:Hc.
  2-12: unfold pivot_table, getitem; rewrite Hf, Hv, Hi, Hc; done.
  rewrite !pivot_table_Ok; unfold has_column, numeric_column;
    rewrite ?Hf, ?Hv, ?Hi, ?Hc; [|by eexists..].
  pose proof (recs_perm d d' ix cl vl Hs) as Hrs.
  set (rs := recs d ix cl vl) in *. set (rs' := recs d' ix cl vl) in *.
  assert (dropna_all (groupby_agg f rs) ≡ₚ dropna_all (groupby_agg f rs'))
    as Hag by (unfold dropna_all; by rewrite (groupby_agg_perm f rs rs' Hrs)).
  assert (sort_keys (unique (dropna_all (groupby_agg f rs)).*1.*1)
          = sort_keys (unique (dropna_all (groupby_agg f rs')).*1.*1)) as Hidx
    by (apply sort_keys_perm, unique_perm; by rewrite Hag).
  assert (sort_keys (unique (dropna_all (groupby_agg f rs)).*1.*2)
          = sort_keys (unique (dropna_all (groupby_agg f rs')).*1.*2)) as Hcl
    by (apply sort_keys_perm, unique_perm; by rewrite Hag).
  rewrite Hidx, Hcl. do 2 f_equal.
  apply list_fmap_ext. intros _ i _. apply list_fmap_ext. intros _ c _.
  rewrite !unstack_cell_agged.
  rewrite (agg_perm f _ _ (group_perm rs rs' (i, c) Hrs)).
  apply decide_ext. by rewrite Hrs.
Qed.

Lemma selected_perm (d d' : DataFrame) (col v : string) :
  same_rows d d' →
  match selected d col v, selected d' col v with
  | Ok a, Ok b => same_rows a b
  | Raise e, Raise e' => e = e'
  | _, _ => False
  end.
Proof.
  intros Hs. destruct (same_rows_field d d' Hs) as [Hf Hfield].
  destruct (has_column_dec d col) as [Hc|Hc].
  - destruct (selected_Ok d col v Hc) as (a&->&Hca&Hra).
    destruct (selected_Ok d' col v) as (b&->&Hcb&Hrb);
      [unfold has_column; by rewrite Hf|].
    destruct Hs as [Hcols Hp]. split; [congruence|].
    by rewrite Hra, Hrb, Hfield, Hp.
  - rewrite !selected_Raise;
      [done|unfold has_column; rewrite ?Hf, Hc; by intros [??]..].
Qed.

Lemma selected_pivot_perm (d d' : DataFrame) (col v ix cl vl : string)
    (f : aggfunc) (fill_value : option Qc) :
  same_rows d d' →
  (x ← selected d col v; pivot_table x ix cl vl f fill_value)
  = (x ← selected d' col v; pivot_table x ix cl vl f fill_value).
Proof.
  intros Hs. pose proof (selected_perm d d' col v Hs) as Hsel.
  destruct (selected d col v) as [a|e], (selected d' col v) as [b|e'];
    [|done..|by subst].
  by apply pivot_table_perm.
Qed.

Lemma groupby_agg_reset_perm (d d' : DataFrame) (by_ var : string)
    (fs : list (string * aggfunc)) :
  same_rows d d' →
  groupby_agg_reset d by_ var fs = groupby_agg_reset d' by_ var fs.
Proof.
  intros Hs. destruct (same_rows_field d d' Hs) as [Hf Hfield].
  destruct Hs as [_ Hp].
  destruct (col_find d by_) as [[ib tb]|] eqn:Hb;
    destruct (col_find d var) as [[iv [|]]|] eqn:Hv.
  2-6: unfold groupby_agg_reset, getitem; rewrite Hf, Hb, Hv; done.
  rewrite (groupby_agg_reset_Ok d by_ var fs ib tb),
    (groupby_agg_reset_Ok d' by_ var fs ib tb);
    unfold numeric_column; rewrite ?Hf; [|(done || by eexists)..].
  rewrite Hfield. f_equal.
  rewrite (sort_keys_perm _ (unique (filter (λ y, y ≠ NaN)
                                       (field d by_ <$> rows d'))))
    by (apply unique_perm; by rewrite Hp).
  f_equal. apply list_fmap_ext. intros _ k _. f_equal.
  apply list_fmap_ext. intros _ g _. apply agg_perm. by rewrite Hp.
Qed.

(** What a plot helper returns, in terms of the pivot of the frame. *)
Lemma plot_helper_pure {B : Type} (fn : string) (df : addr) (s : State)
    (d : DataFrame) (col v ix cl vl : string) (f : aggfunc)
    (fill_value : option Qc) (k : PivotTable → M B) :
  heap s !! df = Some d → (∀ p, stateless (k p)) →
  ((enter fn;;
    (df' ← select_rows df col v;
     d' ← deref df';
     lift (pivot_table d' ix cl vl f fill_value)) ≫= k) s).1
  = match (x ← selected d col v; pivot_table x ix cl vl f fill_value) with
    | Ok p => (k p init).1
    | Raise e => Raise e
    end.
Proof.
  intros Hd Hk. rewrite (bind_run (enter fn)). cbn [enter].
  rewrite (bind_run (_ ≫= _)).
  rewrite (pivot_frame_run _ df d) by done.
  destruct (selected d col v) as [d'|e]; [|done]. cbn [mbind Result_bind].
  destruct (pivot_table d' ix cl vl f fill_value) as [p|e]; [|done].
  apply Hk.
Qed.


